(** * CosmicRayTrackMatchingAlgorithm: cross-view matching and re-partitioning

    A shallow embedding of
    [src/LArTwoDReco/LArCosmicRay/CosmicRayTrackMatchingAlgorithm.cc]
    and the properties of its matching pipeline and of its commit step.

    Layout: single-precision arithmetic, the Pandora cluster store and its
    API, the commit step [ModifyClusters], the matching pipeline
    [SelectMatchedTracks], the driver [Run]; then the theorems. *)

From Stdlib Require Import ZArith NArith Floats.SpecFloat.
From stdpp Require Import gmap strings list fin_maps fin_sets sorting.

(** ** Single-precision floats

    The C++ [float] is IEEE-754 binary32: 24 bits of precision, largest
    exponent 128, round to nearest even.  The operations are those of the
    Standard Library's executable specification. *)
Module Float32.

Definition prec : Z := 24.
Definition emax : Z := 128.
Definition float : Type := spec_float.

Definition add : float → float → float := SFadd prec emax.
Definition sub : float → float → float := SFsub prec emax.
Definition mul : float → float → float := SFmul prec emax.
Definition div : float → float → float := SFdiv prec emax.
Definition ltb : float → float → bool := SFltb.

(** [static_cast<float>(n)] for an unsigned integer [n]. *)
Definition of_N (n : N) : float := binary_normalize prec emax (Z.of_N n) 0 false.
Definition of_nat (n : nat) : float := of_N (N.of_nat n).

(** [std::min(a, b)] is [(b < a) ? b : a]; [std::max(a, b)] is
    [(a < b) ? b : a]. *)
Definition min (a b : float) : float := if ltb b a then b else a.
Definition max (a b : float) : float := if ltb a b then b else a.

(** Literals of the source. *)
Definition zero : float := S754_zero false.
Definition half : float := S754_finite false 8388608 (-24).     (* 0.5f *)
Definition f_0_8 : float := S754_finite false 13421773 (-24).   (* 0.8f *)
Definition f_1_5 : float := S754_finite false 12582912 (-23).   (* 1.5f *)
Definition f_3 : float := of_N 3.
Definition f_5 : float := of_N 5.
Definition f_10 : float := of_N 10.

End Float32.

Abbreviation float := Float32.float.

(** ** Status codes and the Pandora cluster store *)

Inductive StatusCode : Set :=
  | STATUS_CODE_SUCCESS
  | STATUS_CODE_FAILURE
  | STATUS_CODE_NOT_FOUND
  | STATUS_CODE_NOT_INITIALIZED
  | STATUS_CODE_NOT_ALLOWED
  | STATUS_CODE_INVALID_PARAMETER.

#[global] Instance StatusCode_eq_dec : EqDecision StatusCode.
Proof. solve_decision. Defined.

(** Hits and clusters are handled through pointers; identity is the
    address. *)
Abbreviation CaloHit := positive (only parsing).
Abbreviation ClusterPtr := positive (only parsing).

Abbreviation CaloHitList := (gset CaloHit).

(** The part of a cluster object the algorithm reads: its availability flag
    and the hits of its ordered calo hit list. *)
Record Cluster : Type := mkCluster {
  IsAvailable : bool;
  GetCaloHitList : CaloHitList
}.

(** A cluster list holds cluster objects, keyed by address. *)
Abbreviation ClusterList := (gmap ClusterPtr Cluster).
Abbreviation ClusterVector := (list (ClusterPtr * Cluster)).

(** Maps of the algorithm's header: all are maps to sets, read and filled
    with [operator[]]. *)
Abbreviation HitAssociationMap := (gmap CaloHit (gset N)).
Abbreviation ClusterAssociationMap := (gmap N CaloHitList).
Abbreviation HitToClusterMap := (gmap CaloHit (gset ClusterPtr)).
Abbreviation ClusterToHitMap := (gmap ClusterPtr CaloHitList).

(** [m[k]] read: an absent key reads as the empty set. *)
Definition mm_get `{Countable K} `{Countable V} (m : gmap K (gset V)) (k : K) : gset V :=
  default ∅ (m !! k).

(** [m[k].insert(v)]. *)
Definition mm_insert `{Countable K} `{Countable V} (k : K) (v : V) (m : gmap K (gset V)) :
    gmap K (gset V) :=
  <[k := {[v]} ∪ mm_get m k]> m.

(** Modelled from the spec: the cluster-storage collaborator (section 6:
    list replace/fetch/create/delete, removeHit, saveList), which is the
    PandoraContentApi and lives outside this repository.  The store keeps the
    named cluster lists and the name of the current list. *)
Record Pandora : Type := mkPandora {
  lists : gmap string ClusterList;
  currentListName : string
}.

Inductive Result (A : Type) : Type :=
  | Ok (a : A)
  | Err (st : StatusCode).
Arguments Ok {A} a.
Arguments Err {A} st.

(** An API call runs on the store; a failing call leaves the store as it is
    at that point (nothing is rolled back). *)
Definition Api (A : Type) : Type := Pandora → Result A * Pandora.

Definition ret {A} (a : A) : Api A := λ s, (Ok a, s).
Definition fail {A} (st : StatusCode) : Api A := λ s, (Err st, s).
Definition bind {A B} (m : Api A) (k : A → Api B) : Api B :=
  λ s, match m s with
       | (Ok a, s') => k a s'
       | (Err st, s') => (Err st, s')
       end.

Notation "x <~ m ;; k" := (bind m (λ x, k))
  (at level 100, m at next level, right associativity).
Notation "m ;;; k" := (bind m (λ _, k))
  (at level 100, right associativity).

(** A loop whose body may return early with a status (pure state). *)
Fixpoint for_each {A S : Type} (body : S → A → StatusCode + S) (l : list A) (s : S) :
    StatusCode + S :=
  match l with
  | [] => inr s
  | x :: l' =>
      match body s x with
      | inl st => inl st
      | inr s' => for_each body l' s'
      end
  end.

(** The same over the store. *)
Fixpoint for_each_api {A : Type} (body : A → Api unit) (l : list A) : Api unit :=
  match l with
  | [] => ret tt
  | x :: l' => body x ;;; for_each_api body l'
  end.

(** The status an [Api unit] computation returns to its caller. *)
Definition status_of (r : Result unit * Pandora) : StatusCode * Pandora :=
  match r with
  | (Ok _, s) => (STATUS_CODE_SUCCESS, s)
  | (Err st, s) => (st, s)
  end.

Module PandoraContentApi.

(** Modelled from the spec: fetching a list by name.  A list that is not in
    the store is not found (section 7: NotFound when a mandatory view input is
    missing or empty). *)
Definition GetList (listName : string) : Api ClusterList :=
  λ s, match lists s !! listName with
       | Some l => (Ok l, s)
       | None => (Err STATUS_CODE_NOT_FOUND, s)
       end.

Definition ReplaceCurrentList (listName : string) : Api unit :=
  λ s, match lists s !! listName with
       | Some _ => (Ok tt, mkPandora (lists s) listName)
       | None => (Err STATUS_CODE_NOT_FOUND, s)
       end.

Definition GetCurrentList : Api ClusterList :=
  λ s, GetList (currentListName s) s.

Definition GetCurrentListName : Api string :=
  λ s, (Ok (currentListName s), s).

(** Deleting a cluster takes it out of the current list; its hits are free
    again. *)
Definition Delete (pCluster : ClusterPtr) : Api unit :=
  λ s, match lists s !! currentListName s with
       | None => (Err STATUS_CODE_NOT_INITIALIZED, s)
       | Some l =>
           match l !! pCluster with
           | None => (Err STATUS_CODE_NOT_FOUND, s)
           | Some _ =>
               (Ok tt, mkPandora (<[currentListName s := delete pCluster l]> (lists s))
                                 (currentListName s))
           end
       end.

(** Removing a hit needs the hit to be in the cluster and may not empty the
    cluster. *)
Definition RemoveFromCluster (pCluster : ClusterPtr) (pCaloHit : CaloHit) : Api unit :=
  λ s, match lists s !! currentListName s with
       | None => (Err STATUS_CODE_NOT_INITIALIZED, s)
       | Some l =>
           match l !! pCluster with
           | None => (Err STATUS_CODE_NOT_FOUND, s)
           | Some c =>
               if decide (pCaloHit ∈ GetCaloHitList c) then
                 if decide (size (GetCaloHitList c) ≤ 1) then (Err STATUS_CODE_NOT_ALLOWED, s)
                 else
                   let c' := mkCluster (IsAvailable c) (GetCaloHitList c ∖ {[pCaloHit]}) in
                   (Ok tt, mkPandora (<[currentListName s := <[pCluster := c']> l]> (lists s))
                                     (currentListName s))
               else (Err STATUS_CODE_NOT_FOUND, s)
           end
       end.

(** Every cluster address in use, over all lists. *)
Definition allClusters (s : Pandora) : gset ClusterPtr :=
  ⋃ (dom <$> (map_to_list (lists s)).*2).

(** A new, empty list under a name not in use becomes the current list. *)
Definition CreateTemporaryListAndSetCurrent : Api string :=
  λ s, let temporaryListName : string := fresh (dom (lists s)) in
       (Ok temporaryListName, mkPandora (<[temporaryListName := ∅]> (lists s)) temporaryListName).

(** A new cluster, available, at an address not in use, goes into the
    current list. *)
Definition Create (caloHitList : CaloHitList) : Api ClusterPtr :=
  λ s, match lists s !! currentListName s with
       | None => (Err STATUS_CODE_NOT_INITIALIZED, s)
       | Some l =>
           if decide (caloHitList = ∅) then (Err STATUS_CODE_INVALID_PARAMETER, s)
           else
             let pNewCluster : ClusterPtr := fresh (allClusters s) in
             (Ok pNewCluster,
              mkPandora (<[currentListName s := <[pNewCluster := mkCluster true caloHitList]> l]>
                           (lists s))
                        (currentListName s))
       end.

(** Saving a temporary list moves its clusters into the named list.  The
    interface (section 6, [saveList(name) -> committed list]) does not say
    what becomes of the temporary list or of the current list: here the
    temporary list goes with the save, so that each saved cluster is in the
    named list only, and the current list name is left as it is. *)
Definition SaveList (oldListName newListName : string) : Api unit :=
  λ s, match lists s !! oldListName with
       | None => (Err STATUS_CODE_NOT_FOUND, s)
       | Some temporaryList =>
           if decide (temporaryList = ∅) then (Err STATUS_CODE_NOT_INITIALIZED, s)
           else
             let remaining := delete oldListName (lists s) in
             let target := default ∅ (remaining !! newListName) in
             (Ok tt, mkPandora (<[newListName := temporaryList ∪ target]> remaining)
                               (currentListName s))
       end.

End PandoraContentApi.

(** ** The commit step: [ModifyClusters] *)

(** Lines 385-400: the hit-to-cluster and cluster-to-hit maps of the current
    list, from its available clusters. *)
Definition record_owner (pCluster : ClusterPtr)
    (acc : HitToClusterMap * ClusterToHitMap) (pCaloHit : CaloHit) :
    HitToClusterMap * ClusterToHitMap :=
  (mm_insert pCaloHit pCluster acc.1, mm_insert pCluster pCaloHit acc.2).

Definition record_cluster (acc : HitToClusterMap * ClusterToHitMap)
    (entry : ClusterPtr * Cluster) : HitToClusterMap * ClusterToHitMap :=
  if negb (IsAvailable entry.2) then acc
  else foldl (record_owner entry.1) acc (elements (GetCaloHitList entry.2)).

Definition BuildOwnership (pCurrentClusterList : ClusterList) :
    HitToClusterMap * ClusterToHitMap :=
  foldl record_cluster (∅, ∅) (map_to_list pCurrentClusterList).

(** Lines 403-434: the hits to take out of current clusters and the hits of
    the clusters to create. *)
Record Reassignment : Type := mkReassignment {
  clustersToModify : ClusterToHitMap;
  clustersToCreate : ClusterAssociationMap;
  foundNewClusters : bool
}.

Definition claim_step (hitAssociationMap : HitAssociationMap)
    (hitsToClusters : HitToClusterMap) (clusterID : N)
    (acc : Reassignment) (pCaloHit : CaloHit) : StatusCode + Reassignment :=
  if decide (1 < size (mm_get hitAssociationMap pCaloHit)) then inr acc
  else if decide (1 < size (mm_get hitsToClusters pCaloHit)) then inl STATUS_CODE_FAILURE
  else
    match elements (mm_get hitsToClusters pCaloHit) with
    | [] => inl STATUS_CODE_FAILURE
    | pCluster :: _ =>
        inr (mkReassignment (mm_insert pCluster pCaloHit (clustersToModify acc))
                            (mm_insert clusterID pCaloHit (clustersToCreate acc))
                            true)
    end.

Definition candidate_step (hitAssociationMap : HitAssociationMap)
    (hitsToClusters : HitToClusterMap)
    (acc : Reassignment) (entry : N * CaloHitList) : StatusCode + Reassignment :=
  for_each (claim_step hitAssociationMap hitsToClusters entry.1) (elements entry.2) acc.

Definition BuildReassignment (hitAssociationMap : HitAssociationMap)
    (clusterAssociationMap : ClusterAssociationMap) (hitsToClusters : HitToClusterMap) :
    StatusCode + Reassignment :=
  for_each (candidate_step hitAssociationMap hitsToClusters)
           (map_to_list clusterAssociationMap)
           (mkReassignment ∅ ∅ false).

(** Lines 441-477: take the hits out of the current clusters; a cluster that
    keeps no hit is deleted. *)
Definition remove_step (clustersToHits : ClusterToHitMap)
    (entry : ClusterPtr * CaloHitList) : Api unit :=
  let pClusterToRemove := entry.1 in
  let caloHitsToRemove := entry.2 in
  match clustersToHits !! pClusterToRemove with
  | None => fail STATUS_CODE_FAILURE
  | Some caloHitsToStart =>
      let caloHitsToKeep : CaloHitList :=
        foldl (λ keep pCaloHit,
                 if decide (pCaloHit ∈ caloHitsToRemove) then keep else {[pCaloHit]} ∪ keep)
              ∅ (elements caloHitsToStart) in
      if decide (caloHitsToKeep = ∅) then PandoraContentApi.Delete pClusterToRemove
      else for_each_api (PandoraContentApi.RemoveFromCluster pClusterToRemove)
                        (elements caloHitsToRemove)
  end.

Definition RemoveHits (clustersToHits clustersToModify : ClusterToHitMap) : Api unit :=
  for_each_api (remove_step clustersToHits) (map_to_list clustersToModify).

(** Lines 486-498: one new cluster per candidate. *)
Definition create_step (entry : N * CaloHitList) : Api unit :=
  let caloHitList := entry.2 in
  if decide (caloHitList = ∅) then fail STATUS_CODE_FAILURE
  else pNewCluster <~ PandoraContentApi.Create caloHitList ;; ret tt.

Definition CreateClusters (clustersToCreate : ClusterAssociationMap) : Api unit :=
  for_each_api create_step (map_to_list clustersToCreate).

Definition ModifyClusters_body (inputClusterListName : string)
    (hitAssociationMap : HitAssociationMap)
    (clusterAssociationMap : ClusterAssociationMap) : Api unit :=
  PandoraContentApi.ReplaceCurrentList inputClusterListName ;;;
  pCurrentClusterList <~ PandoraContentApi.GetCurrentList ;;
  let (hitsToClusters, clustersToHits) := BuildOwnership pCurrentClusterList in
  match BuildReassignment hitAssociationMap clusterAssociationMap hitsToClusters with
  | inl st => fail st
  | inr r =>
      if negb (foundNewClusters r) then ret tt
      else
        RemoveHits clustersToHits (clustersToModify r) ;;;
        currentClusterListName <~ PandoraContentApi.GetCurrentListName ;;
        newClusterListName <~ PandoraContentApi.CreateTemporaryListAndSetCurrent ;;
        CreateClusters (clustersToCreate r) ;;;
        PandoraContentApi.SaveList newClusterListName currentClusterListName
  end.

Definition ModifyClusters (inputClusterListName : string)
    (hitAssociationMap : HitAssociationMap)
    (clusterAssociationMap : ClusterAssociationMap) (s : Pandora) : StatusCode * Pandora :=
  status_of (ModifyClusters_body inputClusterListName hitAssociationMap
                                 clusterAssociationMap s).

(** Measures on a cluster list. *)
Definition clustersOf (l : ClusterList) : list Cluster := (map_to_list l).*2.

Definition totalHits (l : ClusterList) : nat :=
  sum_list_with (λ c, size (GetCaloHitList c)) (clustersOf l).

Definition ownerCount (pCaloHit : CaloHit) (l : ClusterList) : nat :=
  length (filter (λ c, pCaloHit ∈ GetCaloHitList c) (clustersOf l)).

(** The list of a view, empty when the name is not in the store. *)
Definition viewList (s : Pandora) (listName : string) : ClusterList :=
  default ∅ (lists s !! listName).

(** ** Geometry and the helper interface *)

(** Modelled from the spec: Pandora's [CartesianVector] (three floats), its
    difference and its squared magnitude [x*x + y*y + z*z]; the class lives
    outside this repository. *)
Record CartesianVector : Type := mkCartesianVector {
  GetX : float;
  GetY : float;
  GetZ : float
}.

Definition vector_sub (a b : CartesianVector) : CartesianVector :=
  mkCartesianVector (Float32.sub (GetX a) (GetX b))
                    (Float32.sub (GetY a) (GetY b))
                    (Float32.sub (GetZ a) (GetZ b)).

Definition GetMagnitudeSquared (v : CartesianVector) : float :=
  Float32.add (Float32.add (Float32.mul (GetX v) (GetX v)) (Float32.mul (GetY v) (GetY v)))
              (Float32.mul (GetZ v) (GetZ v)).

(** The helpers the algorithm calls ([LArClusterHelper], [LArThreeDHelper],
    [LArGeometryHelper], the sliding fit result, the hit position): their
    code is not part of the file under study, so they are an interface.  A
    call that throws a [StatusCodeException] returns [None] (or [Err]). *)
Class Helpers : Type := mkHelpers {
  HitType : Type;
  HitType_eq_dec :: EqDecision HitType;
  TwoDSlidingFitResult : Type;
  GetPositionVector : CaloHit → CartesianVector;
  GetClusterSpanX : Cluster → float * float;
  GetLengthSquared : Cluster → float;
  GetClusterHitType : Cluster → HitType;
  SortByNHits : Cluster → Cluster → bool;
  LArTwoDSlidingFit : ClusterPtr * Cluster → N → Result TwoDSlidingFitResult;
  GetCluster : TwoDSlidingFitResult → ClusterPtr * Cluster;
  GetGlobalFitPosition : TwoDSlidingFitResult → float → option CartesianVector;
  MergeTwoPositions :
    HitType → HitType → CartesianVector → CartesianVector → option (CartesianVector * float)
}.

(** The members set by [ReadSettings]. *)
Record Settings : Type := mkSettings {
  m_inputClusterListNameU : string;
  m_inputClusterListNameV : string;
  m_inputClusterListNameW : string;
  m_clusterMinLength : float;
  m_halfWindowLayers : N;
  m_minXOverlap : float;
  m_minXOverlapFraction : float;
  m_maxPointDisplacement : float;
  m_maxHitDisplacement : float;
  m_minMatchedPointFraction : float;
  m_minMatchedHits : N
}.

(** [ReadSettings] with the three mandatory names and no optional value in
    the XML: the defaults. *)
Definition ReadSettings (nameU nameV nameW : string) : Settings :=
  mkSettings nameU nameV nameW
             Float32.f_10 15 Float32.f_3 Float32.f_0_8 Float32.f_1_5 Float32.f_5
             Float32.f_0_8 10.

(** [++clusterID] on an [unsigned int]. *)
Definition next_clusterID (clusterID : N) : N := ((clusterID + 1) mod 2 ^ 32)%N.

Section Algorithm.

Context {helpers : Helpers} (cfg : Settings).

Abbreviation TwoDSlidingFitResultMap := (gmap ClusterPtr TwoDSlidingFitResult).

(** ** The matching pipeline: [SelectMatchedTracks] for one pair *)

(** Lines 170-177: the X overlap gate. *)
Definition xOverlap (xMin1 xMax1 xMin2 xMax2 : float) : float :=
  Float32.sub (Float32.min xMax1 xMax2) (Float32.max xMin1 xMin2).

Definition xSpan (xMin1 xMax1 xMin2 xMax2 : float) : float :=
  Float32.sub (Float32.max xMax1 xMax2) (Float32.min xMin1 xMin2).

Definition overlapRejected (xMin1 xMax1 xMin2 xMax2 : float) : bool :=
  Float32.ltb (xOverlap xMin1 xMax1 xMin2 xMax2) (m_minXOverlap cfg)
  || Float32.ltb (Float32.div (xOverlap xMin1 xMax1 xMin2 xMax2)
                              (xSpan xMin1 xMax1 xMin2 xMax2))
                 (m_minXOverlapFraction cfg).

(** Lines 190-210: the sampling loop. *)
Definition nSamplingPoints : N := 100.

Definition samplingX (xMinSampling xMaxSampling : float) (n : N) : float :=
  let alpha := Float32.div (Float32.add Float32.half (Float32.of_N n))
                           (Float32.of_N nSamplingPoints) in
  Float32.add xMinSampling (Float32.mul alpha (Float32.sub xMaxSampling xMinSampling)).

(** The body of the [try] block: the first call that throws ends it. *)
Definition projectSample (slidingFitResult1 slidingFitResult2 : TwoDSlidingFitResult)
    (hitType1 hitType2 : HitType) (x : float) : option CartesianVector :=
  match GetGlobalFitPosition slidingFitResult1 x with
  | None => None
  | Some position1 =>
      match GetGlobalFitPosition slidingFitResult2 x with
      | None => None
      | Some position2 =>
          match MergeTwoPositions hitType1 hitType2 position1 position2 with
          | None => None
          | Some (position3, chi2) => Some position3
          end
      end
  end.

(** [for (n = first; n < first + remaining; ++n)], appending to the list. *)
Fixpoint samplingLoop (slidingFitResult1 slidingFitResult2 : TwoDSlidingFitResult)
    (hitType1 hitType2 : HitType) (xMinSampling xMaxSampling : float)
    (remaining : nat) (n : N) (projectedPositions : list CartesianVector) :
    list CartesianVector :=
  match remaining with
  | O => projectedPositions
  | S remaining' =>
      let x := samplingX xMinSampling xMaxSampling n in
      let projectedPositions' :=
        match projectSample slidingFitResult1 slidingFitResult2 hitType1 hitType2 x with
        | Some position3 => projectedPositions ++ [position3]
        | None => projectedPositions
        end in
      samplingLoop slidingFitResult1 slidingFitResult2 hitType1 hitType2
                   xMinSampling xMaxSampling remaining' (n + 1)%N projectedPositions'
  end.

Definition sampleProjections (slidingFitResult1 slidingFitResult2 : TwoDSlidingFitResult)
    (xMin1 xMax1 xMin2 xMax2 : float) : list CartesianVector :=
  let hitType1 := GetClusterHitType (GetCluster slidingFitResult1).2 in
  let hitType2 := GetClusterHitType (GetCluster slidingFitResult2).2 in
  let xMinSampling := Float32.max xMin1 xMin2 in
  let xMaxSampling := Float32.min xMax1 xMax2 in
  samplingLoop slidingFitResult1 slidingFitResult2 hitType1 hitType2
               xMinSampling xMaxSampling (N.to_nat nSamplingPoints) 0%N [].

(** Lines 235-246 and 319-328: is there a point of the list closer than
    [maxDisplacement] (the loop stops at the first)? *)
Definition closerThan (maxDisplacement : float) (a b : CartesianVector) : bool :=
  Float32.ltb (GetMagnitudeSquared (vector_sub a b))
              (Float32.mul maxDisplacement maxDisplacement).

Definition nearProjection (projectedPositions : list CartesianVector)
    (pCaloHit : CaloHit) : bool :=
  existsb (closerThan (m_maxPointDisplacement cfg) (GetPositionVector pCaloHit))
          projectedPositions.

(** Lines 217-254: associated hits and clusters. *)
Definition associate_cluster (projectedPositions : list CartesianVector)
    (acc : CaloHitList * ClusterList) (entry : ClusterPtr * Cluster) :
    CaloHitList * ClusterList :=
  let availableCaloHits := elements (GetCaloHitList entry.2) in
  let associatedHits' :=
    foldl (λ hits pCaloHit,
             if nearProjection projectedPositions pCaloHit then {[pCaloHit]} ∪ hits else hits)
          acc.1 availableCaloHits in
  let isAssociatedCluster := existsb (nearProjection projectedPositions) availableCaloHits in
  (associatedHits', if isAssociatedCluster then <[entry.1 := entry.2]> acc.2 else acc.2).

Definition findAssociated (projectedPositions : list CartesianVector)
    (availableClusters : ClusterVector) : CaloHitList * ClusterList :=
  foldl (associate_cluster projectedPositions) (∅, ∅) availableClusters.

(** Lines 258-275: no associated cluster may span more than the shorter of
    the two seeds. *)
Definition goodClusters (associatedClusters : ClusterList)
    (xMin1 xMax1 xMin2 xMax2 : float) : bool :=
  forallb (λ entry : ClusterPtr * Cluster,
             let (xMin, xMax) := GetClusterSpanX entry.2 in
             negb (Float32.ltb (Float32.min (Float32.sub xMax1 xMin1) (Float32.sub xMax2 xMin2))
                               (Float32.sub xMax xMin)))
          (map_to_list associatedClusters).

(** Lines 279-303: an associated hit is kept when another associated hit is
    closer than [m_maxHitDisplacement]. *)
Definition isGoodHit (associatedHits : CaloHitList) (pCaloHit1 : CaloHit) : bool :=
  existsb (λ pCaloHit2,
             if decide (pCaloHit1 = pCaloHit2) then false
             else closerThan (m_maxHitDisplacement cfg)
                             (GetPositionVector pCaloHit1) (GetPositionVector pCaloHit2))
          (elements associatedHits).

Definition findMatchedHits (associatedHits : CaloHitList) : CaloHitList :=
  foldl (λ matchedHits pCaloHit1,
           if isGoodHit associatedHits pCaloHit1 then {[pCaloHit1]} ∪ matchedHits
           else matchedHits)
        ∅ (elements associatedHits).

(** Lines 311-335: the fraction of projected positions with a matched hit
    nearby. *)
Definition countMatchedPoints (projectedPositions : list CartesianVector)
    (matchedHits : CaloHitList) : N :=
  foldl (λ nMatchedPoints projectedPosition,
           if existsb (λ pCaloHit,
                         closerThan (m_maxPointDisplacement cfg)
                                    (GetPositionVector pCaloHit) projectedPosition)
                      (elements matchedHits)
           then (nMatchedPoints + 1)%N else nMatchedPoints)
        0%N projectedPositions.

Definition coverageRejected (projectedPositions : list CartesianVector)
    (matchedHits : CaloHitList) : bool :=
  Float32.ltb (Float32.div (Float32.of_N (countMatchedPoints projectedPositions matchedHits))
                           (Float32.of_nat (length projectedPositions)))
              (m_minMatchedPointFraction cfg).

(** Lines 339-345: store the associations of one candidate. *)
Definition storeAssociations (clusterID : N) (matchedHits : CaloHitList)
    (maps : HitAssociationMap * ClusterAssociationMap) :
    HitAssociationMap * ClusterAssociationMap :=
  foldl (λ acc pCaloHit, (mm_insert pCaloHit clusterID acc.1, mm_insert clusterID pCaloHit acc.2))
        maps (elements matchedHits).

(** Lines 162-369. *)
Definition SelectMatchedTracks_pair (clusterID : N)
    (slidingFitResult1 slidingFitResult2 : TwoDSlidingFitResult)
    (availableClusters : ClusterVector)
    (maps : HitAssociationMap * ClusterAssociationMap) :
    HitAssociationMap * ClusterAssociationMap :=
  let pCluster1 := GetCluster slidingFitResult1 in
  let pCluster2 := GetCluster slidingFitResult2 in
  let (xMin1, xMax1) := GetClusterSpanX pCluster1.2 in
  let (xMin2, xMax2) := GetClusterSpanX pCluster2.2 in
  if overlapRejected xMin1 xMax1 xMin2 xMax2 then maps
  else
    let projectedPositions :=
      sampleProjections slidingFitResult1 slidingFitResult2 xMin1 xMax1 xMin2 xMax2 in
    match projectedPositions with
    | [] => maps
    | _ :: _ =>
        let (associatedHits, associatedClusters) :=
          findAssociated projectedPositions availableClusters in
        if negb (goodClusters associatedClusters xMin1 xMax1 xMin2 xMax2) then maps
        else
          let matchedHits := findMatchedHits associatedHits in
          if (N.of_nat (size matchedHits) <? m_minMatchedHits cfg)%N then maps
          else if coverageRejected projectedPositions matchedHits then maps
          else storeAssociations clusterID matchedHits maps
    end.

(** ** [SelectMatchedTracks] over all pairs (lines 116-158) *)

Definition pair_step (slidingFitResultMap : TwoDSlidingFitResultMap)
    (slidingFitResult1 : TwoDSlidingFitResult) (clusterVector3 : ClusterVector)
    (acc : N * (HitAssociationMap * ClusterAssociationMap))
    (entry2 : ClusterPtr * Cluster) : N * (HitAssociationMap * ClusterAssociationMap) :=
  match slidingFitResultMap !! entry2.1 with
  | None => acc
  | Some slidingFitResult2 =>
      let clusterID := next_clusterID acc.1 in
      (clusterID,
       SelectMatchedTracks_pair clusterID slidingFitResult1 slidingFitResult2
                                clusterVector3 acc.2)
  end.

Definition row_step (slidingFitResultMap : TwoDSlidingFitResultMap)
    (clusterVector2 clusterVector3 : ClusterVector)
    (acc : N * (HitAssociationMap * ClusterAssociationMap))
    (entry1 : ClusterPtr * Cluster) : N * (HitAssociationMap * ClusterAssociationMap) :=
  match slidingFitResultMap !! entry1.1 with
  | None => acc
  | Some slidingFitResult1 =>
      foldl (pair_step slidingFitResultMap slidingFitResult1 clusterVector3) acc clusterVector2
  end.

Definition SelectMatchedTracks (slidingFitResultMap : TwoDSlidingFitResultMap)
    (clusterVector1 clusterVector2 clusterVector3 : ClusterVector)
    (maps : HitAssociationMap * ClusterAssociationMap) :
    HitAssociationMap * ClusterAssociationMap :=
  match clusterVector1, clusterVector2, clusterVector3 with
  | first1 :: _, first2 :: _, first3 :: _ =>
      let hitType1 := GetClusterHitType first1.2 in
      let hitType2 := GetClusterHitType first2.2 in
      let hitType3 := GetClusterHitType first3.2 in
      if decide (hitType1 = hitType2 ∨ hitType2 = hitType3 ∨ hitType3 = hitType1) then maps
      else (foldl (row_step slidingFitResultMap clusterVector2 clusterVector3)
                  (0%N, maps) clusterVector1).2
  | _, _, _ => maps
  end.

(** ** Input selection (lines 59-112) *)

#[local] Instance SortByNHits_dec (a b : ClusterPtr * Cluster) :
  Decision (SortByNHits a.2 b.2 = true).
Proof. solve_decision. Defined.

(** Lines 59-79.  [clusterVector] is the caller's vector: the available
    clusters are appended to it, and it is this vector that is tested for
    emptiness and sorted.  On a failure the vector is as the caller passed it
    ([STATUS_CODE_NOT_FOUND] is returned on an empty vector only). *)
Definition GetAvailableClusters (inputClusterListName : string)
    (clusterVector : ClusterVector) : Api ClusterVector :=
  pClusterList <~ PandoraContentApi.GetList inputClusterListName ;;
  let clusterVector :=
    foldl (λ v (entry : ClusterPtr * Cluster),
             if negb (IsAvailable entry.2) then v else v ++ [entry])
          clusterVector (map_to_list pClusterList) in
  match clusterVector with
  | [] => fail STATUS_CODE_NOT_FOUND
  | _ :: _ =>
      ret (merge_sort (λ a b : ClusterPtr * Cluster, SortByNHits a.2 b.2 = true) clusterVector)
  end.

(** Lines 83-94.  [outputVector] is the caller's vector, appended to. *)
Definition SelectCleanClusters (inputVector outputVector : ClusterVector) : ClusterVector :=
  foldl (λ outputVector (entry : ClusterPtr * Cluster),
           if Float32.ltb (GetLengthSquared entry.2)
                          (Float32.mul (m_clusterMinLength cfg) (m_clusterMinLength cfg))
           then outputVector else outputVector ++ [entry])
        outputVector inputVector.

Definition AddToSlidingFitResultMap (clusterVector : ClusterVector)
    (slidingFitResultMap : TwoDSlidingFitResultMap) : StatusCode + TwoDSlidingFitResultMap :=
  for_each (λ (m : TwoDSlidingFitResultMap) (entry : ClusterPtr * Cluster),
              match m !! entry.1 with
              | Some _ => inr m
              | None =>
                  match LArTwoDSlidingFit entry (m_halfWindowLayers cfg) with
                  | Err st => inl st
                  | Ok slidingFitResult =>
                      match m !! entry.1 with
                      | Some _ => inl STATUS_CODE_FAILURE
                      | None => inr (<[entry.1 := slidingFitResult]> m)
                      end
                  end
              end)
           clusterVector slidingFitResultMap.

(** ** The driver (lines 22-55) *)

Definition Run (s : Pandora) : StatusCode * Pandora :=
  match GetAvailableClusters (m_inputClusterListNameU cfg) [] s with
  | (Err st, s) => (st, s)
  | (Ok availableClustersU, s) =>
  match GetAvailableClusters (m_inputClusterListNameV cfg) [] s with
  | (Err st, s) => (st, s)
  | (Ok availableClustersV, s) =>
  match GetAvailableClusters (m_inputClusterListNameW cfg) [] s with
  | (Err st, s) => (st, s)
  | (Ok availableClustersW, s) =>
      let cleanClustersU := SelectCleanClusters availableClustersU [] in
      let cleanClustersV := SelectCleanClusters availableClustersV [] in
      let cleanClustersW := SelectCleanClusters availableClustersW [] in
      match AddToSlidingFitResultMap cleanClustersU ∅ with
      | inl st => (st, s)
      | inr slidingFitResultMap =>
      match AddToSlidingFitResultMap cleanClustersV slidingFitResultMap with
      | inl st => (st, s)
      | inr slidingFitResultMap =>
      match AddToSlidingFitResultMap cleanClustersW slidingFitResultMap with
      | inl st => (st, s)
      | inr slidingFitResultMap =>
          let associationsW :=
            SelectMatchedTracks slidingFitResultMap cleanClustersU cleanClustersV
                                availableClustersW (∅, ∅) in
          let associationsU :=
            SelectMatchedTracks slidingFitResultMap cleanClustersV cleanClustersW
                                availableClustersU (∅, ∅) in
          let associationsV :=
            SelectMatchedTracks slidingFitResultMap cleanClustersW cleanClustersU
                                availableClustersV (∅, ∅) in
          match ModifyClusters (m_inputClusterListNameU cfg) associationsU.1 associationsU.2 s with
          | (STATUS_CODE_SUCCESS, s) =>
          match ModifyClusters (m_inputClusterListNameV cfg) associationsV.1 associationsV.2 s with
          | (STATUS_CODE_SUCCESS, s) =>
          match ModifyClusters (m_inputClusterListNameW cfg) associationsW.1 associationsW.2 s with
          | (STATUS_CODE_SUCCESS, s) => (STATUS_CODE_SUCCESS, s)
          | (st, s) => (st, s)
          end
          | (st, s) => (st, s)
          end
          | (st, s) => (st, s)
          end
      end end end
  end end end.

End Algorithm.

(** ** Reading the settings (lines 518-557)

    [XmlHelper::ReadValue(xmlHandle, name, t)] is a call into the Pandora
    SDK: by element name and by the type of [t] it returns a status and
    leaves a value in [t].  The handle is the interface of these reads: each
    takes the name and the value of [t] before the call and gives the status
    and the value of [t] after it. *)
Record TiXmlHandle : Type := mkTiXmlHandle {
  ReadString : string → string → StatusCode * string;
  ReadFloat : string → float → StatusCode * float;
  ReadUnsigned : string → N → StatusCode * N
}.

(** [PANDORA_RETURN_RESULT_IF(STATUS_CODE_SUCCESS, !=, ...)] returns on any
    status but success; [PANDORA_RETURN_RESULT_IF_AND_IF(STATUS_CODE_SUCCESS,
    STATUS_CODE_NOT_FOUND, !=, ...)] lets [STATUS_CODE_NOT_FOUND] pass too. *)
Definition mandatoryFailed (sc : StatusCode) : bool :=
  bool_decide (sc ≠ STATUS_CODE_SUCCESS).
Definition optionalFailed (sc : StatusCode) : bool :=
  bool_decide (sc ≠ STATUS_CODE_SUCCESS ∧ sc ≠ STATUS_CODE_NOT_FOUND).

(** [ReadSettings] on the members [this] of the algorithm: the status it
    returns and the members after it. *)
Definition ReadSettingsFrom (xmlHandle : TiXmlHandle) (this : Settings) :
    StatusCode * Settings :=
  let '(mkSettings nameU nameV nameW clusterMinLength halfWindowLayers minXOverlap
                   minXOverlapFraction maxPointDisplacement maxHitDisplacement
                   minMatchedPointFraction minMatchedHits) := this in
  let (sc, nameU) := ReadString xmlHandle "InputClusterListNameU" nameU in
  if mandatoryFailed sc
  then (sc, mkSettings nameU nameV nameW clusterMinLength halfWindowLayers minXOverlap
                       minXOverlapFraction maxPointDisplacement maxHitDisplacement
                       minMatchedPointFraction minMatchedHits) else
  let (sc, nameV) := ReadString xmlHandle "InputClusterListNameV" nameV in
  if mandatoryFailed sc
  then (sc, mkSettings nameU nameV nameW clusterMinLength halfWindowLayers minXOverlap
                       minXOverlapFraction maxPointDisplacement maxHitDisplacement
                       minMatchedPointFraction minMatchedHits) else
  let (sc, nameW) := ReadString xmlHandle "InputClusterListNameW" nameW in
  if mandatoryFailed sc
  then (sc, mkSettings nameU nameV nameW clusterMinLength halfWindowLayers minXOverlap
                       minXOverlapFraction maxPointDisplacement maxHitDisplacement
                       minMatchedPointFraction minMatchedHits) else
  let (sc, clusterMinLength) := ReadFloat xmlHandle "ClusterMinLength" Float32.f_10 in
  if optionalFailed sc
  then (sc, mkSettings nameU nameV nameW clusterMinLength halfWindowLayers minXOverlap
                       minXOverlapFraction maxPointDisplacement maxHitDisplacement
                       minMatchedPointFraction minMatchedHits) else
  let (sc, halfWindowLayers) := ReadUnsigned xmlHandle "SlidingFitHalfWindow" 15%N in
  if optionalFailed sc
  then (sc, mkSettings nameU nameV nameW clusterMinLength halfWindowLayers minXOverlap
                       minXOverlapFraction maxPointDisplacement maxHitDisplacement
                       minMatchedPointFraction minMatchedHits) else
  let (sc, minXOverlap) := ReadFloat xmlHandle "MinXOverlap" Float32.f_3 in
  if optionalFailed sc
  then (sc, mkSettings nameU nameV nameW clusterMinLength halfWindowLayers minXOverlap
                       minXOverlapFraction maxPointDisplacement maxHitDisplacement
                       minMatchedPointFraction minMatchedHits) else
  let (sc, minXOverlapFraction) := ReadFloat xmlHandle "MinXOverlapFraction" Float32.f_0_8 in
  if optionalFailed sc
  then (sc, mkSettings nameU nameV nameW clusterMinLength halfWindowLayers minXOverlap
                       minXOverlapFraction maxPointDisplacement maxHitDisplacement
                       minMatchedPointFraction minMatchedHits) else
  let (sc, maxPointDisplacement) :=
    ReadFloat xmlHandle "MaxPointDisplacement" Float32.f_1_5 in
  if optionalFailed sc
  then (sc, mkSettings nameU nameV nameW clusterMinLength halfWindowLayers minXOverlap
                       minXOverlapFraction maxPointDisplacement maxHitDisplacement
                       minMatchedPointFraction minMatchedHits) else
  let (sc, maxHitDisplacement) := ReadFloat xmlHandle "MaxHitDisplacement" Float32.f_5 in
  if optionalFailed sc
  then (sc, mkSettings nameU nameV nameW clusterMinLength halfWindowLayers minXOverlap
                       minXOverlapFraction maxPointDisplacement maxHitDisplacement
                       minMatchedPointFraction minMatchedHits) else
  let (sc, minMatchedPointFraction) :=
    ReadFloat xmlHandle "MinMatchedPointraction" Float32.f_0_8 in
  if optionalFailed sc
  then (sc, mkSettings nameU nameV nameW clusterMinLength halfWindowLayers minXOverlap
                       minXOverlapFraction maxPointDisplacement maxHitDisplacement
                       minMatchedPointFraction minMatchedHits) else
  let (sc, minMatchedHits) := ReadUnsigned xmlHandle "MinMatchedHits" 10%N in
  if optionalFailed sc
  then (sc, mkSettings nameU nameV nameW clusterMinLength halfWindowLayers minXOverlap
                       minXOverlapFraction maxPointDisplacement maxHitDisplacement
                       minMatchedPointFraction minMatchedHits) else
  (STATUS_CODE_SUCCESS,
   mkSettings nameU nameV nameW clusterMinLength halfWindowLayers minXOverlap
              minXOverlapFraction maxPointDisplacement maxHitDisplacement
              minMatchedPointFraction minMatchedHits).

(** ** A worked scenario

    One-dimensional geometry for running the algorithm: hit [h] sits on the
    x axis at [h mod 100], its view is [h / 100]; a fit covers the span of its
    cluster and the merge predicts the same x in the third view. *)
Module Scenario.

Definition hitX (h : CaloHit) : N := (Npos h mod 100)%N.

Definition spanN (c : Cluster) : N * N :=
  match elements (GetCaloHitList c) with
  | [] => (0, 0)%N
  | h :: hs => (foldr N.min (hitX h) (hitX <$> hs), foldr N.max (hitX h) (hitX <$> hs))
  end.

Definition onAxis (x : float) : CartesianVector :=
  mkCartesianVector x Float32.zero Float32.zero.

Definition helpers : Helpers := {|
  HitType := N;
  TwoDSlidingFitResult := ClusterPtr * Cluster;
  GetPositionVector h := onAxis (Float32.of_N (hitX h));
  GetClusterSpanX c := (Float32.of_N (spanN c).1, Float32.of_N (spanN c).2);
  GetLengthSquared c :=
    let d := Float32.sub (Float32.of_N (spanN c).2) (Float32.of_N (spanN c).1) in
    Float32.mul d d;
  GetClusterHitType c :=
    match elements (GetCaloHitList c) with
    | [] => 0%N
    | h :: _ => (Npos h / 100)%N
    end;
  SortByNHits a b := (size (GetCaloHitList b) <? size (GetCaloHitList a))%nat;
  LArTwoDSlidingFit entry _ := Ok entry;
  GetCluster fit := fit;
  GetGlobalFitPosition fit x :=
    if Float32.ltb x (Float32.of_N (spanN fit.2).1) then None
    else if Float32.ltb (Float32.of_N (spanN fit.2).2) x then None
    else Some (onAxis x);
  MergeTwoPositions _ _ position1 _ := Some (position1, Float32.zero)
|}.

Definition hitsFrom (first : positive) (count : nat) : CaloHitList :=
  list_to_set (Pos.of_nat <$> seq (Pos.to_nat first) count).

Definition cfg : Settings := ReadSettings "U" "V" "W".

(** Two 10-unit seeds in U and V, two half-length clusters of five hits in
    W. *)
Definition seedU : Cluster := mkCluster true {[ 100%positive; 110%positive ]}.
Definition seedV : Cluster := mkCluster true {[ 200%positive; 210%positive ]}.
Definition fitU : ClusterPtr * Cluster := (1%positive, seedU).
Definition fitV : ClusterPtr * Cluster := (2%positive, seedV).
Definition listW : ClusterList :=
  {[ 3%positive := mkCluster true (hitsFrom 300 5);
     4%positive := mkCluster true (hitsFrom 305 5) ]}.
Definition availableW : ClusterVector :=
  [(3%positive, mkCluster true (hitsFrom 300 5));
   (4%positive, mkCluster true (hitsFrom 305 5))].
Definition store : Pandora :=
  mkPandora {[ "U" := {[ 1%positive := seedU ]};
               "V" := {[ 2%positive := seedV ]};
               "W" := listW ]} "U".

Definition x0 : float := Float32.of_N 0.
Definition x10 : float := Float32.of_N 10.

Definition projected : list CartesianVector :=
  @sampleProjections helpers fitU fitV x0 x10 x0 x10.
Definition associated : CaloHitList * ClusterList :=
  @findAssociated helpers cfg projected availableW.
Definition matched : CaloHitList := @findMatchedHits helpers cfg associated.1.

(** Two short seeds: an overlap of 2 units. *)
Definition shortU : ClusterPtr * Cluster :=
  (1%positive, mkCluster true {[ 100%positive; 102%positive ]}).
Definition shortV : ClusterPtr * Cluster :=
  (2%positive, mkCluster true {[ 200%positive; 202%positive ]}).

(** Association maps for the commit on W: candidate 1 claims 300, 301 and
    305; candidate 2 claims 305 and 306. *)
Definition claimsW : ClusterAssociationMap :=
  {[ 1%N := {[ 300%positive; 301%positive; 305%positive ]};
     2%N := {[ 305%positive; 306%positive ]} ]}.
Definition claimedByW : HitAssociationMap :=
  {[ 300%positive := {[ 1%N ]}; 301%positive := {[ 1%N ]};
     305%positive := {[ 1%N; 2%N ]}; 306%positive := {[ 2%N ]} ]}.

(** Both candidates claim 305 and nothing else. *)
Definition claimsBoth : ClusterAssociationMap :=
  {[ 1%N := {[ 305%positive ]}; 2%N := {[ 305%positive ]} ]}.
Definition claimedByBoth : HitAssociationMap := {[ 305%positive := {[ 1%N; 2%N ]} ]}.

(** A claim on a hit that no cluster of W holds. *)
Definition claimsStray : ClusterAssociationMap := {[ 1%N := {[ 399%positive ]} ]}.
Definition claimedByStray : HitAssociationMap := {[ 399%positive := {[ 1%N ]} ]}.

(** W with its only cluster flagged unavailable. *)
Definition consumed : Cluster := mkCluster false {[ 300%positive ]}.
Definition consumedW : ClusterList := {[ 3%positive := consumed ]}.
Definition storeConsumed : Pandora :=
  mkPandora {[ "U" := {[ 1%positive := seedU ]};
               "V" := {[ 2%positive := seedV ]};
               "W" := consumedW ]} "U".
Definition claimsConsumed : ClusterAssociationMap := {[ 1%N := {[ 300%positive ]} ]}.
Definition claimedByConsumed : HitAssociationMap := {[ 300%positive := {[ 1%N ]} ]}.

End Scenario.

(** Two XML handles for [ReadSettingsFrom]: one with the three list names
    only, one that also has an element [MinMatchedPointFraction]. *)
Module ScenarioXml.

Definition readName (name : string) (t : string) : StatusCode * string :=
  if decide (name = "InputClusterListNameU") then (STATUS_CODE_SUCCESS, "U")
  else if decide (name = "InputClusterListNameV") then (STATUS_CODE_SUCCESS, "V")
  else if decide (name = "InputClusterListNameW") then (STATUS_CODE_SUCCESS, "W")
  else (STATUS_CODE_NOT_FOUND, t).

Definition namesOnly : TiXmlHandle :=
  mkTiXmlHandle readName
                (λ _ t, (STATUS_CODE_NOT_FOUND, t))
                (λ _ t, (STATUS_CODE_NOT_FOUND, t)).

Definition withFraction : TiXmlHandle :=
  mkTiXmlHandle readName
                (λ name t, if decide (name = "MinMatchedPointFraction")
                           then (STATUS_CODE_SUCCESS, Float32.half)
                           else (STATUS_CODE_NOT_FOUND, t))
                (λ _ t, (STATUS_CODE_NOT_FOUND, t)).

Definition unset : Settings :=
  mkSettings "" "" "" Float32.zero 0 Float32.zero Float32.zero Float32.zero Float32.zero
             Float32.zero 0.

End ScenarioXml.

(** Stores for the commit on W: one whose second cluster is flagged
    unavailable, one whose only cluster has no hit. *)
Module ScenarioCommit.

Definition keptBack : Cluster := mkCluster false (Scenario.hitsFrom 305 5).
Definition listMixed : ClusterList :=
  {[ 3%positive := mkCluster true (Scenario.hitsFrom 300 5); 4%positive := keptBack ]}.
Definition storeMixed : Pandora := mkPandora {[ "W" := listMixed ]} "W".

Definition hollow : Cluster := mkCluster true ∅.
Definition storeHollow : Pandora := mkPandora {[ "W" := {[ 3%positive := hollow ]} ]} "W".

(** The scenario's store with a fourth list beside the three views. *)
Definition bystander : ClusterList := {[ 7%positive := hollow ]}.
Definition storeFour : Pandora :=
  mkPandora (<[ "T" := bystander ]> (lists Scenario.store)) "U".

(** The reassignment lists of the commit of [Scenario.claimsW] on W. *)
Definition reassignmentW : Reassignment :=
  match BuildReassignment Scenario.claimedByW Scenario.claimsW
                          (BuildOwnership Scenario.listW).1 with
  | inr r => r
  | inl _ => mkReassignment ∅ ∅ false
  end.

End ScenarioCommit.

(** Inputs for the filters of one pair evaluation: a W cluster longer than
    the seeds, and a W cluster of two hits with settings that ask for two
    matched hits only. *)
Module ScenarioFilters.

Definition wideW : ClusterVector := [(3%positive, mkCluster true (Scenario.hitsFrom 300 16))].

Definition cfgFew : Settings :=
  mkSettings "U" "V" "W" Float32.f_10 15 Float32.f_3 Float32.f_0_8 Float32.f_1_5
             Float32.f_5 Float32.f_0_8 2.
Definition sparseW : ClusterVector := [(3%positive, mkCluster true (Scenario.hitsFrom 300 2))].

End ScenarioFilters.

(** The scenario's geometry with a fit that has no position below x = 2 and
    a merge that resolves no position beyond x = 8. *)
Module ScenarioSampling.

Definition helpersGap : Helpers := {|
  HitType := N;
  TwoDSlidingFitResult := ClusterPtr * Cluster;
  GetPositionVector := @GetPositionVector Scenario.helpers;
  GetClusterSpanX := @GetClusterSpanX Scenario.helpers;
  GetLengthSquared := @GetLengthSquared Scenario.helpers;
  GetClusterHitType := @GetClusterHitType Scenario.helpers;
  SortByNHits := @SortByNHits Scenario.helpers;
  LArTwoDSlidingFit entry _ := Ok entry;
  GetCluster fit := fit;
  GetGlobalFitPosition fit x :=
    if Float32.ltb x (Float32.of_N 2) then None
    else @GetGlobalFitPosition Scenario.helpers fit x;
  MergeTwoPositions _ _ position1 _ :=
    if Float32.ltb (Float32.of_N 8) (GetX position1) then None
    else Some (position1, Float32.zero)
|}.

End ScenarioSampling.

(** A store whose U list holds hit 100 in two available clusters; the seeds
    are in V and W. *)
Module ScenarioRun.

Definition dupListU : ClusterList :=
  {[ 1%positive := mkCluster true (Scenario.hitsFrom 100 5);
     2%positive := mkCluster true (Scenario.hitsFrom 105 5);
     5%positive := mkCluster true {[ 100%positive ]} ]}.
Definition storeDupU : Pandora :=
  mkPandora {[ "U" := dupListU;
               "V" := {[ 3%positive := mkCluster true {[ 200%positive; 210%positive ]} ]};
               "W" := {[ 4%positive := mkCluster true {[ 300%positive; 310%positive ]} ]} ]}
            "U".

(** Candidate 1 claims the ten hits 100..109, each of them claimed by no
    other candidate. *)
Definition dupClaims : ClusterAssociationMap := {[ 1%N := Scenario.hitsFrom 100 10 ]}.
Definition dupClaimedBy : HitAssociationMap :=
  gset_to_gmap {[ 1%N ]} (Scenario.hitsFrom 100 10).

(** A store without the U list, whose W list holds one unavailable cluster. *)
Definition storeNoU : Pandora :=
  mkPandora {[ "V" := {[ 2%positive := Scenario.seedV ]}; "W" := Scenario.consumedW ]} "V".

End ScenarioRun.

(* ==== THEOREMS ==== *)

(** ** Multimaps *)

Section Multimap.
Context `{Countable K} `{Countable V}.
Implicit Types (m : gmap K (gset V)) (k : K) (v : V).

Lemma mm_get_empty k : mm_get (∅ : gmap K (gset V)) k = ∅.
Proof. unfold mm_get. by rewrite lookup_empty. Qed.

Lemma mm_get_insert m k v k' :
  mm_get (mm_insert k v m) k' = if decide (k = k') then {[v]} ∪ mm_get m k else mm_get m k'.
Proof.
  unfold mm_insert, mm_get at 1. case_decide as Hk.
  - subst. by rewrite lookup_insert_eq.
  - by rewrite lookup_insert_ne.
Qed.

Lemma elem_of_mm_get_insert m k v k' v' :
  v' ∈ mm_get (mm_insert k v m) k' ↔ v' ∈ mm_get m k' ∨ (k' = k ∧ v' = v).
Proof. rewrite mm_get_insert. case_decide; set_solver. Qed.

Lemma elem_of_mm_get m k v : v ∈ mm_get m k ↔ ∃ S, m !! k = Some S ∧ v ∈ S.
Proof.
  unfold mm_get. destruct (m !! k) as [S|]; simpl.
  - split; [eauto | by intros (? & [= <-] & ?)].
  - split; [set_solver | by intros (? & ? & ?)].
Qed.

Lemma mm_get_lookup m k S : m !! k = Some S → mm_get m k = S.
Proof. unfold mm_get. by intros ->. Qed.

(** Every stored set is inhabited: true of maps filled by [mm_insert]. *)
Definition mm_inhabited m : Prop := ∀ k S, m !! k = Some S → S ≠ ∅.

Lemma mm_inhabited_empty : mm_inhabited (∅ : gmap K (gset V)).
Proof. intros k S. by rewrite lookup_empty. Qed.

Lemma mm_inhabited_insert m k v : mm_inhabited m → mm_inhabited (mm_insert k v m).
Proof.
  intros Hm k' S. unfold mm_insert. destruct (decide (k = k')) as [->|Hne].
  - rewrite lookup_insert_eq. intros [= <-]. set_solver.
  - rewrite lookup_insert_ne by done. apply Hm.
Qed.

End Multimap.

(** A set of at most one element is empty or the singleton of the head of
    its [elements]. *)
Lemma elements_head_singleton `{Countable A} (X : gset A) (x : A) (l : list A) :
  ¬ 1 < size X → elements X = x :: l → X = {[x]}.
Proof.
  intros Hsz He. assert (l = []) as ->.
  { unfold size, set_size in Hsz. simpl in Hsz. rewrite He in Hsz. destruct l; simpl in *; [done | lia]. }
  apply set_eq. intros y. rewrite <- elem_of_elements, He. set_solver.
Qed.

(** ** [BuildOwnership]: the two maps are the membership relation of the
    available clusters *)

Definition owns (l : ClusterList) (pCluster : ClusterPtr) (pCaloHit : CaloHit) : Prop :=
  ∃ c, l !! pCluster = Some c ∧ IsAvailable c = true ∧ pCaloHit ∈ GetCaloHitList c.

Lemma record_owner_fold p hs acc :
  let acc' := foldl (record_owner p) acc hs in
  (∀ h q, q ∈ mm_get acc'.1 h ↔ q ∈ mm_get acc.1 h ∨ (q = p ∧ h ∈ hs)) ∧
  (∀ q h, h ∈ mm_get acc'.2 q ↔ h ∈ mm_get acc.2 q ∨ (q = p ∧ h ∈ hs)).
Proof.
  revert acc. induction hs as [|h0 hs IH]; intros acc; simpl.
  - split; intros; set_solver.
  - destruct (IH (record_owner p acc h0)) as [IH1 IH2]. split.
    + intros h q. rewrite IH1. simpl. rewrite elem_of_mm_get_insert. set_solver.
    + intros q h. rewrite IH2. simpl. rewrite elem_of_mm_get_insert. set_solver.
Qed.

Lemma record_cluster_fold es acc :
  let acc' := foldl record_cluster acc es in
  (∀ h q, q ∈ mm_get acc'.1 h ↔
          q ∈ mm_get acc.1 h ∨
          ∃ c, (q, c) ∈ es ∧ IsAvailable c = true ∧ h ∈ GetCaloHitList c) ∧
  (∀ q h, h ∈ mm_get acc'.2 q ↔
          h ∈ mm_get acc.2 q ∨
          ∃ c, (q, c) ∈ es ∧ IsAvailable c = true ∧ h ∈ GetCaloHitList c).
Proof.
  revert acc. induction es as [|[p c] es IH]; intros acc; simpl.
  - split; intros; set_solver.
  - destruct (IH (record_cluster acc (p, c))) as [IH1 IH2].
    unfold record_cluster in *. simpl in *.
    destruct (IsAvailable c) eqn:Hav; simpl in *.
    + destruct (record_owner_fold p (elements (GetCaloHitList c)) acc) as [F1 F2].
      split.
      * intros h q. rewrite IH1, F1. setoid_rewrite elem_of_cons.
        rewrite elem_of_elements. split.
        -- intros [[?|[-> ?]]|(c' & ? & ? & ?)]; eauto 10.
        -- intros [?|(c' & [[= -> ->]|?] & ? & ?)]; eauto 10.
      * intros q h. rewrite IH2, F2. setoid_rewrite elem_of_cons.
        rewrite elem_of_elements. split.
        -- intros [[?|[-> ?]]|(c' & ? & ? & ?)]; eauto 10.
        -- intros [?|(c' & [[= -> ->]|?] & ? & ?)]; eauto 10.
    + split.
      * intros h q. rewrite IH1. setoid_rewrite elem_of_cons. split.
        -- intros [?|(c' & ? & ? & ?)]; eauto 10.
        -- intros [?|(c' & [[= -> ->]|?] & ? & ?)]; [eauto | congruence | eauto 10].
      * intros q h. rewrite IH2. setoid_rewrite elem_of_cons. split.
        -- intros [?|(c' & ? & ? & ?)]; eauto 10.
        -- intros [?|(c' & [[= -> ->]|?] & ? & ?)]; [eauto | congruence | eauto 10].
Qed.

Lemma BuildOwnership_spec (l : ClusterList) :
  (∀ h p, p ∈ mm_get (BuildOwnership l).1 h ↔ owns l p h) ∧
  (∀ p h, h ∈ mm_get (BuildOwnership l).2 p ↔ owns l p h).
Proof.
  destruct (record_cluster_fold (map_to_list l) (∅, ∅)) as [F1 F2].
  unfold BuildOwnership, owns. split.
  - intros h p. rewrite F1. simpl. rewrite mm_get_empty.
    setoid_rewrite elem_of_map_to_list. set_solver.
  - intros p h. rewrite F2. simpl. rewrite mm_get_empty.
    setoid_rewrite elem_of_map_to_list. set_solver.
Qed.

(** ** [BuildReassignment] *)

Section Reassign.
Context (hitAssociationMap : HitAssociationMap) (hitsToClusters : HitToClusterMap).

(** A claimed hit goes to commit when at most one candidate claims it. *)
Definition committable (pCaloHit : CaloHit) : Prop :=
  ¬ 1 < size (mm_get hitAssociationMap pCaloHit).

(** Its owner is resolved when the hit-to-cluster map gives one cluster. *)
Definition resolved (pCaloHit : CaloHit) : Prop :=
  ∃ p, mm_get hitsToClusters pCaloHit = {[p]}.

Lemma claim_step_cases id acc h :
  (¬ committable h ∧ claim_step hitAssociationMap hitsToClusters id acc h = inr acc) ∨
  (committable h ∧ ¬ resolved h ∧
   claim_step hitAssociationMap hitsToClusters id acc h = inl STATUS_CODE_FAILURE) ∨
  (committable h ∧ ∃ p, mm_get hitsToClusters h = {[p]} ∧
   claim_step hitAssociationMap hitsToClusters id acc h =
     inr (mkReassignment (mm_insert p h (clustersToModify acc))
                         (mm_insert id h (clustersToCreate acc)) true)).
Proof.
  unfold claim_step, committable, resolved.
  destruct (decide (1 < size (mm_get hitAssociationMap h))) as [Ha|Ha].
  { left. split; [tauto | done]. }
  right. destruct (decide (1 < size (mm_get hitsToClusters h))) as [Hb|Hb].
  { left. repeat split; try done. intros [p Hp]. rewrite Hp, size_singleton in Hb. lia. }
  destruct (elements (mm_get hitsToClusters h)) as [|p rest] eqn:He.
  - left. repeat split; try done. intros [p Hp]. rewrite Hp, elements_singleton in He. done.
  - right. split; [done|]. exists p. split; [|done]. by eapply elements_head_singleton.
Qed.

Lemma claim_fold id hs acc :
  match for_each (claim_step hitAssociationMap hitsToClusters id) hs acc with
  | inl st => st = STATUS_CODE_FAILURE ∧ ∃ h, h ∈ hs ∧ committable h ∧ ¬ resolved h
  | inr acc' =>
      (∀ h, h ∈ hs → committable h → resolved h) ∧
      (∀ p h, h ∈ mm_get (clustersToModify acc') p ↔
              h ∈ mm_get (clustersToModify acc) p ∨
              (h ∈ hs ∧ committable h ∧ mm_get hitsToClusters h = {[p]})) ∧
      (∀ id' h, h ∈ mm_get (clustersToCreate acc') id' ↔
                h ∈ mm_get (clustersToCreate acc) id' ∨
                (id' = id ∧ h ∈ hs ∧ committable h)) ∧
      (foundNewClusters acc' = true ↔
         foundNewClusters acc = true ∨ ∃ h, h ∈ hs ∧ committable h) ∧
      (mm_inhabited (clustersToModify acc) → mm_inhabited (clustersToModify acc')) ∧
      (mm_inhabited (clustersToCreate acc) → mm_inhabited (clustersToCreate acc'))
  end.
Proof.
  revert acc. induction hs as [|h0 hs IH]; intros acc; simpl.
  { repeat split; try tauto; try set_solver. }
  destruct (claim_step_cases id acc h0) as [[Hn ->]|[(Hc & Hr & ->)|(Hc & p0 & Hp0 & ->)]].
  - specialize (IH acc). destruct (for_each _ hs acc) as [st|acc'].
    + destruct IH as (-> & h & ? & ? & ?). split; [done|]. exists h. set_solver.
    + destruct IH as (I1 & I2 & I3 & I4 & I5 & I6). repeat split; try done.
      * intros h [->|?]%elem_of_cons ?; [done | eauto].
      * rewrite I2. set_solver.
      * rewrite I2. intros [?|(Hin & ? & ?)]; [by left|].
        apply elem_of_cons in Hin as [->|?]; [done | right; done].
      * rewrite I3. set_solver.
      * rewrite I3. intros [?|(? & Hin & ?)]; [by left|].
        apply elem_of_cons in Hin as [->|?]; [done | right; done].
      * rewrite I4. set_solver.
      * rewrite I4. intros [?|(h & Hin & ?)]; [by left|].
        apply elem_of_cons in Hin as [->|?]; [done | right; eauto].
  - split; [done|]. exists h0. set_solver.
  - match goal with |- context [for_each _ hs ?a] => specialize (IH a) end.
    destruct (for_each _ hs _) as [st|acc'].
    + destruct IH as (-> & h & ? & ? & ?). split; [done|]. exists h. set_solver.
    + destruct IH as (I1 & I2 & I3 & I4 & I5 & I6). simpl in *. repeat split.
      * intros h [->|?]%elem_of_cons ?; [by exists p0 | eauto].
      * rewrite I2, elem_of_mm_get_insert. intros [[?|[-> ->]]|(? & ? & ?)].
        -- by left.
        -- right. set_solver.
        -- right. set_solver.
      * rewrite I2, elem_of_mm_get_insert. intros [?|(Hin & ? & Hp)]; [by left; left|].
        apply elem_of_cons in Hin as [->|?]; [|by right].
        left. right. rewrite Hp0 in Hp. split; [|done].
        apply (inj singleton) in Hp. done.
      * rewrite I3, elem_of_mm_get_insert. intros [[?|[-> ->]]|(? & ? & ?)].
        -- by left.
        -- right. set_solver.
        -- right. set_solver.
      * rewrite I3, elem_of_mm_get_insert. intros [?|(-> & Hin & ?)]; [by left; left|].
        apply elem_of_cons in Hin as [->|?]; [by left; right | by right].
      * intros _. right. exists h0. set_solver.
      * intros _. apply I4. by left.
      * intros Hm. apply I5. by apply mm_inhabited_insert.
      * intros Hm. apply I6. by apply mm_inhabited_insert.
Qed.

End Reassign.

Section ReassignAll.
Context (hitAssociationMap : HitAssociationMap) (hitsToClusters : HitToClusterMap).

Local Abbreviation committable' := (committable hitAssociationMap).
Local Abbreviation resolved' := (resolved hitsToClusters).

Lemma candidate_fold (es : list (N * CaloHitList)) acc :
  match for_each (candidate_step hitAssociationMap hitsToClusters) es acc with
  | inl st =>
      st = STATUS_CODE_FAILURE ∧
      ∃ id hs h, (id, hs) ∈ es ∧ h ∈ hs ∧ committable' h ∧ ¬ resolved' h
  | inr acc' =>
      (∀ id hs h, (id, hs) ∈ es → h ∈ hs → committable' h → resolved' h) ∧
      (∀ p h, h ∈ mm_get (clustersToModify acc') p ↔
              h ∈ mm_get (clustersToModify acc) p ∨
              (∃ id hs, (id, hs) ∈ es ∧ h ∈ hs ∧ committable' h ∧
                        mm_get hitsToClusters h = {[p]})) ∧
      (∀ id h, h ∈ mm_get (clustersToCreate acc') id ↔
               h ∈ mm_get (clustersToCreate acc) id ∨
               (∃ hs, (id, hs) ∈ es ∧ h ∈ hs ∧ committable' h)) ∧
      (foundNewClusters acc' = true ↔
         foundNewClusters acc = true ∨
         ∃ id hs h, (id, hs) ∈ es ∧ h ∈ hs ∧ committable' h) ∧
      (mm_inhabited (clustersToModify acc) → mm_inhabited (clustersToModify acc')) ∧
      (mm_inhabited (clustersToCreate acc) → mm_inhabited (clustersToCreate acc'))
  end.
Proof.
  revert acc. induction es as [|[id0 hs0] es IH]; intros acc; simpl.
  { repeat split; try tauto; try set_solver. }
  unfold candidate_step at 1. simpl.
  pose proof (claim_fold hitAssociationMap hitsToClusters id0 (elements hs0) acc) as Hc.
  destruct (for_each (claim_step _ _ id0) (elements hs0) acc) as [st|acc1].
  { destruct Hc as (-> & h & Hin & ? & ?). split; [done|].
    exists id0, hs0, h. rewrite elem_of_elements in Hin. set_solver. }
  destruct Hc as (C1 & C2 & C3 & C4 & C5 & C6).
  specialize (IH acc1). destruct (for_each _ es acc1) as [st|acc'].
  { destruct IH as (-> & id & hs & h & ? & ? & ? & ?). split; [done|].
    exists id, hs, h. set_solver. }
  destruct IH as (I1 & I2 & I3 & I4 & I5 & I6).
  setoid_rewrite elem_of_elements in C1. setoid_rewrite elem_of_elements in C2.
  setoid_rewrite elem_of_elements in C3. setoid_rewrite elem_of_elements in C4.
  repeat split.
  - intros id hs h [[= -> ->]|?]%elem_of_cons ? ?; eauto.
  - rewrite I2, C2. intros [[?|(? & ? & ?)]|(id & hs & ? & ? & ? & ?)].
    + by left.
    + right. exists id0, hs0. set_solver.
    + right. exists id, hs. set_solver.
  - rewrite I2, C2. intros [?|(id & hs & Hin & ? & ? & ?)]; [by left; left|].
    apply elem_of_cons in Hin as [[= -> ->]|?]; [by left; right|].
    right. exists id, hs. done.
  - rewrite I3, C3. intros [[?|(-> & ? & ?)]|(hs & ? & ? & ?)].
    + by left.
    + right. exists hs0. set_solver.
    + right. exists hs. set_solver.
  - rewrite I3, C3. intros [?|(hs & Hin & ? & ?)]; [by left; left|].
    apply elem_of_cons in Hin as [[= -> ->]|?]; [by left; right|].
    right. exists hs. done.
  - rewrite I4, C4. intros [[?|(h & ? & ?)]|(id & hs & h & ? & ? & ?)].
    + by left.
    + right. exists id0, hs0, h. set_solver.
    + right. exists id, hs, h. set_solver.
  - rewrite I4, C4. intros [?|(id & hs & h & Hin & ? & ?)]; [by left; left|].
    apply elem_of_cons in Hin as [[= -> ->]|?]; [left; right; eauto|].
    right. exists id, hs, h. done.
  - intros ?. apply I5, C5. done.
  - intros ?. apply I6, C6. done.
Qed.

(** A hit is claimed by a candidate when the cluster-association map lists it
    under the candidate's identifier. *)
Definition claims (clusterAssociationMap : ClusterAssociationMap)
    (clusterID : N) (pCaloHit : CaloHit) : Prop :=
  ∃ hs, clusterAssociationMap !! clusterID = Some hs ∧ pCaloHit ∈ hs.

Lemma BuildReassignment_spec (clusterAssociationMap : ClusterAssociationMap) :
  match BuildReassignment hitAssociationMap clusterAssociationMap hitsToClusters with
  | inl st =>
      st = STATUS_CODE_FAILURE ∧
      ∃ id h, claims clusterAssociationMap id h ∧ committable' h ∧ ¬ resolved' h
  | inr r =>
      (∀ id h, claims clusterAssociationMap id h → committable' h → resolved' h) ∧
      (∀ p h, h ∈ mm_get (clustersToModify r) p ↔
              ∃ id, claims clusterAssociationMap id h ∧ committable' h ∧
                    mm_get hitsToClusters h = {[p]}) ∧
      (∀ id h, h ∈ mm_get (clustersToCreate r) id ↔
               claims clusterAssociationMap id h ∧ committable' h) ∧
      (foundNewClusters r = true ↔
         ∃ id h, claims clusterAssociationMap id h ∧ committable' h) ∧
      mm_inhabited (clustersToModify r) ∧
      mm_inhabited (clustersToCreate r)
  end.
Proof.
  unfold BuildReassignment, claims.
  pose proof (candidate_fold (map_to_list clusterAssociationMap)
                             (mkReassignment ∅ ∅ false)) as Hc.
  destruct (for_each _ _ _) as [st|r].
  { destruct Hc as (-> & id & hs & h & Hin & ? & ? & ?). split; [done|].
    exists id, h. apply elem_of_map_to_list in Hin. eauto. }
  destruct Hc as (C1 & C2 & C3 & C4 & C5 & C6). simpl in *.
  setoid_rewrite elem_of_map_to_list in C1. setoid_rewrite elem_of_map_to_list in C2.
  setoid_rewrite elem_of_map_to_list in C3. setoid_rewrite elem_of_map_to_list in C4.
  repeat split.
  - intros id h (hs & ? & ?) ?. eauto.
  - rewrite C2, mm_get_empty. intros [?|(id & hs & ? & ? & ? & ?)]; [set_solver|].
    exists id. eauto 10.
  - rewrite C2. intros (id & (hs & ? & ?) & ? & ?). right. exists id, hs. done.
  - apply C3 in H as [?|(hs & ? & ? & ?)]; [by rewrite mm_get_empty in *|eauto].
  - apply C3 in H as [?|(hs & ? & ? & ?)]; [by rewrite mm_get_empty in *|eauto].
  - rewrite C3. intros [(hs & ? & ?) ?]. right. exists hs. done.
  - rewrite C4. intros [?|(id & hs & h & ? & ? & ?)]; [done|]. exists id, h. eauto.
  - rewrite C4. intros (id & h & (hs & ? & ?) & ?). right. exists id, hs, h. done.
  - apply C5, mm_inhabited_empty.
  - apply C6, mm_inhabited_empty.
Qed.

End ReassignAll.

(** ** Sums over the values of a finite map *)

Section MapSum.
Context `{Countable K} {A : Type} (f : A → nat).
Implicit Types (m : gmap K A).

Definition map_sum m : nat := sum_list_with f (map_to_list m).*2.

Lemma map_sum_empty : map_sum ∅ = 0.
Proof. unfold map_sum. by rewrite map_to_list_empty. Qed.

Lemma map_sum_insert m i x : m !! i = None → map_sum (<[i:=x]> m) = f x + map_sum m.
Proof. intros Hi. unfold map_sum. by rewrite (map_to_list_insert m i x Hi). Qed.

Lemma map_sum_delete m i x : m !! i = Some x → f x + map_sum (delete i m) = map_sum m.
Proof. intros Hi. unfold map_sum. by rewrite <- (map_to_list_delete m i x Hi). Qed.

Lemma map_sum_replace m i x y :
  m !! i = Some x → map_sum (<[i:=y]> m) + f x = map_sum m + f y.
Proof.
  intros Hi. rewrite <- (map_sum_delete m i x Hi), <- insert_delete_eq.
  rewrite map_sum_insert by apply lookup_delete_eq. lia.
Qed.

Lemma map_sum_union m1 m2 : m1 ##ₘ m2 → map_sum (m1 ∪ m2) = map_sum m1 + map_sum m2.
Proof.
  induction m1 as [|i x m1 Hi IH] using map_ind; intros Hd.
  - by rewrite (left_id_L ∅ (∪)), map_sum_empty.
  - apply map_disjoint_insert_l in Hd as [Hi2 Hd].
    rewrite <- insert_union_l, !map_sum_insert, IH; [lia | done | done |].
    by apply lookup_union_None.
Qed.

End MapSum.

Lemma totalHits_map_sum l : totalHits l = map_sum (λ c, size (GetCaloHitList c)) l.
Proof. done. Qed.

(** The indicator of a hit in a cluster. *)
Definition holds (pCaloHit : CaloHit) (c : Cluster) : nat :=
  if decide (pCaloHit ∈ GetCaloHitList c) then 1 else 0.

Lemma ownerCount_map_sum h l : ownerCount h l = map_sum (holds h) l.
Proof.
  unfold ownerCount, map_sum, clustersOf, holds.
  induction ((map_to_list l).*2) as [|c cs IH]; [done|].
  rewrite filter_cons. simpl. case_decide; simpl; lia.
Qed.

(** ** [RemoveHits] *)

Lemma keep_fold (R : CaloHitList) (hs : list CaloHit) (acc : CaloHitList) :
  foldl (λ keep h, if decide (h ∈ R) then keep else {[h]} ∪ keep) acc hs
  = acc ∪ (list_to_set hs ∖ R).
Proof.
  revert acc. induction hs as [|h hs IH]; intros acc; simpl.
  - set_solver.
  - rewrite IH. case_decide; set_solver.
Qed.

Lemma size_two_elems `{Countable A} (X : gset A) (h k : A) :
  h ∈ X → k ∈ X → h ≠ k → ¬ size X ≤ 1.
Proof.
  intros Hh Hk Hne Hsz.
  destruct (decide (size X = 0)) as [H0|H0].
  - apply size_empty_inv in H0. set_solver.
  - assert (size X = 1) as H1 by lia.
    by apply (size_singleton_inv X h k) in H1.
Qed.

Lemma cluster_eta (c : Cluster) : mkCluster (IsAvailable c) (GetCaloHitList c) = c.
Proof. by destruct c. Qed.

Lemma RemoveFromCluster_all (p : ClusterPtr) (hs : list CaloHit) :
  ∀ (L : gmap string ClusterList) (cur : string) (l : ClusterList) (c : Cluster),
    NoDup hs → L !! cur = Some l → l !! p = Some c →
    (∀ h, h ∈ hs → h ∈ GetCaloHitList c) →
    (∃ k, k ∈ GetCaloHitList c ∧ k ∉ hs) →
    for_each_api (PandoraContentApi.RemoveFromCluster p) hs (mkPandora L cur)
    = (Ok tt, mkPandora (<[cur := <[p := mkCluster (IsAvailable c)
                                          (GetCaloHitList c ∖ list_to_set hs)]> l]> L) cur).
Proof.
  induction hs as [|h hs IH]; intros L cur l c Hnd HL Hl Hin [k [Hk Hkn]]; simpl.
  - unfold ret. rewrite difference_empty_L, cluster_eta.
    by rewrite (insert_id l p c Hl), (insert_id L cur l HL).
  - apply NoDup_cons in Hnd as [Hh Hnd].
    unfold bind, PandoraContentApi.RemoveFromCluster at 1. simpl. rewrite HL, Hl.
    rewrite decide_True by (apply Hin; set_solver).
    rewrite decide_False
      by (apply (size_two_elems _ h k); [apply Hin| |]; set_solver).
    set (c1 := mkCluster (IsAvailable c) (GetCaloHitList c ∖ {[h]})).
    rewrite (IH (<[cur := <[p := c1]> l]> L) cur (<[p := c1]> l) c1 Hnd).
    + simpl. rewrite !insert_insert_eq.
      by replace (GetCaloHitList c ∖ {[h]} ∖ list_to_set hs)
        with (GetCaloHitList c ∖ ({[h]} ∪ list_to_set hs)) by set_solver.
    + apply lookup_insert_eq.
    + apply lookup_insert_eq.
    + simpl. intros h' Hh'. apply elem_of_difference. split; [apply Hin|]; set_solver.
    + simpl. exists k. set_solver.
Qed.

(** What one [remove_step] does to the current list. *)
Definition removeFrom (l : ClusterList) (p : ClusterPtr) (c : Cluster) (R : CaloHitList) :
    ClusterList :=
  if decide (GetCaloHitList c ⊆ R) then delete p l
  else <[p := mkCluster (IsAvailable c) (GetCaloHitList c ∖ R)]> l.

Lemma remove_step_spec (clustersToHits : ClusterToHitMap)
    (L : gmap string ClusterList) (cur : string) (l : ClusterList)
    (p : ClusterPtr) (R : CaloHitList) (c : Cluster) :
  L !! cur = Some l → l !! p = Some c →
  clustersToHits !! p = Some (GetCaloHitList c) → R ⊆ GetCaloHitList c →
  remove_step clustersToHits (p, R) (mkPandora L cur)
  = (Ok tt, mkPandora (<[cur := removeFrom l p c R]> L) cur).
Proof.
  intros HL Hl Hc HR. unfold remove_step, removeFrom. simpl. rewrite Hc.
  rewrite keep_fold, list_to_set_elements_L, (left_id_L ∅ (∪)).
  destruct (decide (GetCaloHitList c ∖ R = ∅)) as [He|He].
  - rewrite decide_True by set_solver.
    unfold PandoraContentApi.Delete. simpl. by rewrite HL, Hl.
  - assert (∃ k, k ∈ GetCaloHitList c ∧ k ∉ R) as [k [Hk1 Hk2]].
    { apply set_choose_L in He as [k Hk]. exists k. set_solver. }
    rewrite decide_False by set_solver.
    erewrite RemoveFromCluster_all; eauto.
    + by rewrite list_to_set_elements_L.
    + apply NoDup_elements.
    + intros h. rewrite elem_of_elements. set_solver.
    + exists k. rewrite elem_of_elements. done.
Qed.

(** A measure [f] on clusters and [g] on hit sets such that taking hits [R]
    out of a cluster lowers [f] by [g R]. *)
Definition additive (f : Cluster → nat) (g : CaloHitList → nat) : Prop :=
  (∀ a, f (mkCluster a ∅) = 0) ∧
  (∀ a X R, R ⊆ X → f (mkCluster a (X ∖ R)) + g R = f (mkCluster a X)).

Lemma additive_size :
  additive (λ c, size (GetCaloHitList c)) (λ R : CaloHitList, size R).
Proof.
  split; [intros a; apply size_empty|].
  intros a X R HR. cbn [GetCaloHitList]. rewrite size_difference by done.
  apply subseteq_size in HR. lia.
Qed.

Lemma additive_holds h : additive (holds h) (λ R, if decide (h ∈ R) then 1 else 0).
Proof.
  unfold holds. split; simpl.
  - intros _. rewrite decide_False; set_solver.
  - intros _ X R HR. repeat case_decide; set_solver.
Qed.

Lemma removeFrom_sum f g l p c R :
  additive f g → l !! p = Some c → R ⊆ GetCaloHitList c →
  map_sum f (removeFrom l p c R) + g R = map_sum f l.
Proof.
  intros [Hf0 Hfg] Hl HR. unfold removeFrom. case_decide as Hs.
  - assert (R = GetCaloHitList c) as -> by set_solver.
    rewrite <- (map_sum_delete f l p c Hl).
    specialize (Hfg (IsAvailable c) (GetCaloHitList c) (GetCaloHitList c)).
    rewrite difference_diag_L, Hf0, cluster_eta in Hfg. specialize (Hfg ltac:(done)). lia.
  - pose proof (map_sum_replace f l p c
                  (mkCluster (IsAvailable c) (GetCaloHitList c ∖ R)) Hl) as Hr.
    specialize (Hfg (IsAvailable c) (GetCaloHitList c) R HR).
    rewrite cluster_eta in Hfg. lia.
Qed.

Lemma removeFrom_lookup_ne l p c R q : q ≠ p → removeFrom l p c R !! q = l !! q.
Proof.
  intros Hq. unfold removeFrom. case_decide.
  - by rewrite lookup_delete_ne.
  - by rewrite lookup_insert_ne.
Qed.

Lemma removeFrom_lookup l p c R :
  removeFrom l p c R !! p =
    if decide (GetCaloHitList c ⊆ R) then None
    else Some (mkCluster (IsAvailable c) (GetCaloHitList c ∖ R)).
Proof.
  unfold removeFrom. case_decide.
  - by rewrite lookup_delete_eq.
  - by rewrite lookup_insert_eq.
Qed.

Lemma RemoveHits_fold (clustersToHits : ClusterToHitMap)
    (es : list (ClusterPtr * CaloHitList)) :
  ∀ (L : gmap string ClusterList) (cur : string) (l : ClusterList),
    NoDup es.*1 → L !! cur = Some l →
    (∀ p R, (p, R) ∈ es →
       ∃ c, l !! p = Some c ∧ clustersToHits !! p = Some (GetCaloHitList c) ∧
            R ⊆ GetCaloHitList c) →
    ∃ l', for_each_api (remove_step clustersToHits) es (mkPandora L cur)
          = (Ok tt, mkPandora (<[cur := l']> L) cur) ∧
      (∀ q, q ∉ es.*1 → l' !! q = l !! q) ∧
      (∀ p R c, (p, R) ∈ es → l !! p = Some c →
         l' !! p = if decide (GetCaloHitList c ⊆ R) then None
                   else Some (mkCluster (IsAvailable c) (GetCaloHitList c ∖ R))) ∧
      (∀ f g, additive f g → map_sum f l' + sum_list_with g es.*2 = map_sum f l).
Proof.
  induction es as [|[p R] es IH]; intros L cur l Hnd HL Hpre.
  - exists l. simpl. unfold ret. rewrite (insert_id L cur l HL).
    split; [done|]. split; [done|]. split.
    + intros p R c Hin. by apply elem_of_nil in Hin.
    + intros f g _. lia.
  - simpl in Hnd. apply NoDup_cons in Hnd as [Hp Hnd].
    destruct (Hpre p R ltac:(set_solver)) as (c & Hl & Hc & HR).
    destruct (IH (<[cur := removeFrom l p c R]> L) cur (removeFrom l p c R) Hnd)
      as (l' & Hrun & Hout & Hin & Hsum).
    { apply lookup_insert_eq. }
    { intros p' R' Hin'. destruct (Hpre p' R' ltac:(set_solver)) as (c' & ? & ? & ?).
      exists c'. rewrite removeFrom_lookup_ne; [done|].
      intros ->. apply Hp. apply list_elem_of_fmap. by exists (p, R'). }
    exists l'. split; [|split; [|split]].
    + simpl. unfold bind. rewrite (remove_step_spec _ L cur l p R c) by done.
      rewrite Hrun. by rewrite insert_insert_eq.
    + intros q Hq. simpl in Hq. apply not_elem_of_cons in Hq as [Hq1 Hq2].
      rewrite Hout by done. by apply removeFrom_lookup_ne.
    + intros p0 R0 c0 [[= -> ->]|Hin0]%elem_of_cons Hl0.
      * assert (c0 = c) as -> by congruence.
        rewrite Hout by done. apply removeFrom_lookup.
      * assert (p0 ≠ p).
        { intros ->. apply Hp. apply list_elem_of_fmap. by exists (p, R0). }
        apply Hin; [done|]. by rewrite removeFrom_lookup_ne.
    + intros f g Hfg. rewrite fmap_cons. cbn [sum_list_with snd].
      rewrite <- (removeFrom_sum f g l p c R) by done.
      specialize (Hsum f g Hfg). lia.
Qed.

(** ** [CreateClusters] *)

Lemma elem_of_allClusters (s : Pandora) (q : ClusterPtr) :
  q ∈ PandoraContentApi.allClusters s ↔ ∃ n l, lists s !! n = Some l ∧ q ∈ dom l.
Proof.
  unfold PandoraContentApi.allClusters. rewrite elem_of_union_list. split.
  - intros (X & HX & Hq). apply list_elem_of_fmap in HX as (l & -> & Hl).
    apply list_elem_of_fmap in Hl as ([n l'] & -> & Hnl).
    apply elem_of_map_to_list in Hnl. by exists n, l'.
  - intros (n & l & Hl & Hq). exists (dom l). split; [|done].
    apply list_elem_of_fmap. exists l. split; [done|].
    apply list_elem_of_fmap. exists (n, l). split; [done|].
    by apply elem_of_map_to_list.
Qed.

Lemma fresh_cluster_unused (s : Pandora) (n : string) (l : ClusterList) :
  lists s !! n = Some l → l !! fresh (PandoraContentApi.allClusters s) = None.
Proof.
  intros Hl. apply not_elem_of_dom. intros Hq.
  apply (is_fresh (PandoraContentApi.allClusters s)).
  apply elem_of_allClusters. eauto.
Qed.

Lemma CreateClusters_fold (es : list (N * CaloHitList)) :
  ∀ (L : gmap string ClusterList) (cur : string) (T : ClusterList),
    L !! cur = Some T → (∀ id S, (id, S) ∈ es → S ≠ ∅) →
    ∃ T', for_each_api create_step es (mkPandora L cur)
          = (Ok tt, mkPandora (<[cur := T']> L) cur) ∧
      (∀ n l q, n ≠ cur → L !! n = Some l → q ∈ dom T' → q ∈ dom T ∨ q ∉ dom l) ∧
      (∀ f, map_sum f T' = map_sum f T + sum_list_with (λ S, f (mkCluster true S)) es.*2) ∧
      (∀ q c, T' !! q = Some c →
         T !! q = Some c ∨ ∃ id S, (id, S) ∈ es ∧ c = mkCluster true S) ∧
      (∀ id S, (id, S) ∈ es → ∃ q, T' !! q = Some (mkCluster true S) ∧ T !! q = None) ∧
      (∀ q c, T !! q = Some c → T' !! q = Some c).
Proof.
  induction es as [|[id S] es IH]; intros L cur T HL Hne.
  - exists T. cbn [for_each_api]. unfold ret. rewrite (insert_id L cur T HL).
    split; [done|]. split; [by left|].
    split; [intros f; rewrite fmap_nil; cbn [sum_list_with]; lia|].
    split; [by left|]. split; [|done].
    intros id S Hin. by apply elem_of_nil in Hin.
  - set (s0 := mkPandora L cur).
    set (q0 := fresh (PandoraContentApi.allClusters s0)).
    set (T1 := <[q0 := mkCluster true S]> T).
    assert (T !! q0 = None) as Hq0 by (apply (fresh_cluster_unused s0 cur); done).
    destruct (IH (<[cur := T1]> L) cur T1) as (T' & Hrun & Hother & Hsum & Hinv & Hnew & Hold).
    { apply lookup_insert_eq. }
    { intros id' S' Hin. apply (Hne id' S'). set_solver. }
    exists T'. split; [|split; [|split; [|split; [|split]]]].
    + simpl. unfold bind, create_step at 1. simpl.
      rewrite decide_False by (apply (Hne id S); set_solver).
      unfold bind, PandoraContentApi.Create. simpl. rewrite HL.
      rewrite decide_False by (apply (Hne id S); set_solver).
      fold s0 q0 T1. unfold ret. rewrite Hrun. by rewrite insert_insert_eq.
    + intros n l q Hn Hl Hq.
      destruct (Hother n l q Hn) as [Hq1|Hq1]; [by rewrite lookup_insert_ne | done | | by right].
      unfold T1 in Hq1. rewrite dom_insert_L in Hq1.
      apply elem_of_union in Hq1 as [->%elem_of_singleton|?]; [|by left].
      right. apply not_elem_of_dom. by apply (fresh_cluster_unused s0 n).
    + intros f. rewrite Hsum. unfold T1. rewrite map_sum_insert by done.
      rewrite fmap_cons. cbn [sum_list_with snd]. lia.
    + intros q c Hq. destruct (Hinv q c Hq) as [Hq1|(id' & S' & ? & ?)].
      * unfold T1 in Hq1. destruct (decide (q = q0)) as [->|Hqq].
        -- rewrite lookup_insert_eq in Hq1. right. exists id, S. split; [set_solver|congruence].
        -- rewrite lookup_insert_ne in Hq1 by done. by left.
      * right. exists id', S'. set_solver.
    + intros id' S' [[= -> ->]|Hin]%elem_of_cons.
      * exists q0. split; [|done]. apply Hold. apply lookup_insert_eq.
      * destruct (Hnew id' S' Hin) as (q & Hq1 & Hq2). exists q. split; [done|].
        unfold T1 in Hq2. apply lookup_insert_None in Hq2. tauto.
    + intros q c Hq. apply Hold. unfold T1.
      rewrite lookup_insert_ne; [done|]. intros <-. congruence.
Qed.

(** ** The commit step as a whole *)

Lemma additive_new f g a S : additive f g → f (mkCluster a S) = g S.
Proof.
  intros [Hf0 Hfg]. specialize (Hfg a S S ltac:(done)).
  rewrite difference_diag_L, Hf0 in Hfg. lia.
Qed.

Lemma sum_list_with_new f g (Ss : list CaloHitList) :
  additive f g → sum_list_with (λ S, f (mkCluster true S)) Ss = sum_list_with g Ss.
Proof.
  intros Hfg. induction Ss as [|S Ss IH]; [done|].
  cbn [sum_list_with]. by rewrite IH, (additive_new f g true S Hfg).
Qed.

(** The list [l'] a successful commit leaves, from the list [l] it found
    and the reassignment [r]: [l3] is [l] after the removals, [T] holds the
    new clusters. *)
Definition committed_outcome (l : ClusterList) (r : Reassignment) (l' : ClusterList) : Prop :=
  ∃ l3 T : ClusterList,
    l' = T ∪ l3 ∧ T ##ₘ l3 ∧
    (∀ q, clustersToModify r !! q = None → l3 !! q = l !! q) ∧
    (∀ q R, clustersToModify r !! q = Some R →
       ∃ c, l !! q = Some c ∧ IsAvailable c = true ∧ R ⊆ GetCaloHitList c ∧
            l3 !! q = if decide (GetCaloHitList c ⊆ R) then None
                      else Some (mkCluster (IsAvailable c) (GetCaloHitList c ∖ R))) ∧
    (∀ q c, T !! q = Some c →
       ∃ id S, clustersToCreate r !! id = Some S ∧ c = mkCluster true S) ∧
    (∀ id S, clustersToCreate r !! id = Some S → ∃ q, T !! q = Some (mkCluster true S)) ∧
    (∀ f g, additive f g →
       map_sum f l' + map_sum g (clustersToModify r)
       = map_sum f l + map_sum g (clustersToCreate r)).

Lemma bind_Ok {A B} (m : Api A) (k : A → Api B) (s s' : Pandora) (a : A) :
  m s = (Ok a, s') → bind m k s = k a s'.
Proof. unfold bind. by intros ->. Qed.

Lemma bind_Err {A B} (m : Api A) (k : A → Api B) (s s' : Pandora) (st : StatusCode) :
  m s = (Err st, s') → bind m k s = (Err st, s').
Proof. unfold bind. by intros ->. Qed.

Lemma CreateTemporaryList_eq (L : gmap string ClusterList) (cur temp : string) :
  temp = fresh (dom L) →
  PandoraContentApi.CreateTemporaryListAndSetCurrent (mkPandora L cur)
  = (Ok temp, mkPandora (<[temp := ∅]> L) temp).
Proof. by intros ->. Qed.

Lemma SaveList_eq (L : gmap string ClusterList) (cur temp name : string)
    (T target : ClusterList) :
  L !! temp = Some T → T ≠ ∅ → delete temp L !! name = Some target →
  PandoraContentApi.SaveList temp name (mkPandora L cur)
  = (Ok tt, mkPandora (<[name := T ∪ target]> (delete temp L)) cur).
Proof.
  intros HT Hne Htarget. unfold PandoraContentApi.SaveList. cbn [lists currentListName].
  rewrite HT, decide_False by done. by rewrite Htarget.
Qed.

(** The second half of the commit: the temporary list, the new clusters and
    the save. *)
Lemma publish_spec (clustersToCreate : ClusterAssociationMap)
    (L1 : gmap string ClusterList) (name : string) (l3 : ClusterList) :
  L1 !! name = Some l3 → mm_inhabited clustersToCreate → clustersToCreate ≠ ∅ →
  ∃ (T : ClusterList) (temp : string),
    (currentClusterListName <~ PandoraContentApi.GetCurrentListName ;;
     newClusterListName <~ PandoraContentApi.CreateTemporaryListAndSetCurrent ;;
     CreateClusters clustersToCreate ;;;
     PandoraContentApi.SaveList newClusterListName currentClusterListName)
      (mkPandora L1 name)
    = (Ok tt, mkPandora (<[name := T ∪ l3]> L1) temp) ∧
    T ##ₘ l3 ∧
    (∀ q c, T !! q = Some c →
       ∃ id S, clustersToCreate !! id = Some S ∧ c = mkCluster true S) ∧
    (∀ id S, clustersToCreate !! id = Some S → ∃ q, T !! q = Some (mkCluster true S)) ∧
    (∀ f, map_sum f T = map_sum (λ S, f (mkCluster true S)) clustersToCreate).
Proof.
  intros Hname Hinh Hne0.
  assert (∃ temp : string, temp = fresh (dom L1)) as [temp Hdef] by eauto.
  assert (L1 !! temp = None) as Htemp by (rewrite Hdef; apply not_elem_of_dom, is_fresh).
  assert (temp ≠ name) as Hne by (intros He; rewrite He in Htemp; congruence).
  destruct (CreateClusters_fold (map_to_list clustersToCreate) (<[temp := ∅]> L1) temp ∅)
    as (T & Hrun4 & Hother4 & Hsum4 & Hinv4 & Hnew4 & _).
  { apply lookup_insert_eq. }
  { intros id S Hin. apply elem_of_map_to_list in Hin. by apply (Hinh id S). }
  exists T, temp.
  assert (T ≠ ∅) as HT.
  { apply map_choose in Hne0 as (id0 & S0 & HS0).
    destruct (Hnew4 id0 S0) as (q0 & Hq0 & _); [by apply elem_of_map_to_list|].
    intros ->. by rewrite lookup_empty in Hq0. }
  split; [|split; [|split; [|split]]].
  - rewrite (bind_Ok _ _ _ (mkPandora L1 name) name) by done.
    rewrite (bind_Ok _ _ _ _ temp (CreateTemporaryList_eq L1 name temp Hdef)).
    rewrite (bind_Ok _ _ _ _ tt Hrun4).
    rewrite (SaveList_eq _ temp temp name T l3).
    + by rewrite insert_insert_eq, delete_insert_id.
    + apply lookup_insert_eq.
    + done.
    + by rewrite insert_insert_eq, delete_insert_id.
  - apply map_disjoint_dom. intros q HqT Hq3.
    assert (<[temp := ∅]> L1 !! name = Some l3) as Hname'
      by (by rewrite lookup_insert_ne).
    destruct (Hother4 name l3 q ltac:(congruence) Hname' HqT) as [Hq|Hq]; [|done].
    by rewrite dom_empty_L in Hq.
  - intros q c Hq. destruct (Hinv4 q c Hq) as [Hq'|(id & S & Hin & ->)].
    + by rewrite lookup_empty in Hq'.
    + exists id, S. split; [by apply elem_of_map_to_list | done].
  - intros id S HS. destruct (Hnew4 id S) as (q & Hq & _); [by apply elem_of_map_to_list|].
    by exists q.
  - intros f. by rewrite Hsum4, map_sum_empty.
Qed.

Lemma ModifyClusters_not_found name ha ca s :
  lists s !! name = None → ModifyClusters name ha ca s = (STATUS_CODE_NOT_FOUND, s).
Proof.
  intros Hl. unfold ModifyClusters, ModifyClusters_body, bind,
    PandoraContentApi.ReplaceCurrentList. by rewrite Hl.
Qed.

Lemma ModifyClusters_spec name ha ca s l :
  lists s !! name = Some l →
  match BuildReassignment ha ca (BuildOwnership l).1 with
  | inl st => ModifyClusters name ha ca s = (st, mkPandora (lists s) name)
  | inr r =>
      if foundNewClusters r then
        ∃ l' cur', ModifyClusters name ha ca s
                   = (STATUS_CODE_SUCCESS, mkPandora (<[name := l']> (lists s)) cur') ∧
                   committed_outcome l r l'
      else ModifyClusters name ha ca s = (STATUS_CODE_SUCCESS, mkPandora (lists s) name)
  end.
Proof.
  intros Hl. destruct s as [L cur0]. simpl in Hl. cbn [lists].
  pose proof (BuildOwnership_spec l) as [Hh2c Hc2h].
  assert (∀ k : Api unit,
            ModifyClusters name ha ca (mkPandora L cur0)
            = status_of
                (match BuildReassignment ha ca (BuildOwnership l).1 with
                 | inl st => (Err st, mkPandora L name)
                 | inr r => if negb (foundNewClusters r) then (Ok tt, mkPandora L name)
                            else (RemoveHits (BuildOwnership l).2 (clustersToModify r) ;;;
                                  currentClusterListName <~ PandoraContentApi.GetCurrentListName ;;
                                  newClusterListName <~
                                    PandoraContentApi.CreateTemporaryListAndSetCurrent ;;
                                  CreateClusters (clustersToCreate r) ;;;
                                  PandoraContentApi.SaveList newClusterListName
                                                             currentClusterListName)
                                   (mkPandora L name)
                 end)) as Hunf.
  { intros _. unfold ModifyClusters, ModifyClusters_body.
    unfold bind at 1, PandoraContentApi.ReplaceCurrentList. cbn [lists]. rewrite Hl.
    unfold bind at 1, PandoraContentApi.GetCurrentList, PandoraContentApi.GetList.
    cbn [lists currentListName]. rewrite Hl.
    destruct (BuildOwnership l) as [h2c c2h]. cbn [fst snd].
    destruct (BuildReassignment ha ca h2c) as [st|r]; [done|].
    by destruct (foundNewClusters r). }
  specialize (Hunf (ret tt)).
  destruct (BuildOwnership l) as [h2c c2h]. cbn [fst snd] in *.
  pose proof (BuildReassignment_spec ha h2c ca) as Hr.
  destruct (BuildReassignment ha ca h2c) as [st|r]; [done|].
  destruct Hr as (Hres & Htm & Htc & Hfound & Hitm & Hitc).
  destruct (foundNewClusters r) eqn:Hf; cbn [negb] in Hunf; [|done].
  rewrite Hunf. clear Hunf.
  (* removals *)
  assert (∀ q R, clustersToModify r !! q = Some R →
            ∃ c, l !! q = Some c ∧ IsAvailable c = true ∧ R ⊆ GetCaloHitList c ∧
                 c2h !! q = Some (GetCaloHitList c)) as Hpre.
  { intros q R Hq.
    assert (∀ h, h ∈ R → owns l q h) as Hown.
    { intros h Hh. apply Hh2c.
      assert (h ∈ mm_get (clustersToModify r) q) as Hm by (apply elem_of_mm_get; eauto).
      apply Htm in Hm as (id & _ & _ & Hp). rewrite Hp. set_solver. }
    destruct (set_choose_L R (Hitm q R Hq)) as [h0 Hh0].
    destruct (Hown h0 Hh0) as (c & Hlq & Hav & Hin0). exists c.
    split; [done|]. split; [done|]. split.
    - intros h Hh. destruct (Hown h Hh) as (c' & Hlq' & _ & Hin). congruence.
    - assert (h0 ∈ mm_get c2h q) as Hm0 by (apply Hc2h; exists c; done).
      apply elem_of_mm_get in Hm0 as (X & HX & _). rewrite HX. f_equal.
      apply set_eq. intros h. rewrite <- (mm_get_lookup c2h q X HX), Hc2h.
      split; [intros (c' & ? & ? & ?); congruence | intros ?; exists c; done]. }
  destruct (RemoveHits_fold c2h (map_to_list (clustersToModify r)) L name l)
    as (l3 & Hrun3 & Hout3 & Hin3 & Hsum3).
  { apply NoDup_fst_map_to_list. }
  { done. }
  { intros p R Hin. apply elem_of_map_to_list in Hin.
    destruct (Hpre p R Hin) as (c & ? & ? & ? & ?). exists c. done. }
  unfold bind at 1, RemoveHits. rewrite Hrun3.
  assert (clustersToCreate r ≠ ∅) as Hne0.
  { destruct (proj1 Hfound eq_refl) as (id & h & Hc & Hk).
    assert (h ∈ mm_get (clustersToCreate r) id) as Hm by (by apply Htc).
    apply elem_of_mm_get in Hm as (S0 & HS0 & _). intros He. by rewrite He in HS0. }
  destruct (publish_spec (clustersToCreate r) (<[name := l3]> L) name l3)
    as (T & temp & Hrun4 & Hdisj & Hinv4 & Hnew4 & Hsum4); [apply lookup_insert_eq|done..|].
  rewrite Hrun4. rewrite insert_insert_eq. cbn [status_of].
  exists (T ∪ l3), temp. split; [done|].
  exists l3, T. split; [done|]. split; [done|]. split; [|split; [|split; [|split]]].
  - intros q Hq. apply Hout3. intros Hin.
    apply list_elem_of_fmap in Hin as ([q' R] & -> & Hin).
    apply elem_of_map_to_list in Hin. simpl in Hq. congruence.
  - intros q R Hq. destruct (Hpre q R Hq) as (c & Hlq & Hav & HR & _).
    exists c. repeat (split; [done|]).
    apply (Hin3 q R c); [by apply elem_of_map_to_list | done].
  - done.
  - done.
  - intros f g Hfg. rewrite (map_sum_union f T l3 Hdisj), Hsum4.
    unfold map_sum at 1. rewrite (sum_list_with_new f g _ Hfg).
    specialize (Hsum3 f g Hfg).
    change (sum_list_with g (map_to_list (clustersToCreate r)).*2)
      with (map_sum g (clustersToCreate r)).
    change (sum_list_with g (map_to_list (clustersToModify r)).*2)
      with (map_sum g (clustersToModify r)) in Hsum3.
    lia.
Qed.

(** ** Families of pairwise disjoint sets *)

Section Family.
Context `{Countable K} `{Countable A}.
Implicit Types (m : gmap K (gset A)) (g : gset A → nat).

Definition family_union m : gset A := ⋃ (map_to_list m).*2.

Definition pairwise_disjoint m : Prop :=
  ∀ k k' x, x ∈ mm_get m k → x ∈ mm_get m k' → k = k'.

(** A measure on sets that adds up over disjoint unions. *)
Definition set_additive g : Prop :=
  g ∅ = 0 ∧ ∀ X Y, X ## Y → g (X ∪ Y) = g X + g Y.

Lemma elem_of_family_union m x : x ∈ family_union m ↔ ∃ k, x ∈ mm_get m k.
Proof.
  unfold family_union. rewrite elem_of_union_list. split.
  - intros (X & HX & Hx). apply list_elem_of_fmap in HX as ([k X'] & -> & Hk).
    apply elem_of_map_to_list in Hk. exists k. apply elem_of_mm_get. eauto.
  - intros (k & Hk). apply elem_of_mm_get in Hk as (X & HX & Hx).
    exists X. split; [|done]. apply list_elem_of_fmap. exists (k, X).
    split; [done|]. by apply elem_of_map_to_list.
Qed.

Lemma mm_get_insert_fresh m i X k :
  m !! i = None → mm_get (<[i := X]> m) k = if decide (k = i) then X else mm_get m k.
Proof.
  intros Hi. unfold mm_get. case_decide as Hk.
  - subst. by rewrite lookup_insert_eq.
  - by rewrite lookup_insert_ne.
Qed.

Lemma map_sum_disjoint g m :
  set_additive g → pairwise_disjoint m → map_sum g m = g (family_union m).
Proof.
  intros [Hg0 Hg]. induction m as [|i X m Hi IH] using map_ind; intros Hd.
  - rewrite map_sum_empty. unfold family_union. by rewrite map_to_list_empty.
  - assert (mm_get m i = ∅) as Hmi by (unfold mm_get; by rewrite Hi).
    assert (∀ k x, x ∈ mm_get m k → k ≠ i ∧ x ∈ mm_get (<[i := X]> m) k) as Hlift.
    { intros k x Hx. assert (k ≠ i) by (intros ->; set_solver).
      split; [done|]. rewrite mm_get_insert_fresh by done. by rewrite decide_False. }
    assert (family_union (<[i := X]> m) = X ∪ family_union m) as ->.
    { apply set_eq. intros x. rewrite elem_of_union, !elem_of_family_union. split.
      - intros (k & Hk). rewrite mm_get_insert_fresh in Hk by done.
        case_decide; [by left | right; eauto].
      - intros [Hx|(k & Hk)].
        + exists i. rewrite mm_get_insert_fresh by done. by rewrite decide_True.
        + exists k. by apply Hlift. }
    rewrite map_sum_insert by done. rewrite Hg.
    + rewrite IH; [done|]. intros k k' x Hk Hk'.
      apply (Hd k k' x); by apply Hlift.
    + intros x Hx (k & Hk)%elem_of_family_union.
      destruct (Hlift k x Hk) as [Hne Hk'']. apply Hne.
      apply (Hd k i x); [done|]. rewrite mm_get_insert_fresh by done.
      by rewrite decide_True.
Qed.

End Family.

Lemma set_additive_size : set_additive (λ R : CaloHitList, size R).
Proof. split; [apply size_empty | intros X Y; apply size_union]. Qed.

Lemma set_additive_holds (h : CaloHit) :
  set_additive (λ R : CaloHitList, if decide (h ∈ R) then 1 else 0).
Proof.
  split.
  - rewrite decide_False; set_solver.
  - intros X Y HXY. repeat case_decide; set_solver.
Qed.

(** ** Consistent association maps

    The two association maps agree when every hit listed under a candidate has
    that candidate in its own entry: what [SelectMatchedTracks] writes. *)
Definition consistent (hitAssociationMap : HitAssociationMap)
    (clusterAssociationMap : ClusterAssociationMap) : Prop :=
  ∀ id h, claims clusterAssociationMap id h → id ∈ mm_get hitAssociationMap h.

Lemma reassignment_balanced ha ca h2c r g :
  consistent ha ca → BuildReassignment ha ca h2c = inr r → set_additive g →
  map_sum g (clustersToModify r) = map_sum g (clustersToCreate r).
Proof.
  intros Hcons Hr Hg. pose proof (BuildReassignment_spec ha h2c ca) as Hspec.
  rewrite Hr in Hspec. destruct Hspec as (Hres & Htm & Htc & _).
  rewrite !map_sum_disjoint; try done.
  - f_equal. apply set_eq. intros x. rewrite !elem_of_family_union. split.
    + intros (p & Hp). apply Htm in Hp as (id & ? & ? & _). exists id. by apply Htc.
    + intros (id & Hid). apply Htc in Hid as [Hc Hk].
      destruct (Hres id x Hc Hk) as [p Hp]. exists p. apply Htm. eauto.
  - intros id id' x [Hc Hk]%Htc [Hc' _]%Htc.
    destruct (decide (id = id')) as [|Hne]; [done|]. exfalso. apply Hk.
    apply Hcons in Hc, Hc'.
    pose proof (size_two_elems _ id id' Hc Hc' Hne). lia.
  - intros p p' x (id & _ & _ & Hp)%Htm (id' & _ & _ & Hp')%Htm.
    rewrite Hp in Hp'. by apply (inj singleton) in Hp'.
Qed.

(** Every additive measure of every list of the store is the same before and
    after [ModifyClusters], whatever status it returns. *)
Lemma ModifyClusters_measure name ha ca s f g n :
  consistent ha ca → additive f g → set_additive g →
  map_sum f (viewList (ModifyClusters name ha ca s).2 n) = map_sum f (viewList s n).
Proof.
  intros Hcons Hfg Hg. destruct (lists s !! name) as [l|] eqn:Hl.
  - pose proof (ModifyClusters_spec name ha ca s l Hl) as Hspec.
    destruct (BuildReassignment ha ca (BuildOwnership l).1) as [st|r] eqn:Hr.
    { by rewrite Hspec. }
    destruct (foundNewClusters r); [|by rewrite Hspec].
    destruct Hspec as (l' & cur' & -> & l3 & T & _ & _ & _ & _ & _ & _ & Hsum).
    unfold viewList. cbn [snd lists].
    destruct (decide (n = name)) as [->|Hn].
    + rewrite lookup_insert_eq, Hl. cbn [default from_option id].
      specialize (Hsum f g Hfg).
      rewrite (reassignment_balanced ha ca _ r g Hcons Hr Hg) in Hsum. lia.
    + by rewrite lookup_insert_ne.
  - by rewrite ModifyClusters_not_found.
Qed.

(** The two ways a commit can end: the lists are as before, or the list of
    the view has been rebuilt from a reassignment. *)
Lemma ModifyClusters_cases name ha ca s :
  lists (ModifyClusters name ha ca s).2 = lists s ∨
  ∃ l r l', lists s !! name = Some l ∧
            BuildReassignment ha ca (BuildOwnership l).1 = inr r ∧
            foundNewClusters r = true ∧
            (ModifyClusters name ha ca s).1 = STATUS_CODE_SUCCESS ∧
            lists (ModifyClusters name ha ca s).2 = <[name := l']> (lists s) ∧
            committed_outcome l r l'.
Proof.
  destruct (lists s !! name) as [l|] eqn:Hl.
  - pose proof (ModifyClusters_spec name ha ca s l Hl) as Hspec.
    destruct (BuildReassignment ha ca (BuildOwnership l).1) as [st|r] eqn:Hr.
    { left. by rewrite Hspec. }
    destruct (foundNewClusters r) eqn:Hf; [|left; by rewrite Hspec].
    destruct Hspec as (l' & cur' & -> & Hout).
    right. exists l, r, l'. done.
  - left. by rewrite ModifyClusters_not_found.
Qed.


Lemma viewList_insert L cur name l : viewList (mkPandora (<[name := l]> L) cur) name = l.
Proof. unfold viewList. cbn [lists]. by rewrite lookup_insert_eq. Qed.

(** What a successful commit does to the clusters holding a hit that is not
    in any removal set. *)
Lemma committed_outcome_untouched l r l' h :
  committed_outcome l r l' →
  (∀ p, h ∉ mm_get (clustersToModify r) p) →
  (∀ id, h ∉ mm_get (clustersToCreate r) id) →
  (∀ q c, l !! q = Some c → h ∈ GetCaloHitList c →
     ∃ c', l' !! q = Some c' ∧ h ∈ GetCaloHitList c' ∧
           IsAvailable c' = IsAvailable c ∧ GetCaloHitList c' ⊆ GetCaloHitList c) ∧
  (∀ q c', l' !! q = Some c' → h ∈ GetCaloHitList c' →
     ∃ c, l !! q = Some c ∧ h ∈ GetCaloHitList c).
Proof.
  intros (l3 & T & -> & Hdisj & Hkeep & Hmod & HT & _ & _) Hnm Hnc.
  assert (∀ q c, l !! q = Some c → h ∈ GetCaloHitList c →
            ∃ c', l3 !! q = Some c' ∧ h ∈ GetCaloHitList c' ∧
                  IsAvailable c' = IsAvailable c ∧ GetCaloHitList c' ⊆ GetCaloHitList c)
    as Hfwd.
  { intros q c Hq Hh. destruct (clustersToModify r !! q) as [R|] eqn:HR.
    - destruct (Hmod q R HR) as (c0 & Hq0 & _ & _ & Hl3).
      assert (c0 = c) as -> by congruence.
      assert (h ∉ R) as HhR.
      { intros HhR. apply (Hnm q). apply elem_of_mm_get. eauto. }
      rewrite decide_False in Hl3 by set_solver.
      eexists. split; [done|]. simpl. set_solver.
    - exists c. rewrite (Hkeep q HR). done. }
  split.
  - intros q c Hq Hh. destruct (Hfwd q c Hq Hh) as (c' & Hq' & ?).
    exists c'. split; [|done]. rewrite lookup_union_r; [done|].
    by eapply map_disjoint_Some_r.
  - intros q c' Hq Hh. apply lookup_union_Some in Hq; [|done]. destruct Hq as [Hq|Hq].
    + destruct (HT q c' Hq) as (id & S & HS & ->). simpl in Hh.
      exfalso. apply (Hnc id). apply elem_of_mm_get. eauto.
    + destruct (clustersToModify r !! q) as [R|] eqn:HR.
      * destruct (Hmod q R HR) as (c0 & Hq0 & _ & _ & Hl3).
        rewrite Hq in Hl3. case_decide; [done|]. injection Hl3 as ->.
        exists c0. simpl in Hh. set_solver.
      * exists c'. by rewrite <- (Hkeep q HR).
Qed.

(** ** Claims on the commit step *)

(** C3. A hit whose entry in the hit-association map holds two or more
    candidate identifiers is skipped when the reassignment lists are built,
    and the commit leaves it where it is: every cluster of the view that
    held it still holds it (same cluster, same flag, no new hit), and no
    other cluster holds it afterwards. *)
Theorem ambiguous_hit_not_moved name ha ca s h :
  1 < size (mm_get ha h) →
  (∀ h2c r, BuildReassignment ha ca h2c = inr r →
     (∀ p, h ∉ mm_get (clustersToModify r) p) ∧
     (∀ id, h ∉ mm_get (clustersToCreate r) id)) ∧
  (∀ q c, viewList s name !! q = Some c → h ∈ GetCaloHitList c →
     ∃ c', viewList (ModifyClusters name ha ca s).2 name !! q = Some c' ∧
           h ∈ GetCaloHitList c' ∧ IsAvailable c' = IsAvailable c ∧
           GetCaloHitList c' ⊆ GetCaloHitList c) ∧
  (∀ q c', viewList (ModifyClusters name ha ca s).2 name !! q = Some c' →
     h ∈ GetCaloHitList c' →
     ∃ c, viewList s name !! q = Some c ∧ h ∈ GetCaloHitList c).
Proof.
  intros Hamb.
  assert (∀ h2c r, BuildReassignment ha ca h2c = inr r →
            (∀ p, h ∉ mm_get (clustersToModify r) p) ∧
            (∀ id, h ∉ mm_get (clustersToCreate r) id)) as Hskip.
  { intros h2c r Hr. pose proof (BuildReassignment_spec ha h2c ca) as Hspec.
    rewrite Hr in Hspec. destruct Hspec as (_ & Htm & Htc & _). split.
    - intros p (id & _ & Hk & _)%Htm. by apply Hk.
    - intros id [_ Hk]%Htc. by apply Hk. }
  split; [done|].
  destruct (ModifyClusters_cases name ha ca s)
    as [Hsame|(l & r & l' & Hl & Hr & _ & _ & Hlists & Hout)].
  - unfold viewList. rewrite Hsame. split; intros q c Hq Hh; exists c; set_solver.
  - destruct (Hskip _ r Hr) as [Hnm Hnc].
    destruct (committed_outcome_untouched l r l' h Hout Hnm Hnc) as [Hfwd Hbwd].
    unfold viewList. rewrite Hlists, lookup_insert_eq, Hl. cbn [default from_option id].
    done.
Qed.

Lemma ModifyClusters_unresolved name ha ca s l id h :
  lists s !! name = Some l →
  claims ca id h → size (mm_get ha h) ≤ 1 →
  size (mm_get (BuildOwnership l).1 h) ≠ 1 →
  ModifyClusters name ha ca s = (STATUS_CODE_FAILURE, mkPandora (lists s) name).
Proof.
  intros Hl Hc Hk Hsz.
  pose proof (ModifyClusters_spec name ha ca s l Hl) as Hspec.
  pose proof (BuildReassignment_spec ha (BuildOwnership l).1 ca) as Hr.
  destruct (BuildReassignment ha ca (BuildOwnership l).1) as [st|r].
  - destruct Hr as [-> _]. done.
  - destruct Hr as (Hres & _). exfalso. apply Hsz.
    destruct (Hres id h Hc) as [p Hp]; [unfold committable; lia|].
    rewrite Hp. apply size_singleton.
Qed.

(** C7. When every claimed hit is claimed by two or more candidates (in
    particular when the maps are empty), the commit returns
    [STATUS_CODE_SUCCESS] and every list of the store is as before. *)
Theorem no_committable_hit_is_noop name ha ca s l :
  lists s !! name = Some l →
  (∀ id h, claims ca id h → 1 < size (mm_get ha h)) →
  ModifyClusters name ha ca s = (STATUS_CODE_SUCCESS, mkPandora (lists s) name).
Proof.
  intros Hl Hamb.
  pose proof (ModifyClusters_spec name ha ca s l Hl) as Hspec.
  pose proof (BuildReassignment_spec ha (BuildOwnership l).1 ca) as Hr.
  destruct (BuildReassignment ha ca (BuildOwnership l).1) as [st|r].
  - destruct Hr as (_ & id & h & Hc & Hk & _). exfalso. apply Hk. by apply (Hamb id).
  - destruct Hr as (_ & _ & _ & Hfound & _).
    destruct (foundNewClusters r); [|done].
    destruct (proj1 Hfound eq_refl) as (id & h & Hc & Hk).
    exfalso. apply Hk. by apply (Hamb id).
Qed.

(** C10. The hit-to-cluster map of the commit holds exactly the available
    clusters of the current list; so a hit claimed by one candidate only whose
    sole owning cluster is in the list but flagged unavailable resolves to no
    owner, and the commit returns [STATUS_CODE_FAILURE] with no list
    changed. *)
Theorem unavailable_owner_is_fatal name ha ca s l id h p c :
  lists s !! name = Some l →
  claims ca id h → size (mm_get ha h) ≤ 1 →
  l !! p = Some c → h ∈ GetCaloHitList c → IsAvailable c = false →
  (∀ p' c', l !! p' = Some c' → h ∈ GetCaloHitList c' → p' = p) →
  (∀ h' q, q ∈ mm_get (BuildOwnership l).1 h' ↔
           ∃ c', l !! q = Some c' ∧ IsAvailable c' = true ∧ h' ∈ GetCaloHitList c') ∧
  mm_get (BuildOwnership l).1 h = ∅ ∧
  ModifyClusters name ha ca s = (STATUS_CODE_FAILURE, mkPandora (lists s) name).
Proof.
  intros Hl Hc Hk Hp Hh Hav Honly.
  pose proof (BuildOwnership_spec l) as [Hh2c _].
  assert (mm_get (BuildOwnership l).1 h = ∅) as Hempty.
  { apply set_eq. intros q. rewrite Hh2c. split; [|set_solver].
    intros (c' & Hq & Hav' & Hh'). assert (q = p) as -> by eauto. congruence. }
  split; [done|]. split; [done|].
  apply (ModifyClusters_unresolved name ha ca s l id h); try done.
  rewrite Hempty, size_empty. lia.
Qed.


Lemma resolved_size (h2c : HitToClusterMap) (h : CaloHit) :
  resolved h2c h ↔ size (mm_get h2c h) = 1.
Proof.
  unfold resolved. split.
  - intros [p ->]. apply size_singleton.
  - intros Hsz. apply size_1_elem_of in Hsz as [p Hp]. exists p.
    by apply leibniz_equiv.
Qed.



(** ** The matching pipeline *)

Section Matching.
Context {helpers : Helpers} (cfg : Settings).

Lemma samplingLoop_spec (fit1 fit2 : TwoDSlidingFitResult) (t1 t2 : HitType)
    (xMin xMax : float) (remaining start : nat) (acc : list CartesianVector) :
  samplingLoop fit1 fit2 t1 t2 xMin xMax remaining (N.of_nat start) acc
  = acc ++ omap (λ n, projectSample fit1 fit2 t1 t2 (samplingX xMin xMax n))
                (N.of_nat <$> seq start remaining).
Proof.
  revert start acc. induction remaining as [|remaining IH]; intros start acc.
  - simpl. by rewrite app_nil_r.
  - cbn [samplingLoop seq fmap list_fmap omap list_omap].
    replace (N.of_nat start + 1)%N with (N.of_nat (S start)) by lia.
    rewrite IH.
    destruct (projectSample fit1 fit2 t1 t2 (samplingX xMin xMax (N.of_nat start))).
    + by rewrite <- app_assoc.
    + done.
Qed.

Lemma storeAssociations_fold (clusterID : N) (hs : list CaloHit)
    (maps : HitAssociationMap * ClusterAssociationMap) :
  let maps' :=
    foldl (λ acc pCaloHit,
             (mm_insert pCaloHit clusterID acc.1, mm_insert clusterID pCaloHit acc.2))
          maps hs in
  (∀ h id, id ∈ mm_get maps'.1 h ↔ id ∈ mm_get maps.1 h ∨ (id = clusterID ∧ h ∈ hs)) ∧
  (∀ id h, h ∈ mm_get maps'.2 id ↔ h ∈ mm_get maps.2 id ∨ (id = clusterID ∧ h ∈ hs)).
Proof.
  revert maps. induction hs as [|h0 hs IH]; intros maps; cbn [foldl].
  - split; intros; set_solver.
  - match goal with |- context [foldl _ ?a hs] => destruct (IH a) as [IH1 IH2] end.
    cbn [fst snd] in *. split.
    + intros h id. rewrite IH1, elem_of_mm_get_insert. set_solver.
    + intros id h. rewrite IH2, elem_of_mm_get_insert. set_solver.
Qed.

Lemma storeAssociations_spec (clusterID : N) (matchedHits : CaloHitList)
    (maps : HitAssociationMap * ClusterAssociationMap) :
  (∀ h id, id ∈ mm_get (storeAssociations clusterID matchedHits maps).1 h ↔
           id ∈ mm_get maps.1 h ∨ (id = clusterID ∧ h ∈ matchedHits)) ∧
  (∀ id h, h ∈ mm_get (storeAssociations clusterID matchedHits maps).2 id ↔
           h ∈ mm_get maps.2 id ∨ (id = clusterID ∧ h ∈ matchedHits)).
Proof.
  destruct (storeAssociations_fold clusterID (elements matchedHits) maps) as [F1 F2].
  unfold storeAssociations. split.
  - intros h id. rewrite F1. by rewrite elem_of_elements.
  - intros id h. rewrite F2. by rewrite elem_of_elements.
Qed.

(** The pair function returns its maps as they are or stores the matched
    hits of the candidate. *)
Lemma SelectMatchedTracks_pair_cases clusterID fit1 fit2 availableClusters maps :
  SelectMatchedTracks_pair cfg clusterID fit1 fit2 availableClusters maps = maps ∨
  ∃ matchedHits,
    SelectMatchedTracks_pair cfg clusterID fit1 fit2 availableClusters maps
    = storeAssociations clusterID matchedHits maps.
Proof.
  unfold SelectMatchedTracks_pair.
  destruct (GetClusterSpanX (GetCluster fit1).2) as [xMin1 xMax1].
  destruct (GetClusterSpanX (GetCluster fit2).2) as [xMin2 xMax2].
  destruct (overlapRejected _ _ _ _ _); [by left|].
  destruct (sampleProjections _ _ _ _ _ _) as [|pos ps]; [by left|].
  destruct (findAssociated _ _ _) as [associatedHits associatedClusters].
  destruct (negb _); [by left|].
  destruct (_ <? _)%N; [by left|].
  destruct (coverageRejected _ _ _); [by left|].
  right. eauto.
Qed.

End Matching.

(** C4. The overlap gate: with [overlap = min(xMax1,xMax2) - max(xMin1,xMin2)]
    and [span = max(xMax1,xMax2) - min(xMin1,xMin2)], a pair with
    [overlap < m_minXOverlap] or [overlap/span < m_minXOverlapFraction] leaves
    both association maps as they are; the defaults of the two thresholds are
    3.0 and 0.8. *)
Theorem overlap_gate_rejects {helpers : Helpers} (cfg : Settings) (clusterID : N)
    (fit1 fit2 : TwoDSlidingFitResult) (availableClusters : ClusterVector)
    (maps : HitAssociationMap * ClusterAssociationMap)
    (xMin1 xMax1 xMin2 xMax2 : float) :
  GetClusterSpanX (GetCluster fit1).2 = (xMin1, xMax1) →
  GetClusterSpanX (GetCluster fit2).2 = (xMin2, xMax2) →
  let overlap := Float32.sub (Float32.min xMax1 xMax2) (Float32.max xMin1 xMin2) in
  let span := Float32.sub (Float32.max xMax1 xMax2) (Float32.min xMin1 xMin2) in
  Float32.ltb overlap (m_minXOverlap cfg) = true ∨
  Float32.ltb (Float32.div overlap span) (m_minXOverlapFraction cfg) = true →
  SelectMatchedTracks_pair cfg clusterID fit1 fit2 availableClusters maps = maps ∧
  (∀ nameU nameV nameW,
     m_minXOverlap (ReadSettings nameU nameV nameW) = Float32.of_N 3 ∧
     Float32.div (Float32.of_N 8) (Float32.of_N 10)
     = m_minXOverlapFraction (ReadSettings nameU nameV nameW)).
Proof.
  intros H1 H2 overlap span Hrej. split; [|by intros].
  unfold SelectMatchedTracks_pair. rewrite H1, H2.
  assert (overlapRejected cfg xMin1 xMax1 xMin2 xMax2 = true) as ->; [|done].
  unfold overlapRejected, xOverlap, xSpan. fold overlap span.
  destruct Hrej as [-> | ->]; [done | apply orb_true_r].
Qed.

(** C5. The minimum-matched-hits boundary: for a pair that passes the
    overlap gate, has a projected position and passes the cluster-span
    filter, a matched-hit set of [m_minMatchedHits - 1] hits leaves the maps
    as they are; a set of exactly [m_minMatchedHits] hits goes to the
    sample-coverage filter and, when that passes, every matched hit is
    recorded under the candidate's identifier in both maps. *)
Theorem min_matched_hits_boundary {helpers : Helpers} (cfg : Settings) (clusterID : N)
    (fit1 fit2 : TwoDSlidingFitResult) (availableClusters : ClusterVector)
    (maps : HitAssociationMap * ClusterAssociationMap)
    (xMin1 xMax1 xMin2 xMax2 : float) (projectedPositions : list CartesianVector)
    (associatedHits : CaloHitList) (associatedClusters : ClusterList) :
  GetClusterSpanX (GetCluster fit1).2 = (xMin1, xMax1) →
  GetClusterSpanX (GetCluster fit2).2 = (xMin2, xMax2) →
  overlapRejected cfg xMin1 xMax1 xMin2 xMax2 = false →
  sampleProjections fit1 fit2 xMin1 xMax1 xMin2 xMax2 = projectedPositions →
  projectedPositions ≠ [] →
  findAssociated cfg projectedPositions availableClusters
  = (associatedHits, associatedClusters) →
  goodClusters associatedClusters xMin1 xMax1 xMin2 xMax2 = true →
  let matchedHits := findMatchedHits cfg associatedHits in
  let result := SelectMatchedTracks_pair cfg clusterID fit1 fit2 availableClusters maps in
  ((N.of_nat (size matchedHits) + 1 = m_minMatchedHits cfg)%N → result = maps) ∧
  (N.of_nat (size matchedHits) = m_minMatchedHits cfg →
     (coverageRejected cfg projectedPositions matchedHits = true → result = maps) ∧
     (coverageRejected cfg projectedPositions matchedHits = false →
        result = storeAssociations clusterID matchedHits maps ∧
        ∀ h, h ∈ matchedHits →
             clusterID ∈ mm_get result.1 h ∧ h ∈ mm_get result.2 clusterID)).
Proof.
  intros H1 H2 Hgate Hproj Hne Hassoc Hgood matchedHits result.
  assert (result =
            if (N.of_nat (size matchedHits) <? m_minMatchedHits cfg)%N then maps
            else if coverageRejected cfg projectedPositions matchedHits then maps
                 else storeAssociations clusterID matchedHits maps) as Hres.
  { unfold result, SelectMatchedTracks_pair. rewrite H1, H2, Hgate, Hproj.
    destruct projectedPositions as [|pos ps]; [by destruct Hne|].
    rewrite Hassoc, Hgood. cbn [negb]. reflexivity. }
  split.
  - intros Hsz. rewrite Hres.
    by assert ((N.of_nat (size matchedHits) <? m_minMatchedHits cfg)%N = true) as ->
      by (apply N.ltb_lt; lia).
  - intros Hsz.
    assert ((N.of_nat (size matchedHits) <? m_minMatchedHits cfg)%N = false) as Hlt
      by (apply N.ltb_ge; lia).
    rewrite Hlt in Hres. split; intros Hcov; rewrite Hcov in Hres; [done|].
    split; [done|]. intros h Hh. rewrite Hres.
    destruct (storeAssociations_spec clusterID matchedHits maps) as [S1 S2].
    split.
    + apply (proj2 (S1 h clusterID)). right. split; [reflexivity | exact Hh].
    + apply (proj2 (S2 clusterID h)). right. split; [reflexivity | exact Hh].
Qed.

Lemma omap_all_None {A B} (f : A → option B) (l : list A) :
  (∀ x, x ∈ l → f x = None) → omap f l = [].
Proof.
  induction l as [|x l IH]; intros Hall; [done|].
  cbn [omap list_omap]. rewrite (Hall x) by set_solver. apply IH.
  intros y Hy. apply Hall. set_solver.
Qed.

Lemma omap_length_le {A B} (f : A → option B) (l : list A) :
  length (omap f l) ≤ length l.
Proof.
  induction l as [|x l IH]; [done|].
  cbn [omap list_omap length]. destruct (f x); cbn [length]; lia.
Qed.

(** C8. The sampler.  The 100 samples [n = 0..99] are taken in order at
    [x_n = xMin + ((0.5 + n) / 100) * (xMax - xMin)] over the overlap range.
    Sample [n] gives the position [position3] when both fit queries at [x_n]
    return a position and the merge of the two returns [position3]; it gives
    nothing when the query of the first fit fails, or that of the second, or
    the merge.  The projected positions are the positions of the samples that
    gave one, in the order of [n]: a sample that gives nothing is left out and
    the samples after it are still taken.  When no sample gives a position the
    pair evaluation returns the maps as they are. *)
Theorem sampling_points {helpers : Helpers} (cfg : Settings) (clusterID : N)
    (fit1 fit2 : TwoDSlidingFitResult) (availableClusters : ClusterVector)
    (maps : HitAssociationMap * ClusterAssociationMap)
    (xMin1 xMax1 xMin2 xMax2 : float) :
  GetClusterSpanX (GetCluster fit1).2 = (xMin1, xMax1) →
  GetClusterSpanX (GetCluster fit2).2 = (xMin2, xMax2) →
  let xMin := Float32.max xMin1 xMin2 in
  let xMax := Float32.min xMax1 xMax2 in
  let x (n : N) :=
    Float32.add xMin
      (Float32.mul (Float32.div (Float32.add Float32.half (Float32.of_N n)) (Float32.of_N 100))
                   (Float32.sub xMax xMin)) in
  let hitType1 := GetClusterHitType (GetCluster fit1).2 in
  let hitType2 := GetClusterHitType (GetCluster fit2).2 in
  let samples := N.of_nat <$> seq 0 100 in
  ∃ outcome : N → option CartesianVector,
    (∀ n position3,
       outcome n = Some position3 ↔
       ∃ position1 position2 chi2,
         GetGlobalFitPosition fit1 (x n) = Some position1 ∧
         GetGlobalFitPosition fit2 (x n) = Some position2 ∧
         MergeTwoPositions hitType1 hitType2 position1 position2 = Some (position3, chi2)) ∧
    (∀ n,
       outcome n = None ↔
       GetGlobalFitPosition fit1 (x n) = None ∨
       GetGlobalFitPosition fit2 (x n) = None ∨
       ∃ position1 position2,
         GetGlobalFitPosition fit1 (x n) = Some position1 ∧
         GetGlobalFitPosition fit2 (x n) = Some position2 ∧
         MergeTwoPositions hitType1 hitType2 position1 position2 = None) ∧
    length samples = 100 ∧
    sampleProjections fit1 fit2 xMin1 xMax1 xMin2 xMax2 = omap outcome samples ∧
    length (sampleProjections fit1 fit2 xMin1 xMax1 xMin2 xMax2) ≤ 100 ∧
    ((∀ n, (n < 100)%N → outcome n = None) →
     SelectMatchedTracks_pair cfg clusterID fit1 fit2 availableClusters maps = maps).
Proof.
  intros H1 H2 xMin xMax x hitType1 hitType2 samples.
  set (project := λ n : N, projectSample fit1 fit2 hitType1 hitType2 (x n)).
  assert (sampleProjections fit1 fit2 xMin1 xMax1 xMin2 xMax2 = omap project samples)
    as Hsp.
  { unfold sampleProjections. change 0%N with (N.of_nat 0).
    by rewrite samplingLoop_spec. }
  exists project. split; [|split; [|split; [|split; [|split]]]].
  - intros n position3. unfold project, projectSample. split.
    + destruct (GetGlobalFitPosition fit1 (x n)) as [position1|]; [|discriminate].
      destruct (GetGlobalFitPosition fit2 (x n)) as [position2|]; [|discriminate].
      destruct (MergeTwoPositions hitType1 hitType2 position1 position2)
        as [[position chi2]|] eqn:Hm; [|discriminate].
      intros [= <-]. exists position1, position2, chi2.
      split; [reflexivity|]. split; [reflexivity | exact Hm].
    + intros (position1 & position2 & chi2 & -> & -> & ->). reflexivity.
  - intros n. unfold project, projectSample. split.
    + destruct (GetGlobalFitPosition fit1 (x n)) as [position1|]; [|left; reflexivity].
      destruct (GetGlobalFitPosition fit2 (x n)) as [position2|];
        [|right; left; reflexivity].
      destruct (MergeTwoPositions hitType1 hitType2 position1 position2)
        as [[position chi2]|] eqn:Hm; [discriminate|].
      intros _. right; right. exists position1, position2.
      split; [reflexivity|]. split; [reflexivity | exact Hm].
    + intros [-> | [Hq | (position1 & position2 & -> & -> & ->)]];
        [reflexivity | | reflexivity].
      destruct (GetGlobalFitPosition fit1 (x n)); [rewrite Hq|]; reflexivity.
  - reflexivity.
  - exact Hsp.
  - rewrite Hsp. etransitivity; [apply omap_length_le|]. done.
  - intros Hfail. unfold SelectMatchedTracks_pair. rewrite H1, H2.
    destruct (overlapRejected cfg xMin1 xMax1 xMin2 xMax2); [done|].
    rewrite Hsp.
    assert (omap project samples = []) as ->; [|done].
    apply omap_all_None. intros n Hn. apply Hfail.
    unfold samples in Hn. apply list_elem_of_fmap in Hn as (k & -> & Hk).
    apply elem_of_seq in Hk. lia.
Qed.

(** ** The association maps of the matching phase are consistent *)

Lemma claims_mm_get (ca : ClusterAssociationMap) id h : claims ca id h ↔ h ∈ mm_get ca id.
Proof. unfold claims. by rewrite elem_of_mm_get. Qed.

Section MatchingConsistent.
Context {helpers : Helpers} (cfg : Settings).

Lemma SelectMatchedTracks_pair_consistent clusterID fit1 fit2 availableClusters maps :
  consistent maps.1 maps.2 →
  consistent (SelectMatchedTracks_pair cfg clusterID fit1 fit2 availableClusters maps).1
             (SelectMatchedTracks_pair cfg clusterID fit1 fit2 availableClusters maps).2.
Proof.
  intros Hc.
  destruct (SelectMatchedTracks_pair_cases cfg clusterID fit1 fit2 availableClusters maps)
    as [-> | [matchedHits ->]]; [done|].
  destruct (storeAssociations_spec clusterID matchedHits maps) as [S1 S2].
  intros id h Hcl. apply claims_mm_get, S2 in Hcl. apply S1.
  destruct Hcl as [Hcl|?]; [|by right]. left. by apply Hc, claims_mm_get.
Qed.

Lemma pair_step_consistent fitMap fit1 clusterVector3 clusterVector2 acc :
  consistent acc.2.1 acc.2.2 →
  consistent (foldl (pair_step cfg fitMap fit1 clusterVector3) acc clusterVector2).2.1
             (foldl (pair_step cfg fitMap fit1 clusterVector3) acc clusterVector2).2.2.
Proof.
  revert acc. induction clusterVector2 as [|e es IH]; intros acc Hc; [done|].
  cbn [foldl]. apply IH. unfold pair_step.
  destruct (fitMap !! e.1); [|done]. cbn [snd].
  by apply SelectMatchedTracks_pair_consistent.
Qed.

Lemma row_step_consistent fitMap clusterVector2 clusterVector3 clusterVector1 acc :
  consistent acc.2.1 acc.2.2 →
  consistent (foldl (row_step cfg fitMap clusterVector2 clusterVector3) acc clusterVector1).2.1
             (foldl (row_step cfg fitMap clusterVector2 clusterVector3) acc clusterVector1).2.2.
Proof.
  revert acc. induction clusterVector1 as [|e es IH]; intros acc Hc; [done|].
  cbn [foldl]. apply IH. unfold row_step.
  destruct (fitMap !! e.1); [|done]. by apply pair_step_consistent.
Qed.

Lemma SelectMatchedTracks_consistent fitMap clusterVector1 clusterVector2 clusterVector3 maps :
  consistent maps.1 maps.2 →
  consistent (SelectMatchedTracks cfg fitMap clusterVector1 clusterVector2 clusterVector3 maps).1
             (SelectMatchedTracks cfg fitMap clusterVector1 clusterVector2 clusterVector3 maps).2.
Proof.
  intros Hc. unfold SelectMatchedTracks.
  destruct clusterVector1 as [|e1 v1]; [done|].
  destruct clusterVector2 as [|e2 v2]; [done|].
  destruct clusterVector3 as [|e3 v3]; [done|].
  case_decide; [done|]. by apply row_step_consistent.
Qed.

Lemma consistent_empty : consistent ∅ ∅.
Proof. intros id h (hs & Hl & _). by rewrite lookup_empty in Hl. Qed.

(** ** The driver *)

Lemma GetAvailableClusters_state name v s : (GetAvailableClusters name v s).2 = s.
Proof.
  unfold GetAvailableClusters, bind, PandoraContentApi.GetList.
  destruct (lists s !! name); [|done].
  by destruct (foldl _ _ _).
Qed.

Lemma Run_measure s f g n :
  additive f g → set_additive g →
  map_sum f (viewList (Run cfg s).2 n) = map_sum f (viewList s n).
Proof.
  intros Hfg Hg. unfold Run.
  pose proof (GetAvailableClusters_state (m_inputClusterListNameU cfg) [] s) as HU.
  destruct (GetAvailableClusters (m_inputClusterListNameU cfg) [] s) as [[avU|st] sU];
    cbn [snd] in HU; subst sU; [|done].
  pose proof (GetAvailableClusters_state (m_inputClusterListNameV cfg) [] s) as HV.
  destruct (GetAvailableClusters (m_inputClusterListNameV cfg) [] s) as [[avV|st] sV];
    cbn [snd] in HV; subst sV; [|done].
  pose proof (GetAvailableClusters_state (m_inputClusterListNameW cfg) [] s) as HW.
  destruct (GetAvailableClusters (m_inputClusterListNameW cfg) [] s) as [[avW|st] sW];
    cbn [snd] in HW; subst sW; [|done].
  destruct (AddToSlidingFitResultMap cfg _ ∅) as [st|m1]; [done|].
  destruct (AddToSlidingFitResultMap cfg _ m1) as [st|m2]; [done|].
  destruct (AddToSlidingFitResultMap cfg _ m2) as [st|m3]; [done|].
  cbv zeta.
  set (aW := SelectMatchedTracks cfg m3 _ _ avW (∅, ∅)).
  set (aU := SelectMatchedTracks cfg m3 _ _ avU (∅, ∅)).
  set (aV := SelectMatchedTracks cfg m3 _ _ avV (∅, ∅)).
  assert (consistent aU.1 aU.2 ∧ consistent aV.1 aV.2 ∧ consistent aW.1 aW.2)
    as (HcU & HcV & HcW)
    by (repeat split; apply SelectMatchedTracks_consistent, consistent_empty).
  pose proof (ModifyClusters_measure (m_inputClusterListNameU cfg) aU.1 aU.2 s f g n
                HcU Hfg Hg) as M1.
  destruct (ModifyClusters (m_inputClusterListNameU cfg) aU.1 aU.2 s) as [st1 s1].
  cbn [snd] in M1.
  pose proof (ModifyClusters_measure (m_inputClusterListNameV cfg) aV.1 aV.2 s1 f g n
                HcV Hfg Hg) as M2.
  pose proof (ModifyClusters_measure (m_inputClusterListNameW cfg) aW.1 aW.2
                (ModifyClusters (m_inputClusterListNameV cfg) aV.1 aV.2 s1).2 f g n
                HcW Hfg Hg) as M3.
  destruct st1; try done.
  destruct (ModifyClusters (m_inputClusterListNameV cfg) aV.1 aV.2 s1) as [st2 s2].
  cbn [snd] in M2, M3.
  destruct st2; try (cbn [snd]; congruence).
  destruct (ModifyClusters (m_inputClusterListNameW cfg) aW.1 aW.2 s2) as [st3 s3].
  cbn [snd] in M3.
  destruct st3; cbn [snd]; congruence.
Qed.

End MatchingConsistent.

(** C1. Hit conservation: whatever [Run] returns, every list of the store
    holds as many hits (summed over its clusters) after the run as before,
    and every single hit is held by as many clusters of the list as before:
    the commit only moves hits, it neither creates nor drops one. *)
Theorem hit_conservation {helpers : Helpers} (cfg : Settings) (s : Pandora)
    (listName : string) :
  totalHits (viewList (Run cfg s).2 listName) = totalHits (viewList s listName) ∧
  ∀ h, ownerCount h (viewList (Run cfg s).2 listName) = ownerCount h (viewList s listName).
Proof.
  split.
  - rewrite !totalHits_map_sum.
    apply (Run_measure cfg s _ _ listName additive_size set_additive_size).
  - intros h. rewrite !ownerCount_map_sum.
    apply (Run_measure cfg s _ _ listName (additive_holds h) (set_additive_holds h)).
Qed.

(** ** Input views *)

Lemma available_fold (es : ClusterVector) (acc : ClusterVector) :
  foldl (λ v (entry : ClusterPtr * Cluster),
           if negb (IsAvailable entry.2) then v else v ++ [entry]) acc es
  = acc ++ filter (λ entry, IsAvailable entry.2 = true) es.
Proof.
  revert acc. induction es as [|e es IH]; intros acc; cbn [foldl].
  - by rewrite app_nil_r.
  - rewrite IH, filter_cons. destruct (IsAvailable e.2) eqn:Hav; cbn [negb].
    + rewrite decide_True by done. by rewrite <- app_assoc.
    + rewrite decide_False by done. done.
Qed.

(** A list with no available cluster. *)
Definition noneAvailable (l : ClusterList) : Prop :=
  ∀ p c, l !! p = Some c → IsAvailable c = false.

Section Inputs.
Context {helpers : Helpers}.

Lemma GetAvailableClusters_present name s l :
  lists s !! name = Some l →
  (∃ v, GetAvailableClusters name [] s = (Ok v, s)) ∨
  GetAvailableClusters name [] s = (Err STATUS_CODE_NOT_FOUND, s).
Proof.
  intros Hl. unfold GetAvailableClusters, bind, PandoraContentApi.GetList. rewrite Hl.
  destruct (foldl _ _ _); [by right | left; eauto].
Qed.

Lemma GetAvailableClusters_none name s l :
  lists s !! name = Some l → noneAvailable l →
  GetAvailableClusters name [] s = (Err STATUS_CODE_NOT_FOUND, s).
Proof.
  intros Hl Hnone. unfold GetAvailableClusters, bind, PandoraContentApi.GetList. rewrite Hl.
  rewrite available_fold.
  assert (∀ es : ClusterVector,
            (∀ p c, (p, c) ∈ es → IsAvailable c = false) →
            filter (λ entry : ClusterPtr * Cluster, IsAvailable entry.2 = true) es = [])
    as Hfilter.
  { induction es as [|[p c] es IH]; intros Hall; [done|].
    rewrite filter_cons, decide_False.
    - apply IH. intros p' c' Hin. apply (Hall p' c'). set_solver.
    - cbn [snd]. rewrite (Hall p c) by set_solver. done. }
  rewrite Hfilter; [done|].
  intros p c Hin. apply elem_of_map_to_list in Hin. by apply (Hnone p c).
Qed.

End Inputs.

(** ** A failing commit ends the run *)

(** Lines 25-47 of [Run]: the association maps it holds for the views U, V
    and W when it reaches the commits, or the status it returns before. *)
Definition RunAssociations {helpers : Helpers} (cfg : Settings) (s : Pandora) :
    StatusCode + (HitAssociationMap * ClusterAssociationMap)
                 * (HitAssociationMap * ClusterAssociationMap)
                 * (HitAssociationMap * ClusterAssociationMap) :=
  match GetAvailableClusters (m_inputClusterListNameU cfg) [] s with
  | (Err st, s) => inl st
  | (Ok availableClustersU, s) =>
  match GetAvailableClusters (m_inputClusterListNameV cfg) [] s with
  | (Err st, s) => inl st
  | (Ok availableClustersV, s) =>
  match GetAvailableClusters (m_inputClusterListNameW cfg) [] s with
  | (Err st, s) => inl st
  | (Ok availableClustersW, s) =>
      let cleanClustersU := SelectCleanClusters cfg availableClustersU [] in
      let cleanClustersV := SelectCleanClusters cfg availableClustersV [] in
      let cleanClustersW := SelectCleanClusters cfg availableClustersW [] in
      match AddToSlidingFitResultMap cfg cleanClustersU ∅ with
      | inl st => inl st
      | inr slidingFitResultMap =>
      match AddToSlidingFitResultMap cfg cleanClustersV slidingFitResultMap with
      | inl st => inl st
      | inr slidingFitResultMap =>
      match AddToSlidingFitResultMap cfg cleanClustersW slidingFitResultMap with
      | inl st => inl st
      | inr slidingFitResultMap =>
          inr (SelectMatchedTracks cfg slidingFitResultMap cleanClustersV cleanClustersW
                                   availableClustersU (∅, ∅),
               SelectMatchedTracks cfg slidingFitResultMap cleanClustersW cleanClustersU
                                   availableClustersV (∅, ∅),
               SelectMatchedTracks cfg slidingFitResultMap cleanClustersU cleanClustersV
                                   availableClustersW (∅, ∅))
      end end end
  end end end.

(** [Run] started on [s0] calls [ModifyClusters name ha ca] on the store [s]:
    the commit of U on [s0] itself, the commit of V on the store a successful
    commit of U has left, the commit of W on the store the successful commits
    of U and V have left. *)
Definition RunReaches {helpers : Helpers} (cfg : Settings) (s0 : Pandora)
    (name : string) (ha : HitAssociationMap) (ca : ClusterAssociationMap)
    (s : Pandora) : Prop :=
  ∃ aU aV aW,
    RunAssociations cfg s0 = inr (aU, aV, aW) ∧
    ((name = m_inputClusterListNameU cfg ∧ (ha, ca) = aU ∧ s = s0) ∨
     (name = m_inputClusterListNameV cfg ∧ (ha, ca) = aV ∧
      ModifyClusters (m_inputClusterListNameU cfg) aU.1 aU.2 s0 = (STATUS_CODE_SUCCESS, s)) ∨
     (name = m_inputClusterListNameW cfg ∧ (ha, ca) = aW ∧
      ∃ s1, ModifyClusters (m_inputClusterListNameU cfg) aU.1 aU.2 s0
            = (STATUS_CODE_SUCCESS, s1) ∧
            ModifyClusters (m_inputClusterListNameV cfg) aV.1 aV.2 s1
            = (STATUS_CODE_SUCCESS, s))).

(** [Run] is its matching phase followed by the three commits, each made only
    after the one before has returned [STATUS_CODE_SUCCESS]. *)
Lemma Run_commits {helpers : Helpers} (cfg : Settings) (s : Pandora) :
  Run cfg s =
  match RunAssociations cfg s with
  | inl st => (st, s)
  | inr (aU, aV, aW) =>
      match ModifyClusters (m_inputClusterListNameU cfg) aU.1 aU.2 s with
      | (STATUS_CODE_SUCCESS, s1) =>
          match ModifyClusters (m_inputClusterListNameV cfg) aV.1 aV.2 s1 with
          | (STATUS_CODE_SUCCESS, s2) =>
              ModifyClusters (m_inputClusterListNameW cfg) aW.1 aW.2 s2
          | (st, s2) => (st, s2)
          end
      | (st, s1) => (st, s1)
      end
  end.
Proof.
  unfold Run, RunAssociations.
  pose proof (GetAvailableClusters_state (m_inputClusterListNameU cfg) [] s) as HU.
  destruct (GetAvailableClusters (m_inputClusterListNameU cfg) [] s) as [[avU|st] sU];
    cbn [snd] in HU; subst sU; [|reflexivity].
  pose proof (GetAvailableClusters_state (m_inputClusterListNameV cfg) [] s) as HV.
  destruct (GetAvailableClusters (m_inputClusterListNameV cfg) [] s) as [[avV|st] sV];
    cbn [snd] in HV; subst sV; [|reflexivity].
  pose proof (GetAvailableClusters_state (m_inputClusterListNameW cfg) [] s) as HW.
  destruct (GetAvailableClusters (m_inputClusterListNameW cfg) [] s) as [[avW|st] sW];
    cbn [snd] in HW; subst sW; [|reflexivity].
  destruct (AddToSlidingFitResultMap cfg _ ∅) as [st|m1]; [reflexivity|].
  destruct (AddToSlidingFitResultMap cfg _ m1) as [st|m2]; [reflexivity|].
  destruct (AddToSlidingFitResultMap cfg _ m2) as [st|m3]; [reflexivity|].
  cbv zeta.
  destruct (ModifyClusters (m_inputClusterListNameU cfg) _ _ s) as [st1 s1].
  destruct st1; try reflexivity.
  destruct (ModifyClusters (m_inputClusterListNameV cfg) _ _ s1) as [st2 s2].
  destruct st2; try reflexivity.
  destruct (ModifyClusters (m_inputClusterListNameW cfg) _ _ s2) as [st3 s3].
  destruct st3; reflexivity.
Qed.

(** A commit of [Run] that does not return [STATUS_CODE_SUCCESS] ends the
    run: [Run] returns what the commit returned. *)
Lemma Run_returns_failed_commit {helpers : Helpers} (cfg : Settings) (s0 s : Pandora)
    (name : string) (ha : HitAssociationMap) (ca : ClusterAssociationMap) :
  RunReaches cfg s0 name ha ca s →
  (ModifyClusters name ha ca s).1 ≠ STATUS_CODE_SUCCESS →
  Run cfg s0 = ModifyClusters name ha ca s.
Proof.
  intros (aU & aV & aW & Ha & Hcase) Hfail. rewrite Run_commits, Ha.
  destruct Hcase as [(-> & Heq & ->) | [(-> & Heq & H1) | (-> & Heq & s1 & H1 & H2)]].
  - rewrite <- Heq. cbn [fst snd].
    destruct (ModifyClusters (m_inputClusterListNameU cfg) ha ca s0) as [st1 s1].
    cbn [fst] in Hfail. destruct st1; [congruence | reflexivity ..].
  - rewrite H1. rewrite <- Heq. cbn [fst snd].
    destruct (ModifyClusters (m_inputClusterListNameV cfg) ha ca s) as [st2 s2].
    cbn [fst] in Hfail. destruct st2; [congruence | reflexivity ..].
  - rewrite H1, H2. rewrite <- Heq. reflexivity.
Qed.

(** C6. When a hit claimed by one candidate only is mapped by the rebuilt
    hit-to-cluster map to no cluster or to more than one, the commit returns
    [STATUS_CODE_FAILURE] and changes no list; and when it is a commit of
    [Run], the run ends there: [Run] returns [STATUS_CODE_FAILURE] with the
    lists as that commit found them, no later view being committed. *)
Theorem unresolved_owner_is_fatal {helpers : Helpers} (cfg : Settings)
    name ha ca s l id h :
  lists s !! name = Some l →
  claims ca id h → size (mm_get ha h) ≤ 1 →
  size (mm_get (BuildOwnership l).1 h) = 0 ∨ 1 < size (mm_get (BuildOwnership l).1 h) →
  ModifyClusters name ha ca s = (STATUS_CODE_FAILURE, mkPandora (lists s) name) ∧
  ∀ s0, RunReaches cfg s0 name ha ca s →
        Run cfg s0 = (STATUS_CODE_FAILURE, mkPandora (lists s) name).
Proof.
  intros Hl Hc Hk Hsz.
  assert (ModifyClusters name ha ca s = (STATUS_CODE_FAILURE, mkPandora (lists s) name))
    as Hfail by (apply (ModifyClusters_unresolved name ha ca s l id h); try done; lia).
  split; [exact Hfail|]. intros s0 Hreach.
  rewrite <- Hfail. apply (Run_returns_failed_commit cfg s0 s name ha ca Hreach).
  rewrite Hfail. discriminate.
Qed.

(** ** An input view without an available cluster *)

Lemma GetAvailableClusters_cases {helpers : Helpers} (name : string) (s : Pandora) :
  (∃ v, GetAvailableClusters name [] s = (Ok v, s) ∧ ¬ noneAvailable (viewList s name)) ∨
  (GetAvailableClusters name [] s = (Err STATUS_CODE_NOT_FOUND, s) ∧
   noneAvailable (viewList s name)).
Proof.
  unfold GetAvailableClusters, bind, PandoraContentApi.GetList, viewList.
  destruct (lists s !! name) as [l|] eqn:Hl; cbn [default from_option id].
  2:{ right. split; [reflexivity|]. intros p c Hp. by rewrite lookup_empty in Hp. }
  rewrite available_fold. cbn [app].
  destruct (filter _ (map_to_list l)) as [|[p c] es] eqn:Hf.
  - right. split; [reflexivity|]. intros p c Hp.
    destruct (IsAvailable c) eqn:Hc; [|reflexivity]. exfalso.
    assert ((p, c) ∈ filter (λ entry : ClusterPtr * Cluster, IsAvailable entry.2 = true)
                            (map_to_list l)) as Hin.
    { apply list_elem_of_filter. split; [exact Hc|]. by apply elem_of_map_to_list. }
    rewrite Hf in Hin. by apply elem_of_nil in Hin.
  - left. eexists. split; [reflexivity|]. intros Hnone.
    assert ((p, c) ∈ filter (λ entry : ClusterPtr * Cluster, IsAvailable entry.2 = true)
                            (map_to_list l)) as Hin by (rewrite Hf; set_solver).
    apply list_elem_of_filter in Hin as [Hav Hin]. apply elem_of_map_to_list in Hin.
    cbn [snd] in Hav. rewrite (Hnone p c Hin) in Hav. discriminate.
Qed.

(** C9. When one of the three input views yields no available cluster (its
    list holds none, or is not in the store), [Run] returns
    [STATUS_CODE_NOT_FOUND] from the input selection: no association map has
    been computed, no commit has been called, and the store is as it was. *)
Theorem missing_view_aborts {helpers : Helpers} (cfg : Settings) (s : Pandora) :
  noneAvailable (viewList s (m_inputClusterListNameU cfg)) ∨
  noneAvailable (viewList s (m_inputClusterListNameV cfg)) ∨
  noneAvailable (viewList s (m_inputClusterListNameW cfg)) →
  RunAssociations cfg s = inl STATUS_CODE_NOT_FOUND ∧
  Run cfg s = (STATUS_CODE_NOT_FOUND, s).
Proof.
  intros Hnone. unfold Run, RunAssociations.
  destruct (GetAvailableClusters_cases (m_inputClusterListNameU cfg) s)
    as [(avU & -> & HU) | [-> _]]; [|split; reflexivity].
  destruct (GetAvailableClusters_cases (m_inputClusterListNameV cfg) s)
    as [(avV & -> & HV) | [-> _]]; [|split; reflexivity].
  destruct (GetAvailableClusters_cases (m_inputClusterListNameW cfg) s)
    as [(avW & -> & HW) | [-> _]]; [|split; reflexivity].
  exfalso. destruct Hnone as [Hn | [Hn | Hn]]; [by apply HU | by apply HV | by apply HW].
Qed.

(** ** The scenario, run *)

Import Scenario.

Lemma claims_Forall (P : N → CaloHit → Prop) (ca : ClusterAssociationMap) :
  map_Forall (λ id hs, set_Forall (P id) hs) ca → ∀ id h, claims ca id h → P id h.
Proof. intros HF id h (hs & Hl & Hh). exact (HF id hs Hl h Hh). Qed.

(** The 10 evenly spread hits of the two W clusters are matched by the pair
    of seeds, and [Run] replaces the two clusters by one holding all ten. *)
Example scenario_matched : matched = hitsFrom 300 10.
Proof. vm_compute. reflexivity. Qed.

Example scenario_Run :
  (@Run helpers cfg store).1 = STATUS_CODE_SUCCESS ∧
  clustersOf (viewList (@Run helpers cfg store).2 "W") = [mkCluster true (hitsFrom 300 10)] ∧
  viewList (@Run helpers cfg store).2 "U" = viewList store "U".
Proof. vm_compute. done. Qed.

Example scenario_commit :
  (ModifyClusters "W" claimedByW claimsW store).1 = STATUS_CODE_SUCCESS ∧
  (λ c, elements (GetCaloHitList c)) <$>
    clustersOf (viewList (ModifyClusters "W" claimedByW claimsW store).2 "W")
  = [[306]; [303; 302; 304]; [301; 300]; [307; 309; 305; 308]]%positive.
Proof. vm_compute. done. Qed.





Lemma ambiguous_hit_not_moved_witness :
  1 < size (mm_get claimedByW 305%positive) ∧
  ∃ c', viewList (ModifyClusters "W" claimedByW claimsW store).2 "W" !! 4%positive = Some c' ∧
        305%positive ∈ GetCaloHitList c'.
Proof.
  assert (1 < size (mm_get claimedByW 305%positive)) as Hamb by (vm_compute; lia).
  split; [exact Hamb|].
  destruct (ambiguous_hit_not_moved "W" claimedByW claimsW store 305%positive Hamb)
    as (_ & Hkeep & _).
  destruct (Hkeep 4%positive (mkCluster true (hitsFrom 305 5))) as (c' & Hc' & Hin & _).
  - vm_compute. reflexivity.
  - apply (bool_decide_unpack _). vm_compute. exact I.
  - exists c'. split; [exact Hc' | exact Hin].
Defined.

Lemma scenario_stray_claim : claims claimsStray 1 399%positive.
Proof. exists {[ 399%positive ]}. split; [vm_compute; reflexivity | set_solver]. Qed.

Lemma scenario_RunReaches :
  @RunReaches helpers cfg ScenarioRun.storeDupU "U" ScenarioRun.dupClaimedBy
              ScenarioRun.dupClaims ScenarioRun.storeDupU.
Proof.
  exists (ScenarioRun.dupClaimedBy, ScenarioRun.dupClaims), (∅, ∅), (∅, ∅).
  split; [vm_compute; reflexivity|]. left.
  split; [reflexivity|]. split; reflexivity.
Qed.

Lemma scenario_dup_claim : claims ScenarioRun.dupClaims 1 100%positive.
Proof.
  exists (hitsFrom 100 10). split; [vm_compute; reflexivity|].
  apply (bool_decide_unpack _). vm_compute. exact I.
Qed.

Lemma unresolved_owner_is_fatal_witness :
  lists ScenarioRun.storeDupU !! "U" = Some ScenarioRun.dupListU ∧
  size (mm_get ScenarioRun.dupClaimedBy 100%positive) ≤ 1 ∧
  1 < size (mm_get (BuildOwnership ScenarioRun.dupListU).1 100%positive) ∧
  ModifyClusters "U" ScenarioRun.dupClaimedBy ScenarioRun.dupClaims ScenarioRun.storeDupU
  = (STATUS_CODE_FAILURE, mkPandora (lists ScenarioRun.storeDupU) "U") ∧
  @Run helpers cfg ScenarioRun.storeDupU
  = (STATUS_CODE_FAILURE, mkPandora (lists ScenarioRun.storeDupU) "U").
Proof.
  assert (lists ScenarioRun.storeDupU !! "U" = Some ScenarioRun.dupListU) as Hl
    by (vm_compute; reflexivity).
  assert (size (mm_get ScenarioRun.dupClaimedBy 100%positive) ≤ 1) as Hk
    by (vm_compute; lia).
  assert (1 < size (mm_get (BuildOwnership ScenarioRun.dupListU).1 100%positive)) as Hz
    by (vm_compute; lia).
  split; [exact Hl|]. split; [exact Hk|]. split; [exact Hz|].
  destruct (@unresolved_owner_is_fatal helpers cfg "U" ScenarioRun.dupClaimedBy
              ScenarioRun.dupClaims ScenarioRun.storeDupU ScenarioRun.dupListU
              1 100%positive Hl scenario_dup_claim Hk (or_intror Hz))
    as [Hcommit Hrun].
  split; [exact Hcommit|]. exact (Hrun ScenarioRun.storeDupU scenario_RunReaches).
Defined.

Lemma scenario_all_ambiguous :
  ∀ id h, claims claimsBoth id h → 1 < size (mm_get claimedByBoth h).
Proof.
  refine (claims_Forall (λ (id : N) (h : CaloHit), 1 < size (mm_get claimedByBoth h))
                        claimsBoth _).
  apply (bool_decide_unpack _). vm_compute. exact I.
Qed.

Lemma no_committable_hit_is_noop_witness :
  lists store !! "W" = Some listW ∧
  claims claimsBoth 1 305%positive ∧
  ModifyClusters "W" claimedByBoth claimsBoth store
  = (STATUS_CODE_SUCCESS, mkPandora (lists store) "W").
Proof.
  assert (lists store !! "W" = Some listW) as Hl by (vm_compute; reflexivity).
  split; [exact Hl|]. split.
  - exists {[ 305%positive ]}. split; [vm_compute; reflexivity | set_solver].
  - exact (no_committable_hit_is_noop "W" claimedByBoth claimsBoth store listW
             Hl scenario_all_ambiguous).
Defined.

Lemma scenario_consumed_claim : claims claimsConsumed 1 300%positive.
Proof. exists {[ 300%positive ]}. split; [vm_compute; reflexivity | set_solver]. Qed.

Lemma scenario_consumed_only :
  ∀ p' c', consumedW !! p' = Some c' → 300%positive ∈ GetCaloHitList c' → p' = 3%positive.
Proof.
  intros p' c' Hp' _. unfold consumedW in Hp'.
  apply lookup_singleton_Some in Hp'. by destruct Hp'.
Qed.

Lemma unavailable_owner_is_fatal_witness :
  lists storeConsumed !! "W" = Some consumedW ∧
  consumedW !! 3%positive = Some consumed ∧
  IsAvailable consumed = false ∧
  mm_get (BuildOwnership consumedW).1 300%positive = ∅ ∧
  ModifyClusters "W" claimedByConsumed claimsConsumed storeConsumed
  = (STATUS_CODE_FAILURE, mkPandora (lists storeConsumed) "W").
Proof.
  assert (lists storeConsumed !! "W" = Some consumedW) as Hl by (vm_compute; reflexivity).
  assert (consumedW !! 3%positive = Some consumed) as Hp by (vm_compute; reflexivity).
  assert (size (mm_get claimedByConsumed 300%positive) ≤ 1) as Hk by (vm_compute; lia).
  assert (300%positive ∈ GetCaloHitList consumed) as Hh
    by (apply (bool_decide_unpack _); vm_compute; exact I).
  split; [exact Hl|]. split; [exact Hp|]. split; [reflexivity|].
  exact (proj2 (unavailable_owner_is_fatal "W" claimedByConsumed claimsConsumed storeConsumed
                  consumedW 1 300%positive 3%positive consumed
                  Hl scenario_consumed_claim Hk Hp Hh eq_refl scenario_consumed_only)).
Defined.

Lemma overlap_gate_rejects_witness :
  Float32.ltb (Float32.sub (Float32.min (Float32.of_N 2) (Float32.of_N 2))
                           (Float32.max x0 x0))
              (m_minXOverlap cfg) = true ∧
  @SelectMatchedTracks_pair helpers cfg 1 shortU shortV availableW (∅, ∅) = (∅, ∅).
Proof.
  assert (Float32.ltb (Float32.sub (Float32.min (Float32.of_N 2) (Float32.of_N 2))
                                   (Float32.max x0 x0))
                      (m_minXOverlap cfg) = true) as Hlt by (vm_compute; reflexivity).
  split; [exact Hlt|].
  refine (proj1 (@overlap_gate_rejects helpers cfg 1 shortU shortV availableW (∅, ∅)
                   x0 (Float32.of_N 2) x0 (Float32.of_N 2) _ _ (or_introl Hlt))).
  - vm_compute. reflexivity.
  - vm_compute. reflexivity.
Defined.

Lemma min_matched_hits_boundary_witness :
  projected ≠ [] ∧
  N.of_nat (size matched) = m_minMatchedHits cfg ∧
  @coverageRejected helpers cfg projected matched = false ∧
  @SelectMatchedTracks_pair helpers cfg 1 fitU fitV availableW (∅, ∅)
  = storeAssociations 1 matched (∅, ∅).
Proof.
  assert (projected ≠ []) as Hne by (vm_compute; discriminate).
  assert (N.of_nat (size matched) = m_minMatchedHits cfg) as Hsz by (vm_compute; reflexivity).
  assert (@coverageRejected helpers cfg projected matched = false) as Hcov
    by (vm_compute; reflexivity).
  split; [exact Hne|]. split; [exact Hsz|]. split; [exact Hcov|].
  refine (proj1 (proj2 (proj2 (@min_matched_hits_boundary helpers cfg 1 fitU fitV availableW
                                  (∅, ∅) x0 x10 x0 x10 projected associated.1 associated.2
                                  _ _ _ eq_refl Hne _ _) Hsz) Hcov)).
  - vm_compute. reflexivity.
  - vm_compute. reflexivity.
  - vm_compute. reflexivity.
  - exact (surjective_pairing associated).
  - vm_compute. reflexivity.
Defined.

Lemma sampling_points_witness :
  length (@sampleProjections ScenarioSampling.helpersGap fitU fitV x0 x10 x0 x10) = 60 ∧
  ∃ outcome : N → option CartesianVector,
    outcome 0%N = None ∧
    outcome 20%N = Some (onAxis (samplingX x0 x10 20)) ∧
    outcome 80%N = None ∧
    @sampleProjections ScenarioSampling.helpersGap fitU fitV x0 x10 x0 x10
    = omap outcome (N.of_nat <$> seq 0 100).
Proof.
  split; [vm_compute; reflexivity|].
  destruct (@sampling_points ScenarioSampling.helpersGap cfg 1 fitU fitV availableW (∅, ∅)
              x0 x10 x0 x10)
    as (outcome & Hsome & Hnone & _ & Heq & _).
  - vm_compute. reflexivity.
  - vm_compute. reflexivity.
  - exists outcome. split; [|split; [|split; [|exact Heq]]].
    + apply (proj2 (Hnone 0%N)). left. vm_compute. reflexivity.
    + apply (proj2 (Hsome 20%N (onAxis (samplingX x0 x10 20)))).
      exists (onAxis (samplingX x0 x10 20)), (onAxis (samplingX x0 x10 20)), Float32.zero.
      split; [vm_compute; reflexivity|]. split; vm_compute; reflexivity.
    + apply (proj2 (Hnone 80%N)). right; right.
      exists (onAxis (samplingX x0 x10 80)), (onAxis (samplingX x0 x10 80)).
      split; [vm_compute; reflexivity|]. split; vm_compute; reflexivity.
Defined.

Lemma scenario_noneAvailable : noneAvailable consumedW.
Proof.
  change (map_Forall (λ (_ : ClusterPtr) (c : Cluster), IsAvailable c = false) consumedW).
  apply (bool_decide_unpack _). vm_compute. exact I.
Qed.

Lemma missing_view_aborts_witness :
  lists ScenarioRun.storeNoU !! "U" = None ∧
  noneAvailable (viewList ScenarioRun.storeNoU "W") ∧
  @RunAssociations helpers cfg ScenarioRun.storeNoU = inl STATUS_CODE_NOT_FOUND ∧
  @Run helpers cfg ScenarioRun.storeNoU = (STATUS_CODE_NOT_FOUND, ScenarioRun.storeNoU).
Proof.
  assert (viewList ScenarioRun.storeNoU "W" = consumedW) as HW by (vm_compute; reflexivity).
  assert (noneAvailable (viewList ScenarioRun.storeNoU "W")) as Hnone
    by (rewrite HW; exact scenario_noneAvailable).
  split; [vm_compute; reflexivity|]. split; [exact Hnone|].
  exact (@missing_view_aborts helpers cfg ScenarioRun.storeNoU
           (or_intror (or_intror Hnone))).
Defined.

(** * Further properties of the code *)

(** ** The commit step *)

(** X1. With the view's list in the store, the commit returns
    [STATUS_CODE_FAILURE] exactly when some hit claimed by one candidate only
    is mapped to no available cluster or to more than one, and
    [STATUS_CODE_SUCCESS] otherwise: once the reassignment lists are built no
    later step fails. *)
Theorem commit_status name ha ca s l :
  lists s !! name = Some l →
  ((ModifyClusters name ha ca s).1 = STATUS_CODE_FAILURE ↔
   ∃ id h, claims ca id h ∧ size (mm_get ha h) ≤ 1 ∧
           size (mm_get (BuildOwnership l).1 h) ≠ 1) ∧
  ((ModifyClusters name ha ca s).1 = STATUS_CODE_SUCCESS ↔
   ∀ id h, claims ca id h → size (mm_get ha h) ≤ 1 →
           size (mm_get (BuildOwnership l).1 h) = 1).
Proof.
  intros Hl.
  pose proof (ModifyClusters_spec name ha ca s l Hl) as Hspec.
  pose proof (BuildReassignment_spec ha (BuildOwnership l).1 ca) as Hr.
  destruct (BuildReassignment ha ca (BuildOwnership l).1) as [st|r].
  - destruct Hr as (-> & id & h & Hc & Hk & Hu). rewrite Hspec. cbn [fst].
    assert (size (mm_get ha h) ≤ 1) as Hk' by (unfold committable in Hk; lia).
    rewrite resolved_size in Hu. split; split; try done.
    + intros _. eauto.
    + intros Hall. exfalso. apply Hu. by apply (Hall id).
  - destruct Hr as (Hres & _).
    assert (∀ id h, claims ca id h → size (mm_get ha h) ≤ 1 →
                    size (mm_get (BuildOwnership l).1 h) = 1) as Hall.
    { intros id h Hc Hk. apply resolved_size, (Hres id h Hc). unfold committable. lia. }
    assert ((ModifyClusters name ha ca s).1 = STATUS_CODE_SUCCESS) as Hok.
    { destruct (foundNewClusters r); [|by rewrite Hspec].
      destruct Hspec as (l' & cur' & -> & _). done. }
    rewrite Hok. split; split; try done.
    intros (id & h & Hc & Hk & Hne). exfalso. apply Hne. by apply (Hall id).
Qed.

(** X2. A commit that does not return [STATUS_CODE_SUCCESS] has changed no
    list of the store: the commit applies in full or not at all. *)
Theorem commit_failure_changes_nothing name ha ca s :
  (ModifyClusters name ha ca s).1 ≠ STATUS_CODE_SUCCESS →
  lists (ModifyClusters name ha ca s).2 = lists s.
Proof.
  intros Hst. destruct (ModifyClusters_cases name ha ca s)
    as [Hsame|(l & r & l' & _ & _ & _ & Hok & _)]; [done|].
  by rewrite Hok in Hst.
Qed.

(** X3. The commit on one view changes no other list that was in the store
    before the call, and every list name of the store before the call is
    still a list name after it. *)
Theorem commit_frames_other_lists name ha ca s :
  (∀ n l, n ≠ name → lists s !! n = Some l →
          lists (ModifyClusters name ha ca s).2 !! n = Some l) ∧
  (∀ n, is_Some (lists s !! n) → is_Some (lists (ModifyClusters name ha ca s).2 !! n)).
Proof.
  destruct (ModifyClusters_cases name ha ca s)
    as [->|(l & r & l' & Hl & _ & _ & _ & -> & _)]; [done|].
  split.
  - intros n l0 Hn Hl0. by rewrite lookup_insert_ne.
  - intros n Hn. destruct (decide (n = name)) as [->|Hne].
    + rewrite lookup_insert_eq. by eexists.
    + by rewrite lookup_insert_ne.
Qed.

(** X4. A cluster flagged unavailable is never touched by the commit: it is
    in the list afterwards, at the same address, with the same hits. *)
Theorem commit_keeps_unavailable_clusters name ha ca s q c :
  viewList s name !! q = Some c → IsAvailable c = false →
  viewList (ModifyClusters name ha ca s).2 name !! q = Some c.
Proof.
  intros Hq Hav. destruct (ModifyClusters_cases name ha ca s)
    as [Hsame|(l & r & l' & Hl & _ & _ & _ & Hlists & Hout)].
  { unfold viewList in *. by rewrite Hsame. }
  unfold viewList in *. rewrite Hlists, lookup_insert_eq. rewrite Hl in Hq.
  cbn [default from_option id] in *.
  destruct Hout as (l3 & T & -> & Hdisj & Hkeep & Hmod & _).
  assert (l3 !! q = Some c) as Hq3.
  { destruct (clustersToModify r !! q) as [R|] eqn:HR.
    - destruct (Hmod q R HR) as (c0 & Hq0 & Hav0 & _). congruence.
    - by rewrite (Hkeep q HR). }
  rewrite lookup_union_r; [done|]. by eapply map_disjoint_Some_r.
Qed.

(** X5. A cluster none of whose hits is claimed by exactly one candidate is
    left as it is by the commit. *)
Theorem commit_keeps_unclaimed_clusters name ha ca s q c :
  viewList s name !! q = Some c →
  (∀ h id, h ∈ GetCaloHitList c → claims ca id h → 1 < size (mm_get ha h)) →
  viewList (ModifyClusters name ha ca s).2 name !! q = Some c.
Proof.
  intros Hq Hnone. destruct (ModifyClusters_cases name ha ca s)
    as [Hsame|(l & r & l' & Hl & Hr & _ & _ & Hlists & Hout)].
  { unfold viewList in *. by rewrite Hsame. }
  unfold viewList in *. rewrite Hlists, lookup_insert_eq. rewrite Hl in Hq.
  cbn [default from_option id] in *.
  pose proof (BuildReassignment_spec ha (BuildOwnership l).1 ca) as Hspec.
  rewrite Hr in Hspec. destruct Hspec as (_ & Htm & _ & _ & Hitm & _).
  destruct Hout as (l3 & T & -> & Hdisj & Hkeep & Hmod & _).
  assert (l3 !! q = Some c) as Hq3.
  { destruct (clustersToModify r !! q) as [R|] eqn:HR.
    - exfalso. destruct (Hmod q R HR) as (c0 & Hq0 & _ & HR0 & _).
      assert (c0 = c) as -> by congruence.
      destruct (set_choose_L R (Hitm q R HR)) as [h Hh].
      assert (h ∈ mm_get (clustersToModify r) q) as Hm by (apply elem_of_mm_get; eauto).
      apply Htm in Hm as (id & Hc & Hk & _). apply Hk.
      apply (Hnone h id); [set_solver | done].
    - by rewrite (Hkeep q HR). }
  rewrite lookup_union_r; [done|]. by eapply map_disjoint_Some_r.
Qed.

(** X6. The commit leaves no cluster empty: a cluster without hits in the
    list after the commit was in the list, without hits, before it. *)
Theorem commit_makes_no_empty_cluster name ha ca s q c' :
  viewList (ModifyClusters name ha ca s).2 name !! q = Some c' →
  GetCaloHitList c' = ∅ →
  viewList s name !! q = Some c'.
Proof.
  intros Hq Hempty. destruct (ModifyClusters_cases name ha ca s)
    as [Hsame|(l & r & l' & Hl & Hr & _ & _ & Hlists & Hout)].
  { unfold viewList in *. by rewrite Hsame in Hq. }
  unfold viewList in *. rewrite Hlists, lookup_insert_eq in Hq. rewrite Hl.
  cbn [default from_option id] in *.
  pose proof (BuildReassignment_spec ha (BuildOwnership l).1 ca) as Hspec.
  rewrite Hr in Hspec. destruct Hspec as (_ & _ & _ & _ & _ & Hitc).
  destruct Hout as (l3 & T & -> & Hdisj & Hkeep & Hmod & HT & _).
  apply lookup_union_Some in Hq; [|done]. destruct Hq as [Hq|Hq].
  - exfalso. destruct (HT q c' Hq) as (id & S & HS & ->).
    by apply (Hitc id S HS).
  - destruct (clustersToModify r !! q) as [R|] eqn:HR.
    + exfalso. destruct (Hmod q R HR) as (c0 & _ & _ & _ & Hl3).
      rewrite Hq in Hl3. case_decide as Hsub; [done|]. injection Hl3 as ->.
      cbn [GetCaloHitList] in Hempty. apply Hsub. set_solver.
    + by rewrite <- (Hkeep q HR).
Qed.

Lemma map_sum_one `{Countable K} {A : Type} (m : gmap K A) : map_sum (λ _, 1) m = size m.
Proof.
  unfold map_sum. rewrite <- length_map_to_list.
  rewrite <- (length_fmap snd (map_to_list m)).
  induction ((map_to_list m).*2) as [|x xs IH]; [done|].
  cbn [sum_list_with length]. by rewrite IH.
Qed.

(** The state a committing run ends in, with the new clusters [T] counted. *)
Lemma ModifyClusters_committed name ha ca s l r :
  lists s !! name = Some l →
  BuildReassignment ha ca (BuildOwnership l).1 = inr r →
  foundNewClusters r = true →
  ∃ (l3 T : ClusterList) (temp : string),
    ModifyClusters name ha ca s
    = (STATUS_CODE_SUCCESS, mkPandora (<[name := T ∪ l3]> (lists s)) temp) ∧
    T ##ₘ l3 ∧
    size T = size (clustersToCreate r) ∧
    (∀ q c, T !! q = Some c →
       ∃ id S, clustersToCreate r !! id = Some S ∧ c = mkCluster true S) ∧
    (∀ id S, clustersToCreate r !! id = Some S → ∃ q, T !! q = Some (mkCluster true S)) ∧
    (∀ q c3, l3 !! q = Some c3 →
       ∃ c, l !! q = Some c ∧ IsAvailable c3 = IsAvailable c ∧
            GetCaloHitList c3 ⊆ GetCaloHitList c).
Proof.
  intros Hl Hr Hf. destruct s as [L cur0]. cbn [lists] in *.
  pose proof (BuildOwnership_spec l) as [Hh2c Hc2h].
  pose proof (BuildReassignment_spec ha (BuildOwnership l).1 ca) as Hspec.
  rewrite Hr in Hspec. destruct Hspec as (Hres & Htm & Htc & Hfound & Hitm & Hitc).
  assert (ModifyClusters name ha ca (mkPandora L cur0)
          = status_of
              ((RemoveHits (BuildOwnership l).2 (clustersToModify r) ;;;
                currentClusterListName <~ PandoraContentApi.GetCurrentListName ;;
                newClusterListName <~ PandoraContentApi.CreateTemporaryListAndSetCurrent ;;
                CreateClusters (clustersToCreate r) ;;;
                PandoraContentApi.SaveList newClusterListName currentClusterListName)
                 (mkPandora L name))) as ->.
  { unfold ModifyClusters, ModifyClusters_body.
    unfold bind at 1, PandoraContentApi.ReplaceCurrentList. cbn [lists]. rewrite Hl.
    unfold bind at 1, PandoraContentApi.GetCurrentList, PandoraContentApi.GetList.
    cbn [lists currentListName]. rewrite Hl.
    destruct (BuildOwnership l) as [h2c c2h]. cbn [fst snd] in *.
    rewrite Hr, Hf. reflexivity. }
  destruct (BuildOwnership l) as [h2c c2h]. cbn [fst snd] in *.
  assert (∀ q R, clustersToModify r !! q = Some R →
            ∃ c, l !! q = Some c ∧ c2h !! q = Some (GetCaloHitList c) ∧
                 R ⊆ GetCaloHitList c) as Hpre.
  { intros q R Hq.
    assert (∀ h, h ∈ R → owns l q h) as Hown.
    { intros h Hh. apply Hh2c.
      assert (h ∈ mm_get (clustersToModify r) q) as Hm by (apply elem_of_mm_get; eauto).
      apply Htm in Hm as (id & _ & _ & Hp). rewrite Hp. set_solver. }
    destruct (set_choose_L R (Hitm q R Hq)) as [h0 Hh0].
    destruct (Hown h0 Hh0) as (c & Hlq & Hav & Hin0). exists c.
    split; [done|]. split.
    - assert (h0 ∈ mm_get c2h q) as Hm0 by (apply Hc2h; exists c; done).
      apply elem_of_mm_get in Hm0 as (X & HX & _). rewrite HX. f_equal.
      apply set_eq. intros h. rewrite <- (mm_get_lookup c2h q X HX), Hc2h.
      split; [intros (c' & ? & ? & ?); congruence | intros ?; exists c; done].
    - intros h Hh. destruct (Hown h Hh) as (c' & Hlq' & _ & Hin). congruence. }
  destruct (RemoveHits_fold c2h (map_to_list (clustersToModify r)) L name l)
    as (l3 & Hrun3 & Hout3 & Hin3 & _).
  { apply NoDup_fst_map_to_list. }
  { done. }
  { intros p R Hin. apply elem_of_map_to_list in Hin. by apply Hpre. }
  assert (clustersToCreate r ≠ ∅) as Hne0.
  { destruct (proj1 Hfound Hf) as (id & h & Hc & Hk).
    assert (h ∈ mm_get (clustersToCreate r) id) as Hm by (by apply Htc).
    apply elem_of_mm_get in Hm as (S0 & HS0 & _). intros He. by rewrite He in HS0. }
  destruct (publish_spec (clustersToCreate r) (<[name := l3]> L) name l3)
    as (T & temp & Hrun4 & Hdisj & Hinv4 & Hnew4 & Hsum4); [apply lookup_insert_eq|done..|].
  exists l3, T, temp.
  split; [|split; [done|split; [|split; [done|split; [done|]]]]].
  - unfold RemoveHits. rewrite (bind_Ok _ _ _ _ tt Hrun3), Hrun4.
    by rewrite insert_insert_eq.
  - rewrite <- !map_sum_one. by rewrite Hsum4.
  - intros q c3 Hq3. destruct (clustersToModify r !! q) as [R|] eqn:HR.
    + destruct (Hpre q R HR) as (c & Hlq & _ & HRc).
      rewrite (Hin3 q R c) in Hq3; [|by apply elem_of_map_to_list|done].
      case_decide; [done|]. injection Hq3 as <-. exists c.
      split; [done|]. split; [done|]. cbn [GetCaloHitList]. set_solver.
    + exists c3. split; [|done]. rewrite <- Hq3. symmetry. apply Hout3.
      intros Hin. apply list_elem_of_fmap in Hin as ([q' R] & -> & Hin).
      apply elem_of_map_to_list in Hin. cbn [fst] in HR. congruence.
Qed.

(** X7. A commit that has something to commit creates exactly one new
    cluster per candidate with a hit to commit: the list afterwards is the
    disjoint union of the new clusters, as many as [clustersToCreate] has
    entries, each available and holding the hits of one entry, and of
    clusters of the old list, kept at their addresses with their flags and
    with hits they already had. *)
Theorem commit_creates_one_cluster_per_candidate name ha ca s l r :
  lists s !! name = Some l →
  BuildReassignment ha ca (BuildOwnership l).1 = inr r →
  foundNewClusters r = true →
  ∃ T l3 : ClusterList,
    viewList (ModifyClusters name ha ca s).2 name = T ∪ l3 ∧ T ##ₘ l3 ∧
    size T = size (clustersToCreate r) ∧
    (∀ q c, T !! q = Some c →
       IsAvailable c = true ∧ GetCaloHitList c ≠ ∅ ∧
       ∃ id, clustersToCreate r !! id = Some (GetCaloHitList c)) ∧
    (∀ id S, clustersToCreate r !! id = Some S → ∃ q, T !! q = Some (mkCluster true S)) ∧
    (∀ q c3, l3 !! q = Some c3 →
       ∃ c, l !! q = Some c ∧ IsAvailable c3 = IsAvailable c ∧
            GetCaloHitList c3 ⊆ GetCaloHitList c).
Proof.
  intros Hl Hr Hf.
  destruct (ModifyClusters_committed name ha ca s l r Hl Hr Hf)
    as (l3 & T & temp & -> & Hdisj & Hsize & HT & Hnew & Hold).
  pose proof (BuildReassignment_spec ha (BuildOwnership l).1 ca) as Hspec.
  rewrite Hr in Hspec. destruct Hspec as (_ & _ & _ & _ & _ & Hitc).
  exists T, l3. cbn [snd]. rewrite viewList_insert.
  split; [done|]. split; [done|]. split; [done|]. split; [|done].
  intros q c Hq. destruct (HT q c Hq) as (id & S & HS & ->). cbn.
  split; [done|]. split; [by apply (Hitc id S)|]. by exists id.
Qed.

(** ** The ownership maps *)

(** X8. The two maps the commit rebuilds are transposes of each other; the
    cluster-to-hit map holds, for every available cluster with a hit, all its
    hits, and has no entry for an unavailable or an empty cluster. *)
Theorem ownership_maps_transposed (l : ClusterList) :
  (∀ h p, p ∈ mm_get (BuildOwnership l).1 h ↔ h ∈ mm_get (BuildOwnership l).2 p) ∧
  (∀ p c, l !! p = Some c →
     (BuildOwnership l).2 !! p =
       if decide (IsAvailable c = true ∧ GetCaloHitList c ≠ ∅)
       then Some (GetCaloHitList c) else None) ∧
  (∀ p, l !! p = None → (BuildOwnership l).2 !! p = None).
Proof.
  pose proof (BuildOwnership_spec l) as [Hh2c Hc2h].
  assert (∀ p X, (BuildOwnership l).2 !! p = Some X →
            X ≠ ∅ ∧ ∃ c, l !! p = Some c ∧ IsAvailable c = true ∧ X = GetCaloHitList c)
    as Hsome.
  { intros p X HX.
    assert (mm_inhabited (BuildOwnership l).2) as Hinh.
    { unfold BuildOwnership.
      assert (∀ es acc, mm_inhabited acc.2 →
                        mm_inhabited (foldl record_cluster acc es).2) as Hfold.
      { induction es as [|e es IH]; intros acc Hacc; [done|]. cbn [foldl]. apply IH.
        unfold record_cluster. destruct (negb (IsAvailable e.2)); [done|].
        generalize (elements (GetCaloHitList e.2)). intros hs.
        revert acc Hacc. induction hs as [|h hs IHh]; intros acc Hacc; [done|].
        cbn [foldl]. apply IHh. cbn [record_owner snd]. by apply mm_inhabited_insert. }
      apply Hfold. cbn [snd]. apply mm_inhabited_empty. }
    split; [by apply (Hinh p X)|].
    destruct (set_choose_L X (Hinh p X HX)) as [h0 Hh0].
    assert (h0 ∈ mm_get (BuildOwnership l).2 p) as Hm by (apply elem_of_mm_get; eauto).
    apply Hc2h in Hm as (c & Hp & Hav & _). exists c. split; [done|]. split; [done|].
    apply set_eq. intros h. rewrite <- (mm_get_lookup _ p X HX), Hc2h.
    split; [intros (c' & ? & ? & ?); congruence | intros ?; exists c; done]. }
  split; [|split].
  - intros h p. by rewrite Hh2c, Hc2h.
  - intros p c Hp. destruct ((BuildOwnership l).2 !! p) as [X|] eqn:HX.
    + destruct (Hsome p X HX) as (Hne & c' & Hp' & Hav & ->).
      assert (c' = c) as -> by congruence. by rewrite decide_True.
    + case_decide as Hd; [|done]. exfalso. destruct Hd as [Hav Hne].
      destruct (set_choose_L _ Hne) as [h Hh].
      assert (h ∈ mm_get (BuildOwnership l).2 p) as Hm by (apply Hc2h; exists c; done).
      apply elem_of_mm_get in Hm as (X & HX' & _). congruence.
  - intros p Hp. destruct ((BuildOwnership l).2 !! p) as [X|] eqn:HX; [|done].
    destruct (Hsome p X HX) as (_ & c & Hp' & _). congruence.
Qed.

(** ** The filters of the matching pipeline *)

Section Filters.
Context {helpers : Helpers} (cfg : Settings).

Lemma associate_hits_fold (projectedPositions : list CartesianVector)
    (hs : list CaloHit) (acc : CaloHitList) :
  ∀ h, h ∈ foldl (λ hits pCaloHit,
                    if nearProjection cfg projectedPositions pCaloHit
                    then {[pCaloHit]} ∪ hits else hits) acc hs
       ↔ h ∈ acc ∨ (h ∈ hs ∧ nearProjection cfg projectedPositions h = true).
Proof.
  revert acc. induction hs as [|h0 hs IH]; intros acc h; cbn [foldl].
  - set_solver.
  - rewrite IH. destruct (nearProjection cfg projectedPositions h0) eqn:Hn.
    + set_solver.
    + split; [set_solver|]. intros [?|[Hin ?]]; [by left|].
      apply elem_of_cons in Hin as [->|?]; [congruence | by right].
Qed.

Lemma findAssociated_fold (projectedPositions : list CartesianVector)
    (es : ClusterVector) (acc : CaloHitList * ClusterList) :
  let res := foldl (associate_cluster cfg projectedPositions) acc es in
  (∀ h, h ∈ res.1 ↔
        h ∈ acc.1 ∨
        ∃ p c, (p, c) ∈ es ∧ h ∈ GetCaloHitList c ∧
               nearProjection cfg projectedPositions h = true) ∧
  (∀ p, is_Some (res.2 !! p) ↔
        is_Some (acc.2 !! p) ∨
        ∃ c h, (p, c) ∈ es ∧ h ∈ GetCaloHitList c ∧
               nearProjection cfg projectedPositions h = true) ∧
  (∀ p c, res.2 !! p = Some c →
        acc.2 !! p = Some c ∨
        ((p, c) ∈ es ∧ ∃ h, h ∈ GetCaloHitList c ∧
                            nearProjection cfg projectedPositions h = true)).
Proof.
  revert acc. induction es as [|[p0 c0] es IH]; intros acc res.
  - subst res. cbn [foldl]. split; [|split]; intros; set_solver.
  - subst res. cbn [foldl].
    destruct (IH (associate_cluster cfg projectedPositions acc (p0, c0)))
      as (I1 & I2 & I3).
    unfold associate_cluster in I1, I2, I3. cbn [fst snd] in I1, I2, I3.
    assert (existsb (nearProjection cfg projectedPositions)
                    (elements (GetCaloHitList c0)) = true ↔
            ∃ h, h ∈ GetCaloHitList c0 ∧
                 nearProjection cfg projectedPositions h = true) as Hex.
    { rewrite existsb_exists. setoid_rewrite <- list_elem_of_In.
      by setoid_rewrite elem_of_elements. }
    split; [|split].
    + intros h. rewrite I1, associate_hits_fold, elem_of_elements. split.
      * intros [[?|[? ?]]|(p & c & ? & ? & ?)]; [by left|right..].
        -- exists p0, c0. set_solver.
        -- exists p, c. set_solver.
      * intros [?|(p & c & Hin & ? & ?)]; [by left; left|].
        apply elem_of_cons in Hin as [[= -> ->]|?]; [by left; right|].
        right. by exists p, c.
    + intros p. rewrite I2.
      destruct (existsb (nearProjection cfg projectedPositions)
                        (elements (GetCaloHitList c0))) eqn:Hb.
      * destruct (proj1 Hex eq_refl) as (h0 & Hh0 & Hn0).
        rewrite lookup_insert_is_Some. split.
        -- intros [[->|[_ ?]]|(c & h & ? & ? & ?)]; [right|by left|right].
           ++ exists c0, h0. set_solver.
           ++ exists c, h. set_solver.
        -- intros [?|(c & h & Hin & ? & ?)].
           ++ left. destruct (decide (p0 = p)); [by left | by right].
           ++ apply elem_of_cons in Hin as [[= -> ->]|?]; [by left; left|].
              right. by exists c, h.
      * split.
        -- intros [?|(c & h & ? & ? & ?)]; [by left|]. right. exists c, h. set_solver.
        -- intros [?|(c & h & Hin & ? & ?)]; [by left|].
           apply elem_of_cons in Hin as [[= -> ->]|?].
           ++ assert (false = true) as Hb' by (apply Hex; eauto). done.
           ++ right. by exists c, h.
    + intros p c Hpc. destruct (I3 p c Hpc) as [Hacc|[Hin Hn]].
      * destruct (existsb (nearProjection cfg projectedPositions)
                          (elements (GetCaloHitList c0))) eqn:Hb; [|by left].
        destruct (decide (p0 = p)) as [->|Hne].
        -- rewrite lookup_insert_eq in Hacc. injection Hacc as <-.
           right. split; [set_solver|]. by apply Hex.
        -- rewrite lookup_insert_ne in Hacc by done. by left.
      * right. split; [set_solver | done].
Qed.

Lemma findMatchedHits_fold (associatedHits : CaloHitList) (hs : list CaloHit)
    (acc : CaloHitList) :
  ∀ h, h ∈ foldl (λ matchedHits pCaloHit1,
                    if isGoodHit cfg associatedHits pCaloHit1
                    then {[pCaloHit1]} ∪ matchedHits else matchedHits) acc hs
       ↔ h ∈ acc ∨ (h ∈ hs ∧ isGoodHit cfg associatedHits h = true).
Proof.
  revert acc. induction hs as [|h0 hs IH]; intros acc h; cbn [foldl].
  - set_solver.
  - rewrite IH. destruct (isGoodHit cfg associatedHits h0) eqn:Hn.
    + set_solver.
    + split; [set_solver|]. intros [?|[Hin ?]]; [by left|].
      apply elem_of_cons in Hin as [->|?]; [congruence | by right].
Qed.

Lemma isGoodHit_spec (associatedHits : CaloHitList) (h : CaloHit) :
  isGoodHit cfg associatedHits h = true ↔
  ∃ h2, h2 ∈ associatedHits ∧ h2 ≠ h ∧
        closerThan (m_maxHitDisplacement cfg)
                   (GetPositionVector h) (GetPositionVector h2) = true.
Proof.
  unfold isGoodHit. rewrite existsb_exists. setoid_rewrite <- list_elem_of_In.
  setoid_rewrite elem_of_elements. split.
  - intros (h2 & Hin & Hc). exists h2. case_decide; [done|]. split; [done|].
    split; [congruence | done].
  - intros (h2 & Hin & Hne & Hc). exists h2. split; [done|].
    by rewrite decide_False by congruence.
Qed.

End Filters.

(** X9. The associated hits are exactly the hits of the given clusters that
    lie closer than [m_maxPointDisplacement] to some projected position, and
    the associated clusters are exactly the given clusters holding such a
    hit. *)
Theorem associated_hits_and_clusters {helpers : Helpers} (cfg : Settings)
    (projectedPositions : list CartesianVector) (availableClusters : ClusterVector) :
  let near := nearProjection cfg projectedPositions in
  let res := findAssociated cfg projectedPositions availableClusters in
  (∀ h, h ∈ res.1 ↔
        ∃ p c, (p, c) ∈ availableClusters ∧ h ∈ GetCaloHitList c ∧ near h = true) ∧
  (∀ p, is_Some (res.2 !! p) ↔
        ∃ c h, (p, c) ∈ availableClusters ∧ h ∈ GetCaloHitList c ∧ near h = true) ∧
  (∀ p c, res.2 !! p = Some c →
        (p, c) ∈ availableClusters ∧ ∃ h, h ∈ GetCaloHitList c ∧ near h = true) ∧
  (∀ h, near h = true ↔
        ∃ position, position ∈ projectedPositions ∧
                    closerThan (m_maxPointDisplacement cfg)
                               (GetPositionVector h) position = true).
Proof.
  intros near res.
  destruct (findAssociated_fold cfg projectedPositions availableClusters (∅, ∅))
    as (F1 & F2 & F3).
  subst near res. unfold findAssociated.
  cbn [fst snd] in F1, F2, F3. split; [|split; [|split]].
  - intros h. rewrite F1. set_solver.
  - intros p. rewrite F2, lookup_empty. split; [|by right].
    intros [[? ?]|?]; done.
  - intros p c Hpc. destruct (F3 p c Hpc) as [Hacc|?]; [|done].
    by rewrite lookup_empty in Hacc.
  - intros h. unfold nearProjection. rewrite existsb_exists.
    by setoid_rewrite <- list_elem_of_In.
Qed.

(** X10. The matched hits are the associated hits that have another
    associated hit closer than [m_maxHitDisplacement]; they are among the
    associated hits, and a lone associated hit is never matched. *)
Theorem matched_hits_have_a_neighbour {helpers : Helpers} (cfg : Settings)
    (associatedHits : CaloHitList) :
  (∀ h, h ∈ findMatchedHits cfg associatedHits ↔
        h ∈ associatedHits ∧
        ∃ h2, h2 ∈ associatedHits ∧ h2 ≠ h ∧
              closerThan (m_maxHitDisplacement cfg)
                         (GetPositionVector h) (GetPositionVector h2) = true) ∧
  findMatchedHits cfg associatedHits ⊆ associatedHits ∧
  (size associatedHits ≤ 1 → findMatchedHits cfg associatedHits = ∅).
Proof.
  assert (∀ h, h ∈ findMatchedHits cfg associatedHits ↔
               h ∈ associatedHits ∧ isGoodHit cfg associatedHits h = true) as Hm.
  { intros h. unfold findMatchedHits. rewrite findMatchedHits_fold, elem_of_elements.
    set_solver. }
  split; [|split].
  - intros h. by rewrite Hm, isGoodHit_spec.
  - intros h Hh. by apply Hm in Hh as [? _].
  - intros Hsz. apply set_eq. intros h. split; [|set_solver].
    intros [Hh (h2 & Hh2 & Hne & _)%isGoodHit_spec]%Hm. exfalso.
    by apply (size_two_elems associatedHits h h2).
Qed.

(** X11. The number of matched points is the number of projected positions
    with a matched hit closer than [m_maxPointDisplacement]: it never exceeds
    the number of projected positions and is 0 without matched hits. *)
Theorem matched_points_count {helpers : Helpers} (cfg : Settings)
    (projectedPositions : list CartesianVector) (matchedHits : CaloHitList) :
  let covered position :=
    existsb (λ h, closerThan (m_maxPointDisplacement cfg) (GetPositionVector h) position)
            (elements matchedHits) in
  countMatchedPoints cfg projectedPositions matchedHits
  = N.of_nat (length (filter (λ position, covered position = true) projectedPositions)) ∧
  (countMatchedPoints cfg projectedPositions matchedHits
   ≤ N.of_nat (length projectedPositions))%N ∧
  (matchedHits = ∅ → countMatchedPoints cfg projectedPositions matchedHits = 0%N).
Proof.
  intros covered.
  assert (∀ ps n,
            foldl (λ nMatchedPoints position,
                     if covered position then (nMatchedPoints + 1)%N else nMatchedPoints)
                  n ps
            = (n + N.of_nat (length (filter (λ position, covered position = true) ps)))%N)
    as Hfold.
  { induction ps as [|p ps IH]; intros n; cbn [foldl].
    - cbn. lia.
    - rewrite IH, filter_cons. destruct (covered p) eqn:Hc.
      + rewrite decide_True by done. cbn [length]. lia.
      + rewrite decide_False by done. lia. }
  assert (countMatchedPoints cfg projectedPositions matchedHits
          = N.of_nat (length (filter (λ position, covered position = true)
                                     projectedPositions))) as Hcount.
  { unfold countMatchedPoints.
    etransitivity; [exact (Hfold projectedPositions 0%N)|]. lia. }
  split; [done|]. split.
  - rewrite Hcount. pose proof (length_filter (λ position, covered position = true)
                                  projectedPositions). lia.
  - intros Hempty. rewrite Hcount.
    assert (∀ position, covered position = false) as Hnone.
    { intros position. unfold covered. by rewrite Hempty, elements_empty. }
    assert (∀ ps, filter (λ position, covered position = true) ps = []) as Hnil.
    { induction ps as [|p ps IH]; [done|].
      rewrite filter_cons, decide_False; [apply IH|]. by rewrite Hnone. }
    by rewrite Hnil.
Qed.

(** ** What one pair evaluation and the whole matching pass record *)

Section Recording.
Context {helpers : Helpers} (cfg : Settings).

(** A pair either leaves the maps as they are or has passed every filter. *)
Lemma SelectMatchedTracks_pair_accepts clusterID fit1 fit2 availableClusters maps :
  SelectMatchedTracks_pair cfg clusterID fit1 fit2 availableClusters maps = maps ∨
  ∃ projectedPositions associatedHits associatedClusters,
    projectedPositions ≠ [] ∧
    findAssociated cfg projectedPositions availableClusters
    = (associatedHits, associatedClusters) ∧
    (m_minMatchedHits cfg ≤ N.of_nat (size (findMatchedHits cfg associatedHits)))%N ∧
    coverageRejected cfg projectedPositions (findMatchedHits cfg associatedHits) = false ∧
    SelectMatchedTracks_pair cfg clusterID fit1 fit2 availableClusters maps
    = storeAssociations clusterID (findMatchedHits cfg associatedHits) maps.
Proof.
  unfold SelectMatchedTracks_pair.
  destruct (GetClusterSpanX (GetCluster fit1).2) as [xMin1 xMax1].
  destruct (GetClusterSpanX (GetCluster fit2).2) as [xMin2 xMax2].
  destruct (overlapRejected _ _ _ _ _); [by left|].
  destruct (sampleProjections _ _ _ _ _ _) as [|pos ps] eqn:Hp; [by left|].
  destruct (findAssociated _ _ _) as [associatedHits associatedClusters] eqn:Ha.
  destruct (negb _); [by left|].
  destruct (_ <? _)%N eqn:Hlt; [by left|].
  destruct (coverageRejected _ _ _) eqn:Hc; [by left|].
  right. exists (pos :: ps), associatedHits, associatedClusters.
  split; [discriminate|]. split; [exact Ha|]. split; [by apply N.ltb_ge|].
  split; [exact Hc | reflexivity].
Qed.

(** A property of the maps that every pair evaluation keeps is kept by the
    whole pass. *)
Lemma SelectMatchedTracks_invariant
    (P : HitAssociationMap * ClusterAssociationMap → Prop)
    fitMap clusterVector1 clusterVector2 clusterVector3 maps :
  (∀ clusterID fit1 fit2 m,
     P m → P (SelectMatchedTracks_pair cfg clusterID fit1 fit2 clusterVector3 m)) →
  P maps →
  P (SelectMatchedTracks cfg fitMap clusterVector1 clusterVector2 clusterVector3 maps).
Proof.
  intros Hstep Hmaps. unfold SelectMatchedTracks.
  destruct clusterVector1 as [|e1 v1]; [done|].
  destruct clusterVector2 as [|e2 v2]; [done|].
  destruct clusterVector3 as [|e3 v3]; [done|].
  case_decide; [done|].
  generalize (e1 :: v1) (e2 :: v2) (0%N, maps) (Hmaps : P (0%N, maps).2).
  intros rows cols. induction rows as [|r rows IH]; intros acc Hacc; [done|].
  cbn [foldl]. apply IH. unfold row_step. destruct (fitMap !! r.1) as [fit1|]; [|done].
  clear IH. revert acc Hacc. induction cols as [|c cols IHc]; intros acc Hacc; [done|].
  cbn [foldl]. apply IHc. unfold pair_step. destruct (fitMap !! c.1); [|done].
  cbn [snd]. by apply Hstep.
Qed.

End Recording.

(** The matched hits of an accepted pair are hits of the given clusters. *)
Lemma matched_from_clusters {helpers : Helpers} (cfg : Settings)
    (projectedPositions : list CartesianVector) (availableClusters : ClusterVector)
    (associatedHits : CaloHitList) (associatedClusters : ClusterList) (h : CaloHit) :
  findAssociated cfg projectedPositions availableClusters
  = (associatedHits, associatedClusters) →
  h ∈ findMatchedHits cfg associatedHits →
  ∃ p c, (p, c) ∈ availableClusters ∧ h ∈ GetCaloHitList c.
Proof.
  intros Ha Hm. unfold findMatchedHits in Hm.
  apply findMatchedHits_fold in Hm as [Hm|[Hm _]]; [set_solver|].
  apply elem_of_elements in Hm.
  destruct (findAssociated_fold cfg projectedPositions availableClusters (∅, ∅))
    as (F1 & _).
  unfold findAssociated in Ha. rewrite Ha in F1. cbn [fst] in F1.
  apply F1 in Hm as [Hm|(p & c & ? & ? & _)]; [set_solver|]. by exists p, c.
Qed.

(** What an evaluation that stores something has stored. *)
Lemma pair_effects {helpers : Helpers} (cfg : Settings) (clusterID : N)
    (fit1 fit2 : TwoDSlidingFitResult) (availableClusters : ClusterVector)
    (maps : HitAssociationMap * ClusterAssociationMap) :
  let res := SelectMatchedTracks_pair cfg clusterID fit1 fit2 availableClusters maps in
  res = maps ∨
  ∃ matchedHits : CaloHitList,
    (m_minMatchedHits cfg ≤ N.of_nat (size matchedHits))%N ∧
    (∀ h, h ∈ matchedHits → ∃ p c, (p, c) ∈ availableClusters ∧ h ∈ GetCaloHitList c) ∧
    (∀ h id, id ∈ mm_get res.1 h ↔
             id ∈ mm_get maps.1 h ∨ (id = clusterID ∧ h ∈ matchedHits)) ∧
    (∀ id h, h ∈ mm_get res.2 id ↔
             h ∈ mm_get maps.2 id ∨ (id = clusterID ∧ h ∈ matchedHits)).
Proof.
  intros res.
  destruct (SelectMatchedTracks_pair_accepts cfg clusterID fit1 fit2 availableClusters maps)
    as [Hsame|(ps & aH & aC & Hne & Ha & Hmin & Hcov & Hres)]; [by left|].
  right. exists (findMatchedHits cfg aH).
  destruct (storeAssociations_spec clusterID (findMatchedHits cfg aH) maps) as [S1 S2].
  subst res. rewrite Hres. split; [exact Hmin|]. split; [|split; [exact S1 | exact S2]].
  intros h Hh. exact (matched_from_clusters cfg ps availableClusters aH aC h Ha Hh).
Qed.

(** X12. One pair evaluation removes no association, changes no entry of
    another candidate, and when it changes the maps at all it has recorded at
    least [m_minMatchedHits] hits under its own identifier; a hit it adds is a
    hit of one of the given clusters of the third view. *)
Theorem pair_evaluation_effects {helpers : Helpers} (cfg : Settings) (clusterID : N)
    (fit1 fit2 : TwoDSlidingFitResult) (availableClusters : ClusterVector)
    (maps : HitAssociationMap * ClusterAssociationMap) :
  let res := SelectMatchedTracks_pair cfg clusterID fit1 fit2 availableClusters maps in
  (∀ h id, id ∈ mm_get maps.1 h → id ∈ mm_get res.1 h) ∧
  (∀ id h, h ∈ mm_get maps.2 id → h ∈ mm_get res.2 id) ∧
  (∀ id h, id ≠ clusterID →
     (h ∈ mm_get res.2 id ↔ h ∈ mm_get maps.2 id) ∧
     (id ∈ mm_get res.1 h ↔ id ∈ mm_get maps.1 h)) ∧
  (∀ h, h ∈ mm_get res.2 clusterID → h ∉ mm_get maps.2 clusterID →
     ∃ p c, (p, c) ∈ availableClusters ∧ h ∈ GetCaloHitList c) ∧
  (res ≠ maps →
     (m_minMatchedHits cfg ≤ N.of_nat (size (mm_get res.2 clusterID)))%N).
Proof.
  intros res.
  destruct (pair_effects cfg clusterID fit1 fit2 availableClusters maps)
    as [Hsame|(matchedHits & Hmin & Hfrom & S1 & S2)]; fold res in Hsame || fold res in S1, S2.
  { rewrite Hsame. split; [tauto|]. split; [tauto|]. split; [tauto|]. split; tauto. }
  split; [|split; [|split; [|split]]].
  - intros h id Hin. apply S1. by left.
  - intros id h Hin. apply S2. by left.
  - intros id h Hid. rewrite S1, S2. tauto.
  - intros h Hin Hnot. apply S2 in Hin as [?|[_ Hm]]; [tauto | by apply Hfrom].
  - intros _.
    assert (matchedHits ⊆ mm_get res.2 clusterID) as Hsub.
    { intros h Hh. apply S2. by right. }
    apply subseteq_size in Hsub. lia.
Qed.

(** X13. After a matching pass started on empty maps the two association
    maps are transposes of each other: a candidate is in a hit's entry exactly
    when the hit is in the candidate's entry. *)
Theorem association_maps_transposed {helpers : Helpers} (cfg : Settings)
    (fitMap : gmap ClusterPtr TwoDSlidingFitResult)
    (clusterVector1 clusterVector2 clusterVector3 : ClusterVector) :
  let res := SelectMatchedTracks cfg fitMap clusterVector1 clusterVector2 clusterVector3
                                 (∅, ∅) in
  ∀ id h, id ∈ mm_get res.1 h ↔ h ∈ mm_get res.2 id.
Proof.
  apply (SelectMatchedTracks_invariant cfg
           (λ m, ∀ id h, id ∈ mm_get m.1 h ↔ h ∈ mm_get m.2 id)).
  - intros clusterID fit1 fit2 m Hm.
    destruct (pair_effects cfg clusterID fit1 fit2 clusterVector3 m)
      as [->|(matchedHits & _ & _ & S1 & S2)]; [exact Hm|].
    intros id h. rewrite S1, S2, (Hm id h). tauto.
  - intros id h. cbn [fst snd]. rewrite !mm_get_empty. set_solver.
Qed.

(** X14. After a matching pass started on empty maps every candidate with an
    entry holds at least [m_minMatchedHits] hits. *)
Theorem recorded_candidates_have_min_hits {helpers : Helpers} (cfg : Settings)
    (fitMap : gmap ClusterPtr TwoDSlidingFitResult)
    (clusterVector1 clusterVector2 clusterVector3 : ClusterVector) :
  let res := SelectMatchedTracks cfg fitMap clusterVector1 clusterVector2 clusterVector3
                                 (∅, ∅) in
  ∀ id h, h ∈ mm_get res.2 id →
          (m_minMatchedHits cfg ≤ N.of_nat (size (mm_get res.2 id)))%N.
Proof.
  apply (SelectMatchedTracks_invariant cfg
           (λ m, ∀ id h, h ∈ mm_get m.2 id →
                         (m_minMatchedHits cfg ≤ N.of_nat (size (mm_get m.2 id)))%N)).
  - intros clusterID fit1 fit2 m Hm.
    destruct (pair_effects cfg clusterID fit1 fit2 clusterVector3 m)
      as [->|(matchedHits & Hmin & _ & _ & S2)]; [exact Hm|].
    intros id h Hin. destruct (decide (id = clusterID)) as [->|Hne].
    + assert (matchedHits ⊆ mm_get
                (SelectMatchedTracks_pair cfg clusterID fit1 fit2 clusterVector3 m).2
                clusterID) as Hsub by (intros h' Hh'; apply S2; by right).
      apply subseteq_size in Hsub. lia.
    + assert (mm_get (SelectMatchedTracks_pair cfg clusterID fit1 fit2 clusterVector3 m).2 id
              = mm_get m.2 id) as Heq.
      { apply set_eq. intros h'. rewrite S2. tauto. }
      rewrite Heq in Hin |- *. by apply (Hm id h).
  - intros id h. cbn [snd]. rewrite mm_get_empty. set_solver.
Qed.

(** X15. A matching pass started on empty maps records only hits of the
    clusters of its third vector: the view the pass is to re-partition. *)
Theorem recorded_hits_are_third_view_hits {helpers : Helpers} (cfg : Settings)
    (fitMap : gmap ClusterPtr TwoDSlidingFitResult)
    (clusterVector1 clusterVector2 clusterVector3 : ClusterVector) :
  let res := SelectMatchedTracks cfg fitMap clusterVector1 clusterVector2 clusterVector3
                                 (∅, ∅) in
  ∀ id h, h ∈ mm_get res.2 id →
          ∃ p c, (p, c) ∈ clusterVector3 ∧ h ∈ GetCaloHitList c.
Proof.
  apply (SelectMatchedTracks_invariant cfg
           (λ m, ∀ id h, h ∈ mm_get m.2 id →
                         ∃ p c, (p, c) ∈ clusterVector3 ∧ h ∈ GetCaloHitList c)).
  - intros clusterID fit1 fit2 m Hm.
    destruct (pair_effects cfg clusterID fit1 fit2 clusterVector3 m)
      as [->|(matchedHits & _ & Hfrom & _ & S2)]; [exact Hm|].
    intros id h Hin. apply S2 in Hin as [Hin|[_ Hin]]; [by apply (Hm id h) | by apply Hfrom].
  - intros id h. cbn [snd]. rewrite mm_get_empty. set_solver.
Qed.

(** X16. A matching pass does nothing when one of its three vectors is
    empty, when two of the three leading clusters have the same hit type, or
    when no cluster of the first or of the second vector has a fit result. *)
Theorem matching_pass_noop {helpers : Helpers} (cfg : Settings)
    (fitMap : gmap ClusterPtr TwoDSlidingFitResult)
    (clusterVector1 clusterVector2 clusterVector3 : ClusterVector)
    (maps : HitAssociationMap * ClusterAssociationMap) :
  clusterVector1 = [] ∨ clusterVector2 = [] ∨ clusterVector3 = [] ∨
  (∃ e1 e2 e3 r1 r2 r3,
     clusterVector1 = e1 :: r1 ∧ clusterVector2 = e2 :: r2 ∧ clusterVector3 = e3 :: r3 ∧
     (GetClusterHitType e1.2 = GetClusterHitType e2.2 ∨
      GetClusterHitType e2.2 = GetClusterHitType e3.2 ∨
      GetClusterHitType e3.2 = GetClusterHitType e1.2)) ∨
  (∀ e, e ∈ clusterVector1 → fitMap !! e.1 = None) ∨
  (∀ e, e ∈ clusterVector2 → fitMap !! e.1 = None) →
  SelectMatchedTracks cfg fitMap clusterVector1 clusterVector2 clusterVector3 maps = maps.
Proof.
  intros Hcase. unfold SelectMatchedTracks.
  destruct clusterVector1 as [|e1 v1]; [reflexivity|].
  destruct clusterVector2 as [|e2 v2]; [reflexivity|].
  destruct clusterVector3 as [|e3 v3]; [reflexivity|].
  case_decide as Ht; [reflexivity|].
  destruct Hcase as [?|[?|[?|[Hty|Hnofit]]]]; try discriminate.
  { destruct Hty as (a1 & a2 & a3 & r1 & r2 & r3 & [= <- <-] & [= <- <-] & [= <- <-] & Hty).
    tauto. }
  assert (∀ rows acc,
            (∀ e, e ∈ rows → fitMap !! e.1 = None) ∨
            (∀ e, e ∈ e2 :: v2 → fitMap !! e.1 = None) →
            foldl (row_step cfg fitMap (e2 :: v2) (e3 :: v3)) acc rows = acc) as Hrows.
  { induction rows as [|r rows IH]; intros acc Hno; [reflexivity|].
    cbn [foldl]. assert (row_step cfg fitMap (e2 :: v2) (e3 :: v3) acc r = acc) as ->.
    { unfold row_step. destruct (fitMap !! r.1) as [fit1|] eqn:Hr; [|reflexivity].
      destruct Hno as [Hno|Hno]; [rewrite (Hno r) in Hr by set_solver; discriminate|].
      revert Hno. generalize (e2 :: v2). intros cols Hno.
      revert acc. induction cols as [|c cols IHc]; intros acc; [reflexivity|].
      cbn [foldl]. unfold pair_step at 2. rewrite (Hno c) by set_solver.
      apply IHc. intros e He. apply Hno. set_solver. }
    apply IH. destruct Hno as [Hno|Hno]; [left|by right].
    intros e He. apply Hno. set_solver. }
  by rewrite Hrows.
Qed.

(** ** Candidate identifiers *)

Section Identifiers.
Context {helpers : Helpers} (cfg : Settings).
Context (fitMap : gmap ClusterPtr TwoDSlidingFitResult).

(** The fit results of the clusters of a vector that have one, in order. *)
Definition fitsOf (clusterVector : ClusterVector) : list TwoDSlidingFitResult :=
  omap (λ entry : ClusterPtr * Cluster, fitMap !! entry.1) clusterVector.

(** The pairs a pass evaluates, row by row. *)
Definition evaluatedPairs (clusterVector1 clusterVector2 : ClusterVector) :
    list (TwoDSlidingFitResult * TwoDSlidingFitResult) :=
  flat_map (λ fit1, (λ fit2, (fit1, fit2)) <$> fitsOf clusterVector2) (fitsOf clusterVector1).

(** Evaluate the pairs numbered [done + 1], [done + 2], ... *)
Fixpoint evaluateFrom (done : nat) (clusterVector3 : ClusterVector)
    (pairs : list (TwoDSlidingFitResult * TwoDSlidingFitResult))
    (maps : HitAssociationMap * ClusterAssociationMap) :
    HitAssociationMap * ClusterAssociationMap :=
  match pairs with
  | [] => maps
  | (fit1, fit2) :: pairs' =>
      evaluateFrom (S done) clusterVector3 pairs'
        (SelectMatchedTracks_pair cfg (N.of_nat (S done) mod 2 ^ 32)%N fit1 fit2
                                  clusterVector3 maps)
  end.

Lemma next_clusterID_of_nat (n : nat) :
  next_clusterID (N.of_nat n mod 2 ^ 32)%N = (N.of_nat (S n) mod 2 ^ 32)%N.
Proof.
  unfold next_clusterID. rewrite N.Div0.add_mod_idemp_l.
  f_equal. lia.
Qed.

Lemma pair_step_fold fit1 clusterVector3 (cols : ClusterVector) (n : nat) maps :
  foldl (pair_step cfg fitMap fit1 clusterVector3) ((N.of_nat n mod 2 ^ 32)%N, maps) cols
  = ((N.of_nat (n + length (fitsOf cols)) mod 2 ^ 32)%N,
     evaluateFrom n clusterVector3 ((λ fit2, (fit1, fit2)) <$> fitsOf cols) maps).
Proof.
  revert n maps. induction cols as [|c cols IH]; intros n maps.
  - cbn. by rewrite Nat.add_0_r.
  - cbn [foldl]. unfold pair_step at 2, fitsOf. cbn [omap list_omap fst snd].
    destruct (fitMap !! c.1) as [fit2|]; [|apply IH].
    rewrite next_clusterID_of_nat. fold (fitsOf cols). rewrite IH.
    cbn [length fmap list_fmap evaluateFrom]. do 3 f_equal. lia.
Qed.

Lemma evaluateFrom_app n clusterVector3 pairs1 pairs2 maps :
  evaluateFrom n clusterVector3 (pairs1 ++ pairs2) maps
  = evaluateFrom (n + length pairs1) clusterVector3 pairs2
                 (evaluateFrom n clusterVector3 pairs1 maps).
Proof.
  revert n maps. induction pairs1 as [|[f1 f2] pairs1 IH]; intros n maps.
  - cbn. by rewrite Nat.add_0_r.
  - cbn [app evaluateFrom length]. rewrite IH. f_equal. lia.
Qed.

Lemma evaluatedPairs_cons (r : ClusterPtr * Cluster) (rows clusterVector2 : ClusterVector) :
  evaluatedPairs (r :: rows) clusterVector2
  = match fitMap !! r.1 with
    | Some fit1 =>
        ((λ fit2, (fit1, fit2)) <$> fitsOf clusterVector2) ++ evaluatedPairs rows clusterVector2
    | None => evaluatedPairs rows clusterVector2
    end.
Proof.
  assert (fitsOf (r :: rows)
          = match fitMap !! r.1 with
            | Some fit1 => fit1 :: fitsOf rows
            | None => fitsOf rows
            end) as Hcons by reflexivity.
  unfold evaluatedPairs. rewrite Hcons.
  by destruct (fitMap !! r.1).
Qed.

Lemma row_step_fold clusterVector2 clusterVector3 (rows : ClusterVector) (n : nat) maps :
  foldl (row_step cfg fitMap clusterVector2 clusterVector3)
        ((N.of_nat n mod 2 ^ 32)%N, maps) rows
  = ((N.of_nat (n + length (evaluatedPairs rows clusterVector2)) mod 2 ^ 32)%N,
     evaluateFrom n clusterVector3 (evaluatedPairs rows clusterVector2) maps).
Proof.
  revert n maps. induction rows as [|r rows IH]; intros n maps.
  - cbn. by rewrite Nat.add_0_r.
  - cbn [foldl]. unfold row_step at 2. rewrite evaluatedPairs_cons.
    destruct (fitMap !! r.1) as [fit1|]; [|apply IH].
    rewrite pair_step_fold, IH.
    rewrite evaluateFrom_app, length_app, !length_fmap.
    do 3 f_equal. lia.
Qed.

End Identifiers.

(** X17. With three non-empty vectors whose leading clusters have three
    different hit types, the pass evaluates the pairs of fitted clusters row
    by row (first vector outside, second inside) and gives the k-th evaluated
    pair, counted from 1, the identifier [k mod 2^32]. *)
Theorem candidate_identifiers_count_pairs {helpers : Helpers} (cfg : Settings)
    (fitMap : gmap ClusterPtr TwoDSlidingFitResult)
    (e1 e2 e3 : ClusterPtr * Cluster) (r1 r2 r3 : ClusterVector)
    (maps : HitAssociationMap * ClusterAssociationMap) :
  GetClusterHitType e1.2 ≠ GetClusterHitType e2.2 →
  GetClusterHitType e2.2 ≠ GetClusterHitType e3.2 →
  GetClusterHitType e3.2 ≠ GetClusterHitType e1.2 →
  SelectMatchedTracks cfg fitMap (e1 :: r1) (e2 :: r2) (e3 :: r3) maps
  = evaluateFrom cfg 0 (e3 :: r3) (evaluatedPairs fitMap (e1 :: r1) (e2 :: r2)) maps.
Proof.
  intros H12 H23 H31. unfold SelectMatchedTracks.
  rewrite decide_False by tauto.
  change 0%N with (N.of_nat 0 mod 2 ^ 32)%N.
  by rewrite row_step_fold.
Qed.

(** ** Input selection *)

(** X18. With the list in the store, [GetAvailableClusters] leaves the store
    as it is and appends the available clusters of the list to the caller's
    vector: it returns [STATUS_CODE_NOT_FOUND] exactly when the vector is
    empty afterwards (the caller's vector was empty and the list has no
    available cluster), and otherwise a non-empty rearrangement of the
    caller's vector followed by the available clusters, each of them once.
    On an empty caller's vector, as [Run] passes, the result holds exactly
    the available clusters of the list. *)
Theorem available_clusters_vector {helpers : Helpers} (name : string)
    (clusterVector : ClusterVector) (s : Pandora) (l : ClusterList) :
  lists s !! name = Some l →
  match GetAvailableClusters name clusterVector s with
  | (Ok sorted, s') =>
      s' = s ∧ sorted ≠ [] ∧
      sorted ≡ₚ clusterVector
                ++ filter (λ entry, IsAvailable entry.2 = true) (map_to_list l) ∧
      (∀ p c, (p, c) ∈ sorted ↔
              (p, c) ∈ clusterVector ∨ (l !! p = Some c ∧ IsAvailable c = true)) ∧
      (clusterVector = [] → NoDup sorted.*1)
  | (Err st, s') =>
      s' = s ∧ st = STATUS_CODE_NOT_FOUND ∧ clusterVector = [] ∧ noneAvailable l
  end.
Proof.
  intros Hl. unfold GetAvailableClusters, bind, PandoraContentApi.GetList. rewrite Hl.
  rewrite available_fold.
  set (avail := filter (λ entry : ClusterPtr * Cluster, IsAvailable entry.2 = true)
                       (map_to_list l)).
  assert (∀ p c, (p, c) ∈ avail ↔ l !! p = Some c ∧ IsAvailable c = true) as Hin.
  { intros p c. unfold avail. rewrite list_elem_of_filter, elem_of_map_to_list.
    cbn [snd]. tauto. }
  destruct (clusterVector ++ avail) as [|e es] eqn:Happ.
  - apply app_eq_nil in Happ as [Hv Hav].
    split; [done|]. split; [done|]. split; [exact Hv|]. intros p c Hp.
    destruct (IsAvailable c) eqn:Hc; [|done].
    assert ((p, c) ∈ avail) as Hnil by (by apply Hin).
    rewrite Hav in Hnil. by apply elem_of_nil in Hnil.
  - unfold ret.
    pose proof (merge_sort_Permutation
                  (λ a b : ClusterPtr * Cluster, SortByNHits a.2 b.2 = true)
                  (H := SortByNHits_dec) (e :: es))
      as Hperm.
    split; [done|]. split; [|split; [|split]].
    + intros Hnil. rewrite Hnil in Hperm. by apply Permutation_nil_l in Hperm.
    + exact Hperm.
    + intros p c. rewrite Hperm, <- Happ, elem_of_app, Hin. tauto.
    + intros Hv. rewrite Hperm, <- Happ, Hv. cbn [app]. unfold avail.
      apply (sublist_NoDup _ (map_to_list l).*1); [apply NoDup_fst_map_to_list|].
      apply fmap_sublist, sublist_filter.
Qed.

(** X19. [SelectCleanClusters] appends to the caller's output vector, in
    their order, exactly the clusters of the input vector whose squared
    length is not below the square of [m_clusterMinLength]; on an empty
    output vector, as [Run] passes, the result is a sublist of the input and
    selecting again from it changes nothing. *)
Theorem clean_clusters_selection {helpers : Helpers} (cfg : Settings)
    (inputVector outputVector : ClusterVector) :
  let longEnough (entry : ClusterPtr * Cluster) :=
    Float32.ltb (GetLengthSquared entry.2)
                (Float32.mul (m_clusterMinLength cfg) (m_clusterMinLength cfg)) = false in
  SelectCleanClusters cfg inputVector outputVector
  = outputVector ++ filter longEnough inputVector ∧
  SelectCleanClusters cfg inputVector [] `sublist_of` inputVector ∧
  SelectCleanClusters cfg (SelectCleanClusters cfg inputVector []) []
  = SelectCleanClusters cfg inputVector [].
Proof.
  intros longEnough.
  assert (∀ v acc,
            foldl (λ outputVector (entry : ClusterPtr * Cluster),
                     if Float32.ltb (GetLengthSquared entry.2)
                          (Float32.mul (m_clusterMinLength cfg) (m_clusterMinLength cfg))
                     then outputVector else outputVector ++ [entry]) acc v
            = acc ++ filter longEnough v) as Hfold.
  { induction v as [|e v IH]; intros acc; cbn [foldl].
    - by rewrite app_nil_r.
    - rewrite IH, filter_cons.
      destruct (decide (longEnough e)) as [Hd|Hd]; unfold longEnough in Hd.
      + rewrite Hd. by rewrite <- app_assoc.
      + apply not_false_is_true in Hd. by rewrite Hd. }
  assert (∀ v out, SelectCleanClusters cfg v out = out ++ filter longEnough v) as Heq.
  { intros v out. unfold SelectCleanClusters. by rewrite Hfold. }
  split; [apply Heq|]. split.
  - rewrite Heq. apply sublist_filter.
  - rewrite !Heq. cbn [app]. rewrite list_filter_filter. apply list_filter_iff. tauto.
Qed.

(** X20. [AddToSlidingFitResultMap] fits a cluster only when the map has no
    result for it: on success every result already in the map is kept, the
    keys are the old keys and the clusters of the vector, and a new result is
    the fit of a cluster of the vector; it fails only with the status of a
    failed fit of a cluster that had no result. *)
Theorem sliding_fit_map_memoizes {helpers : Helpers} (cfg : Settings)
    (clusterVector : ClusterVector)
    (slidingFitResultMap : gmap ClusterPtr TwoDSlidingFitResult) :
  match AddToSlidingFitResultMap cfg clusterVector slidingFitResultMap with
  | inr m' =>
      (∀ p fit, slidingFitResultMap !! p = Some fit → m' !! p = Some fit) ∧
      dom m' = dom slidingFitResultMap ∪ list_to_set clusterVector.*1 ∧
      (∀ p fit, m' !! p = Some fit →
         slidingFitResultMap !! p = Some fit ∨
         ∃ c, (p, c) ∈ clusterVector ∧
              LArTwoDSlidingFit (p, c) (m_halfWindowLayers cfg) = Ok fit)
  | inl st =>
      ∃ entry, entry ∈ clusterVector ∧ slidingFitResultMap !! entry.1 = None ∧
               LArTwoDSlidingFit entry (m_halfWindowLayers cfg) = Err st
  end.
Proof.
  unfold AddToSlidingFitResultMap.
  revert slidingFitResultMap. induction clusterVector as [|[p0 c0] v IH]; intros m.
  - cbn [for_each]. split; [done|]. split; [set_solver|]. intros p fit Hp. by left.
  - cbn [for_each fst].
    destruct (m !! p0) as [fit0|] eqn:Hm0.
    + specialize (IH m). destruct (for_each _ v m) as [st|m'].
      * destruct IH as (e & ? & ? & ?). exists e. set_solver.
      * destruct IH as (I1 & I2 & I3). split; [done|]. split.
        -- rewrite I2. apply elem_of_dom_2 in Hm0. set_solver.
        -- intros p fit Hp. destruct (I3 p fit Hp) as [?|(c & ? & ?)]; [by left|].
           right. exists c. set_solver.
    + destruct (LArTwoDSlidingFit (p0, c0) (m_halfWindowLayers cfg)) as [fit0|st] eqn:Hfit.
      2:{ exists (p0, c0). set_solver. }
      specialize (IH (<[p0 := fit0]> m)).
      destruct (for_each _ v (<[p0 := fit0]> m)) as [st|m'].
      * destruct IH as (e & Hin & Hnone & Herr). exists e. split; [set_solver|].
        split; [|done]. apply lookup_insert_None in Hnone. tauto.
      * destruct IH as (I1 & I2 & I3). split; [|split].
        -- intros p fit Hp. apply I1. rewrite lookup_insert_ne; [done|]. congruence.
        -- rewrite I2, dom_insert_L. set_solver.
        -- intros p fit Hp. destruct (I3 p fit Hp) as [Hold|(c & ? & ?)].
           ++ apply lookup_insert_Some in Hold as [[<- <-]|[_ ?]]; [|by left].
              right. exists c0. set_solver.
           ++ right. exists c. set_solver.
Qed.

(** ** The driver *)

Lemma ModifyClusters_other_list name ha ca s n :
  n ≠ name → lists (ModifyClusters name ha ca s).2 !! n = lists s !! n.
Proof.
  intros Hn. destruct (ModifyClusters_cases name ha ca s)
    as [->|(l & r & l' & _ & _ & _ & _ & -> & _)]; [done|].
  by rewrite lookup_insert_ne.
Qed.

Lemma ModifyClusters_dom name ha ca s :
  dom (lists (ModifyClusters name ha ca s).2) = dom (lists s).
Proof.
  destruct (ModifyClusters_cases name ha ca s)
    as [->|(l & r & l' & Hl & _ & _ & _ & -> & _)]; [done|].
  rewrite dom_insert_L. apply elem_of_dom_2 in Hl. set_solver.
Qed.

Lemma GetAvailableClusters_Ok {helpers : Helpers} name s v s' :
  GetAvailableClusters name [] s = (Ok v, s') →
  ∃ l p c, lists s !! name = Some l ∧ l !! p = Some c ∧ IsAvailable c = true.
Proof.
  unfold GetAvailableClusters, bind, PandoraContentApi.GetList.
  destruct (lists s !! name) as [l|] eqn:Hl; [|discriminate].
  rewrite available_fold. cbn [app].
  destruct (filter _ (map_to_list l)) as [|[p c] es] eqn:Hf; [discriminate|].
  intros _. exists l, p, c. split; [done|].
  assert ((p, c) ∈ filter (λ entry : ClusterPtr * Cluster, IsAvailable entry.2 = true)
                          (map_to_list l)) as Hin by (rewrite Hf; set_solver).
  apply list_elem_of_filter in Hin as [Hav Hin]. apply elem_of_map_to_list in Hin. done.
Qed.

Lemma Run_frame {helpers : Helpers} (cfg : Settings) (s : Pandora) (n : string) :
  (n ≠ m_inputClusterListNameU cfg ∧ n ≠ m_inputClusterListNameV cfg ∧
   n ≠ m_inputClusterListNameW cfg →
   lists (Run cfg s).2 !! n = lists s !! n) ∧
  dom (lists (Run cfg s).2) = dom (lists s).
Proof.
  unfold Run.
  pose proof (GetAvailableClusters_state (m_inputClusterListNameU cfg) [] s) as HU.
  destruct (GetAvailableClusters (m_inputClusterListNameU cfg) [] s) as [[avU|st] sU];
    cbn [snd] in HU; subst sU; [|done].
  pose proof (GetAvailableClusters_state (m_inputClusterListNameV cfg) [] s) as HV.
  destruct (GetAvailableClusters (m_inputClusterListNameV cfg) [] s) as [[avV|st] sV];
    cbn [snd] in HV; subst sV; [|done].
  pose proof (GetAvailableClusters_state (m_inputClusterListNameW cfg) [] s) as HW.
  destruct (GetAvailableClusters (m_inputClusterListNameW cfg) [] s) as [[avW|st] sW];
    cbn [snd] in HW; subst sW; [|done].
  destruct (AddToSlidingFitResultMap cfg _ ∅) as [st|m1]; [done|].
  destruct (AddToSlidingFitResultMap cfg _ m1) as [st|m2]; [done|].
  destruct (AddToSlidingFitResultMap cfg _ m2) as [st|m3]; [done|].
  cbv zeta.
  set (aW := SelectMatchedTracks cfg m3 _ _ avW (∅, ∅)).
  set (aU := SelectMatchedTracks cfg m3 _ _ avU (∅, ∅)).
  set (aV := SelectMatchedTracks cfg m3 _ _ avV (∅, ∅)).
  pose proof (ModifyClusters_other_list (m_inputClusterListNameU cfg) aU.1 aU.2 s n) as O1.
  pose proof (ModifyClusters_dom (m_inputClusterListNameU cfg) aU.1 aU.2 s) as D1.
  destruct (ModifyClusters (m_inputClusterListNameU cfg) aU.1 aU.2 s) as [st1 s1].
  cbn [snd] in O1, D1.
  pose proof (ModifyClusters_other_list (m_inputClusterListNameV cfg) aV.1 aV.2 s1 n) as O2.
  pose proof (ModifyClusters_dom (m_inputClusterListNameV cfg) aV.1 aV.2 s1) as D2.
  destruct st1; cbn [snd]; try (split; [intros (? & ? & ?); by apply O1 | done]).
  destruct (ModifyClusters (m_inputClusterListNameV cfg) aV.1 aV.2 s1) as [st2 s2].
  cbn [snd] in O2, D2.
  pose proof (ModifyClusters_other_list (m_inputClusterListNameW cfg) aW.1 aW.2 s2 n) as O3.
  pose proof (ModifyClusters_dom (m_inputClusterListNameW cfg) aW.1 aW.2 s2) as D3.
  destruct st2; cbn [snd];
    try (split; [intros (? & ? & ?); rewrite O2, O1; done | congruence]).
  destruct (ModifyClusters (m_inputClusterListNameW cfg) aW.1 aW.2 s2) as [st3 s3].
  cbn [snd] in O3, D3.
  destruct st3; cbn [snd];
    (split; [intros (? & ? & ?); rewrite O3, O2, O1; done | congruence]).
Qed.

(** X21. [Run] changes no list that was in the store before it other than
    the three input lists, and every list name of the store before [Run] is
    still a list name after it. *)
Theorem run_frames_other_lists {helpers : Helpers} (cfg : Settings) (s : Pandora) :
  (∀ n l, n ≠ m_inputClusterListNameU cfg → n ≠ m_inputClusterListNameV cfg →
          n ≠ m_inputClusterListNameW cfg →
          lists s !! n = Some l → lists (Run cfg s).2 !! n = Some l) ∧
  (∀ n, is_Some (lists s !! n) → is_Some (lists (Run cfg s).2 !! n)).
Proof.
  split.
  - intros n l HU HV HW Hl. destruct (Run_frame cfg s n) as [Hsame _].
    by rewrite Hsame.
  - intros n Hn. destruct (Run_frame cfg s n) as [_ Hdom].
    apply elem_of_dom. rewrite Hdom. by apply elem_of_dom.
Qed.

(** X22. [Run] returns [STATUS_CODE_SUCCESS] only when each of the three
    input lists is in the store and holds an available cluster. *)
Theorem run_success_needs_three_views {helpers : Helpers} (cfg : Settings) (s : Pandora) :
  (Run cfg s).1 = STATUS_CODE_SUCCESS →
  ∀ name, name = m_inputClusterListNameU cfg ∨ name = m_inputClusterListNameV cfg ∨
          name = m_inputClusterListNameW cfg →
          ∃ l p c, lists s !! name = Some l ∧ l !! p = Some c ∧ IsAvailable c = true.
Proof.
  unfold Run.
  pose proof (GetAvailableClusters_state (m_inputClusterListNameU cfg) [] s) as HU.
  destruct (GetAvailableClusters (m_inputClusterListNameU cfg) [] s) as [[avU|st] sU] eqn:EU;
    cbn [snd] in HU; subst sU.
  2:{ cbn [fst]. intros ->.
      destruct (lists s !! m_inputClusterListNameU cfg) as [l|] eqn:Hl.
      - destruct (GetAvailableClusters_present _ s l Hl) as [[v E]|E]; congruence.
      - unfold GetAvailableClusters, bind, PandoraContentApi.GetList in EU.
        rewrite Hl in EU. discriminate. }
  pose proof (GetAvailableClusters_state (m_inputClusterListNameV cfg) [] s) as HV.
  destruct (GetAvailableClusters (m_inputClusterListNameV cfg) [] s) as [[avV|st] sV] eqn:EV;
    cbn [snd] in HV; subst sV.
  2:{ cbn [fst]. intros ->.
      destruct (lists s !! m_inputClusterListNameV cfg) as [l|] eqn:Hl.
      - destruct (GetAvailableClusters_present _ s l Hl) as [[v E]|E]; congruence.
      - unfold GetAvailableClusters, bind, PandoraContentApi.GetList in EV.
        rewrite Hl in EV. discriminate. }
  pose proof (GetAvailableClusters_state (m_inputClusterListNameW cfg) [] s) as HW.
  destruct (GetAvailableClusters (m_inputClusterListNameW cfg) [] s) as [[avW|st] sW] eqn:EW;
    cbn [snd] in HW; subst sW.
  2:{ cbn [fst]. intros ->.
      destruct (lists s !! m_inputClusterListNameW cfg) as [l|] eqn:Hl.
      - destruct (GetAvailableClusters_present _ s l Hl) as [[v E]|E]; congruence.
      - unfold GetAvailableClusters, bind, PandoraContentApi.GetList in EW.
        rewrite Hl in EW. discriminate. }
  intros _ name [-> | [-> | ->]].
  - exact (GetAvailableClusters_Ok _ s avU s EU).
  - exact (GetAvailableClusters_Ok _ s avV s EV).
  - exact (GetAvailableClusters_Ok _ s avW s EW).
Qed.

(** ** Reading the settings *)

(** X23. When the three list names are read and no optional element is
    found (the reads leaving their variables as they were), [ReadSettings]
    succeeds and the members are the three names with the defaults 10, 15, 3,
    0.8, 1.5, 5, 0.8 and 10, whatever the members were before. *)
Theorem read_settings_defaults (xmlHandle : TiXmlHandle) (this : Settings)
    (nameU nameV nameW : string) :
  ReadString xmlHandle "InputClusterListNameU" (m_inputClusterListNameU this)
  = (STATUS_CODE_SUCCESS, nameU) →
  ReadString xmlHandle "InputClusterListNameV" (m_inputClusterListNameV this)
  = (STATUS_CODE_SUCCESS, nameV) →
  ReadString xmlHandle "InputClusterListNameW" (m_inputClusterListNameW this)
  = (STATUS_CODE_SUCCESS, nameW) →
  (∀ name t, ReadFloat xmlHandle name t = (STATUS_CODE_NOT_FOUND, t)) →
  (∀ name t, ReadUnsigned xmlHandle name t = (STATUS_CODE_NOT_FOUND, t)) →
  ReadSettingsFrom xmlHandle this
  = (STATUS_CODE_SUCCESS,
     mkSettings nameU nameV nameW Float32.f_10 15 Float32.f_3 Float32.f_0_8
                Float32.f_1_5 Float32.f_5 Float32.f_0_8 10).
Proof.
  intros HU HV HW Hf Hu.
  destruct this. cbn [m_inputClusterListNameU m_inputClusterListNameV
                      m_inputClusterListNameW] in HU, HV, HW.
  unfold ReadSettingsFrom. rewrite HU, HV, HW, !Hf, !Hu. reflexivity.
Qed.

(** X24. The matched-point fraction is read from the element named
    [MinMatchedPointraction]: what a handle answers under the name
    [MinMatchedPointFraction] has no effect on [ReadSettings]. *)
Theorem read_settings_ignores_MinMatchedPointFraction (xml1 xml2 : TiXmlHandle)
    (this : Settings) :
  (∀ name t, ReadString xml1 name t = ReadString xml2 name t) →
  (∀ name t, ReadUnsigned xml1 name t = ReadUnsigned xml2 name t) →
  (∀ name t, name ≠ "MinMatchedPointFraction" →
             ReadFloat xml1 name t = ReadFloat xml2 name t) →
  ReadSettingsFrom xml1 this = ReadSettingsFrom xml2 this ∧
  ((ReadSettingsFrom xml1 this).1 = STATUS_CODE_SUCCESS →
   m_minMatchedPointFraction (ReadSettingsFrom xml1 this).2
   = (ReadFloat xml1 "MinMatchedPointraction" Float32.f_0_8).2).
Proof.
  intros Hs Hu Hf. split.
  - destruct this. unfold ReadSettingsFrom. rewrite !Hs, !Hu.
    rewrite !Hf by discriminate. reflexivity.
  - destruct this. unfold ReadSettingsFrom.
    repeat match goal with
           | |- context [ReadString ?x ?n ?t] => destruct (ReadString x n t) as [? ?]
           | |- context [ReadFloat ?x ?n ?t] => destruct (ReadFloat x n t) as [? ?]
           | |- context [ReadUnsigned ?x ?n ?t] => destruct (ReadUnsigned x n t) as [? ?]
           | |- context [mandatoryFailed ?sc] =>
               destruct (mandatoryFailed sc) eqn:?; [cbn [fst]; intros ->; discriminate|]
           | |- context [optionalFailed ?sc] =>
               destruct (optionalFailed sc) eqn:?; [cbn [fst]; intros ->; discriminate|]
           end.
    reflexivity.
Qed.

Lemma mandatoryFailed_false (sc : StatusCode) :
  mandatoryFailed sc = false ↔ sc = STATUS_CODE_SUCCESS.
Proof.
  unfold mandatoryFailed. rewrite bool_decide_eq_false. split.
  - intros Hn. destruct (decide (sc = STATUS_CODE_SUCCESS)); [done | contradiction].
  - intros -> Hn. by apply Hn.
Qed.

Lemma optionalFailed_false (sc : StatusCode) :
  optionalFailed sc = false ↔ sc = STATUS_CODE_SUCCESS ∨ sc = STATUS_CODE_NOT_FOUND.
Proof.
  unfold optionalFailed. rewrite bool_decide_eq_false. split.
  - intros Hn. destruct (decide (sc = STATUS_CODE_SUCCESS)); [by left|].
    destruct (decide (sc = STATUS_CODE_NOT_FOUND)); [by right|]. exfalso. by apply Hn.
  - intros [-> | ->] [Hn1 Hn2]; [by apply Hn1 | by apply Hn2].
Qed.

(** X25. [ReadSettings] returns [STATUS_CODE_SUCCESS] exactly when the three
    list names are read with success and each of the eight optional reads
    returns success or [STATUS_CODE_NOT_FOUND]. *)
Theorem read_settings_status (xmlHandle : TiXmlHandle) (this : Settings) :
  let found (sc : StatusCode) := sc = STATUS_CODE_SUCCESS in
  let optional (sc : StatusCode) :=
    sc = STATUS_CODE_SUCCESS ∨ sc = STATUS_CODE_NOT_FOUND in
  (ReadSettingsFrom xmlHandle this).1 = STATUS_CODE_SUCCESS ↔
  found (ReadString xmlHandle "InputClusterListNameU" (m_inputClusterListNameU this)).1 ∧
  found (ReadString xmlHandle "InputClusterListNameV" (m_inputClusterListNameV this)).1 ∧
  found (ReadString xmlHandle "InputClusterListNameW" (m_inputClusterListNameW this)).1 ∧
  optional (ReadFloat xmlHandle "ClusterMinLength" Float32.f_10).1 ∧
  optional (ReadUnsigned xmlHandle "SlidingFitHalfWindow" 15%N).1 ∧
  optional (ReadFloat xmlHandle "MinXOverlap" Float32.f_3).1 ∧
  optional (ReadFloat xmlHandle "MinXOverlapFraction" Float32.f_0_8).1 ∧
  optional (ReadFloat xmlHandle "MaxPointDisplacement" Float32.f_1_5).1 ∧
  optional (ReadFloat xmlHandle "MaxHitDisplacement" Float32.f_5).1 ∧
  optional (ReadFloat xmlHandle "MinMatchedPointraction" Float32.f_0_8).1 ∧
  optional (ReadUnsigned xmlHandle "MinMatchedHits" 10%N).1.
Proof.
  intros found optional. subst found optional. cbv beta.
  destruct this. cbn [m_inputClusterListNameU m_inputClusterListNameV
                      m_inputClusterListNameW].
  unfold ReadSettingsFrom.
  repeat match goal with
         | |- context [ReadString ?x ?n ?t] =>
             destruct (ReadString x n t) as [? ?]; cbn [fst]
         | |- context [ReadFloat ?x ?n ?t] =>
             destruct (ReadFloat x n t) as [? ?]; cbn [fst]
         | |- context [ReadUnsigned ?x ?n ?t] =>
             destruct (ReadUnsigned x n t) as [? ?]; cbn [fst]
         end.
  repeat match goal with
         | |- context [if mandatoryFailed ?sc then _ else _] =>
             let E := fresh "E" in
             destruct (mandatoryFailed sc) eqn:E;
             [ assert (sc ≠ STATUS_CODE_SUCCESS) as Hfail
                 by (intros Hs; apply mandatoryFailed_false in Hs; congruence);
               cbn [fst]; split;
               [ intros Hs; destruct (Hfail Hs)
               | intros Hc; exfalso; apply Hfail;
                 repeat match goal with Hc : _ ∧ _ |- _ => destruct Hc end; assumption ]
             | apply mandatoryFailed_false in E ]
         | |- context [if optionalFailed ?sc then _ else _] =>
             let E := fresh "E" in
             destruct (optionalFailed sc) eqn:E;
             [ assert (¬ (sc = STATUS_CODE_SUCCESS ∨ sc = STATUS_CODE_NOT_FOUND)) as Hfail
                 by (intros Hs; apply optionalFailed_false in Hs; congruence);
               cbn [fst]; split;
               [ intros Hs; exfalso; apply Hfail; by left
               | intros Hc; exfalso; apply Hfail;
                 repeat match goal with Hc : _ ∧ _ |- _ => destruct Hc end; assumption ]
             | apply optionalFailed_false in E ]
         end.
  cbn [fst]. split; [intros _; repeat split; assumption | reflexivity].
Qed.

(** ** The cluster-span and coverage filters of one pair evaluation *)

Lemma goodClusters_spec {helpers : Helpers} (associatedClusters : ClusterList)
    (xMin1 xMax1 xMin2 xMax2 : float) :
  goodClusters associatedClusters xMin1 xMax1 xMin2 xMax2 = true ↔
  ∀ p c, associatedClusters !! p = Some c →
         Float32.ltb (Float32.min (Float32.sub xMax1 xMin1) (Float32.sub xMax2 xMin2))
                     (Float32.sub (GetClusterSpanX c).2 (GetClusterSpanX c).1) = false.
Proof.
  unfold goodClusters. rewrite forallb_forall. split.
  - intros Hall p c Hpc.
    assert (In (p, c) (map_to_list associatedClusters)) as Hin
      by (by apply list_elem_of_In, elem_of_map_to_list).
    apply Hall in Hin. cbn [snd] in Hin. destruct (GetClusterSpanX c) as [xMin xMax].
    by apply negb_true_iff in Hin.
  - intros Hall [p c] Hin. apply list_elem_of_In, elem_of_map_to_list in Hin.
    specialize (Hall p c Hin). cbn [snd]. destruct (GetClusterSpanX c) as [xMin xMax].
    cbn [fst snd] in Hall. by rewrite Hall.
Qed.

(** X26. The cluster-span filter: when some associated cluster of the third
    view spans more in x than the shorter of the two seed clusters, the pair
    evaluation leaves both association maps as they are. *)
Theorem span_filter_rejects {helpers : Helpers} (cfg : Settings) (clusterID : N)
    (fit1 fit2 : TwoDSlidingFitResult) (availableClusters : ClusterVector)
    (maps : HitAssociationMap * ClusterAssociationMap)
    (xMin1 xMax1 xMin2 xMax2 xMin xMax : float) (p : ClusterPtr) (c : Cluster) :
  GetClusterSpanX (GetCluster fit1).2 = (xMin1, xMax1) →
  GetClusterSpanX (GetCluster fit2).2 = (xMin2, xMax2) →
  (findAssociated cfg (sampleProjections fit1 fit2 xMin1 xMax1 xMin2 xMax2)
                  availableClusters).2 !! p = Some c →
  GetClusterSpanX c = (xMin, xMax) →
  Float32.ltb (Float32.min (Float32.sub xMax1 xMin1) (Float32.sub xMax2 xMin2))
              (Float32.sub xMax xMin) = true →
  SelectMatchedTracks_pair cfg clusterID fit1 fit2 availableClusters maps = maps.
Proof.
  intros H1 H2 Hpc Hc Hwide. unfold SelectMatchedTracks_pair. rewrite H1, H2.
  destruct (overlapRejected _ _ _ _ _); [reflexivity|].
  destruct (sampleProjections _ _ _ _ _ _) as [|pos ps]; [reflexivity|].
  destruct (findAssociated _ _ _) as [associatedHits associatedClusters].
  cbn [snd] in Hpc.
  destruct (goodClusters associatedClusters xMin1 xMax1 xMin2 xMax2) eqn:Hgood;
    [|reflexivity].
  exfalso. pose proof (proj1 (goodClusters_spec _ _ _ _ _) Hgood p c Hpc) as Hnot.
  rewrite Hc in Hnot. cbn [fst snd] in Hnot. congruence.
Qed.

Lemma countMatchedPoints_filter {helpers : Helpers} (cfg : Settings)
    (projectedPositions : list CartesianVector) (matchedHits : CaloHitList) :
  countMatchedPoints cfg projectedPositions matchedHits
  = N.of_nat (length (filter
       (λ position,
          existsb (λ h, closerThan (m_maxPointDisplacement cfg) (GetPositionVector h) position)
                  (elements matchedHits) = true)
       projectedPositions)).
Proof.
  unfold countMatchedPoints.
  set (covered := λ position,
         existsb (λ h, closerThan (m_maxPointDisplacement cfg) (GetPositionVector h) position)
                 (elements matchedHits)).
  change (foldl (λ nMatchedPoints position,
                   if covered position then (nMatchedPoints + 1)%N else nMatchedPoints)
                0%N projectedPositions
          = N.of_nat (length (filter (λ position, covered position = true)
                                     projectedPositions))).
  rewrite <- (N.add_0_l (N.of_nat _)). generalize 0%N.
  induction projectedPositions as [|p ps IH]; intros n; cbn [foldl].
  - cbn. lia.
  - rewrite IH, filter_cons. destruct (covered p) eqn:Hc.
    + rewrite decide_True by done. cbn [length]. lia.
    + rewrite decide_False by done. lia.
Qed.

(** X27. The coverage filter: when the projected positions with a matched
    hit closer than [m_maxPointDisplacement], counted and divided by the
    number of projected positions, fall below [m_minMatchedPointFraction],
    the pair evaluation leaves both association maps as they are. *)
Theorem coverage_filter_rejects {helpers : Helpers} (cfg : Settings) (clusterID : N)
    (fit1 fit2 : TwoDSlidingFitResult) (availableClusters : ClusterVector)
    (maps : HitAssociationMap * ClusterAssociationMap)
    (xMin1 xMax1 xMin2 xMax2 : float) :
  GetClusterSpanX (GetCluster fit1).2 = (xMin1, xMax1) →
  GetClusterSpanX (GetCluster fit2).2 = (xMin2, xMax2) →
  let projectedPositions := sampleProjections fit1 fit2 xMin1 xMax1 xMin2 xMax2 in
  let matchedHits :=
    findMatchedHits cfg (findAssociated cfg projectedPositions availableClusters).1 in
  let covered position :=
    existsb (λ h, closerThan (m_maxPointDisplacement cfg) (GetPositionVector h) position)
            (elements matchedHits) in
  Float32.ltb
    (Float32.div
       (Float32.of_N (N.of_nat (length (filter (λ position, covered position = true)
                                               projectedPositions))))
       (Float32.of_nat (length projectedPositions)))
    (m_minMatchedPointFraction cfg) = true →
  SelectMatchedTracks_pair cfg clusterID fit1 fit2 availableClusters maps = maps.
Proof.
  intros H1 H2 projectedPositions matchedHits covered Hlow.
  unfold SelectMatchedTracks_pair. rewrite H1, H2.
  destruct (overlapRejected _ _ _ _ _); [reflexivity|].
  fold projectedPositions. subst matchedHits covered. revert Hlow.
  generalize projectedPositions. clear projectedPositions.
  intros [|pos ps] Hlow; [reflexivity|].
  destruct (findAssociated cfg (pos :: ps) availableClusters)
    as [associatedHits associatedClusters].
  cbn [fst] in Hlow.
  destruct (negb _); [reflexivity|].
  destruct (_ <? _)%N; [reflexivity|].
  assert (coverageRejected cfg (pos :: ps) (findMatchedHits cfg associatedHits) = true)
    as ->; [|reflexivity].
  unfold coverageRejected.
  rewrite countMatchedPoints_filter. exact Hlow.
Qed.

(** ** The further properties on the scenario *)

Import ScenarioCommit ScenarioXml.

Lemma commit_status_witness :
  lists store !! "W" = Some listW ∧
  (ModifyClusters "W" claimedByStray claimsStray store).1 = STATUS_CODE_FAILURE.
Proof.
  assert (lists store !! "W" = Some listW) as Hl by (vm_compute; reflexivity).
  split; [exact Hl|].
  apply (proj1 (commit_status "W" claimedByStray claimsStray store listW Hl)).
  exists 1%N, 399%positive. split; [exact scenario_stray_claim|].
  split; vm_compute; lia.
Defined.

Lemma commit_failure_changes_nothing_witness :
  (ModifyClusters "W" claimedByStray claimsStray store).1 ≠ STATUS_CODE_SUCCESS ∧
  lists (ModifyClusters "W" claimedByStray claimsStray store).2 = lists store.
Proof.
  assert ((ModifyClusters "W" claimedByStray claimsStray store).1 ≠ STATUS_CODE_SUCCESS)
    as Hst by (vm_compute; discriminate).
  split; [exact Hst|].
  exact (commit_failure_changes_nothing "W" claimedByStray claimsStray store Hst).
Defined.

Lemma commit_keeps_unavailable_clusters_witness :
  viewList storeMixed "W" !! 4%positive = Some keptBack ∧
  IsAvailable keptBack = false ∧
  (ModifyClusters "W" claimedByConsumed claimsConsumed storeMixed).1 = STATUS_CODE_SUCCESS ∧
  viewList (ModifyClusters "W" claimedByConsumed claimsConsumed storeMixed).2 "W" !! 4%positive
  = Some keptBack.
Proof.
  assert (viewList storeMixed "W" !! 4%positive = Some keptBack) as Hq
    by (vm_compute; reflexivity).
  split; [exact Hq|]. split; [reflexivity|]. split; [vm_compute; reflexivity|].
  exact (commit_keeps_unavailable_clusters "W" claimedByConsumed claimsConsumed storeMixed
           4%positive keptBack Hq eq_refl).
Defined.

Lemma scenario_upper_unclaimed :
  ∀ h id, h ∈ GetCaloHitList (mkCluster true (hitsFrom 305 5)) →
          claims claimsConsumed id h → 1 < size (mm_get claimedByConsumed h).
Proof.
  intros h id Hh (hs & Hl & Hin). exfalso. unfold claimsConsumed in Hl.
  apply lookup_singleton_Some in Hl as [_ <-].
  apply elem_of_singleton in Hin. subst h. revert Hh.
  apply (bool_decide_unpack _). vm_compute. exact I.
Qed.

Lemma commit_keeps_unclaimed_clusters_witness :
  viewList store "W" !! 4%positive = Some (mkCluster true (hitsFrom 305 5)) ∧
  (ModifyClusters "W" claimedByConsumed claimsConsumed store).1 = STATUS_CODE_SUCCESS ∧
  viewList (ModifyClusters "W" claimedByConsumed claimsConsumed store).2 "W" !! 4%positive
  = Some (mkCluster true (hitsFrom 305 5)).
Proof.
  assert (viewList store "W" !! 4%positive = Some (mkCluster true (hitsFrom 305 5))) as Hq
    by (vm_compute; reflexivity).
  split; [exact Hq|]. split; [vm_compute; reflexivity|].
  exact (commit_keeps_unclaimed_clusters "W" claimedByConsumed claimsConsumed store
           4%positive _ Hq scenario_upper_unclaimed).
Defined.

Lemma commit_makes_no_empty_cluster_witness :
  viewList (ModifyClusters "W" ∅ ∅ storeHollow).2 "W" !! 3%positive = Some hollow ∧
  viewList storeHollow "W" !! 3%positive = Some hollow.
Proof.
  assert (viewList (ModifyClusters "W" ∅ ∅ storeHollow).2 "W" !! 3%positive = Some hollow)
    as Hq by (vm_compute; reflexivity).
  split; [exact Hq|].
  exact (commit_makes_no_empty_cluster "W" ∅ ∅ storeHollow 3%positive hollow Hq eq_refl).
Defined.

Lemma commit_creates_one_cluster_per_candidate_witness :
  foundNewClusters reassignmentW = true ∧
  size (clustersToCreate reassignmentW) = 2 ∧
  ∃ T l3 : ClusterList,
    viewList (ModifyClusters "W" claimedByW claimsW store).2 "W" = T ∪ l3 ∧ size T = 2.
Proof.
  assert (lists store !! "W" = Some listW) as Hl by (vm_compute; reflexivity).
  assert (BuildReassignment claimedByW claimsW (BuildOwnership listW).1 = inr reassignmentW)
    as Hr by (vm_compute; reflexivity).
  assert (foundNewClusters reassignmentW = true) as Hf by (vm_compute; reflexivity).
  assert (size (clustersToCreate reassignmentW) = 2) as Hsz by (vm_compute; reflexivity).
  split; [exact Hf|]. split; [exact Hsz|].
  destruct (commit_creates_one_cluster_per_candidate "W" claimedByW claimsW store listW
              reassignmentW Hl Hr Hf) as (T & l3 & Heq & _ & HT & _).
  exists T, l3. split; [exact Heq|]. rewrite HT. exact Hsz.
Defined.

Lemma matching_pass_noop_witness :
  @SelectMatchedTracks helpers cfg {[ 1%positive := fitU; 2%positive := fitV ]}
                       [fitU] [fitU] availableW (∅, ∅) = (∅, ∅).
Proof.
  apply (@matching_pass_noop helpers cfg).
  right; right; right; left.
  exists fitU, fitU, (3%positive, mkCluster true (hitsFrom 300 5)), [], [],
         [(4%positive, mkCluster true (hitsFrom 305 5))].
  split; [reflexivity|]. split; [reflexivity|]. split; [reflexivity|].
  left. reflexivity.
Defined.

Lemma candidate_identifiers_count_pairs_witness :
  @SelectMatchedTracks helpers cfg {[ 1%positive := fitU; 2%positive := fitV ]}
                       [fitU] [fitV] availableW (∅, ∅)
  = @SelectMatchedTracks_pair helpers cfg 1 fitU fitV availableW (∅, ∅).
Proof.
  unfold availableW.
  rewrite (@candidate_identifiers_count_pairs helpers cfg
             {[ 1%positive := fitU; 2%positive := fitV ]} fitU fitV
             (3%positive, mkCluster true (hitsFrom 300 5)) [] []
             [(4%positive, mkCluster true (hitsFrom 305 5))] (∅, ∅)).
  - reflexivity.
  - vm_compute. discriminate.
  - vm_compute. discriminate.
  - vm_compute. discriminate.
Defined.

Lemma available_clusters_vector_witness :
  lists storeConsumed !! "W" = Some consumedW ∧
  (@GetAvailableClusters helpers "W" [(9%positive, hollow)] storeConsumed).1
  = Ok [(9%positive, hollow)] ∧
  match @GetAvailableClusters helpers "W" [(9%positive, hollow)] storeConsumed with
  | (Ok sorted, s') =>
      s' = storeConsumed ∧ sorted ≠ [] ∧
      sorted ≡ₚ [(9%positive, hollow)]
                ++ filter (λ entry, IsAvailable entry.2 = true) (map_to_list consumedW) ∧
      (∀ p c, (p, c) ∈ sorted ↔
              (p, c) ∈ [(9%positive, hollow)]
              ∨ (consumedW !! p = Some c ∧ IsAvailable c = true)) ∧
      ([(9%positive, hollow)] = [] → NoDup sorted.*1)
  | (Err st, s') =>
      s' = storeConsumed ∧ st = STATUS_CODE_NOT_FOUND ∧ [(9%positive, hollow)] = []
      ∧ noneAvailable consumedW
  end.
Proof.
  assert (lists storeConsumed !! "W" = Some consumedW) as Hl by (vm_compute; reflexivity).
  split; [exact Hl|]. split; [vm_compute; reflexivity|].
  exact (@available_clusters_vector helpers "W" [(9%positive, hollow)] storeConsumed
           consumedW Hl).
Defined.

Lemma run_success_needs_three_views_witness :
  (@Run helpers cfg store).1 = STATUS_CODE_SUCCESS ∧
  ∃ l p c, lists store !! "W" = Some l ∧ l !! p = Some c ∧ IsAvailable c = true.
Proof.
  assert ((@Run helpers cfg store).1 = STATUS_CODE_SUCCESS) as Hok
    by (vm_compute; reflexivity).
  split; [exact Hok|].
  apply (@run_success_needs_three_views helpers cfg store Hok "W"%string).
  right; right. reflexivity.
Defined.

Lemma read_settings_defaults_witness :
  ReadSettingsFrom namesOnly unset = (STATUS_CODE_SUCCESS, Scenario.cfg).
Proof.
  apply (read_settings_defaults namesOnly unset "U" "V" "W"); reflexivity.
Defined.

Lemma withFraction_agrees (name : string) (t : float) :
  name ≠ "MinMatchedPointFraction" →
  ReadFloat namesOnly name t = ReadFloat withFraction name t.
Proof. intros Hne. cbn. by rewrite decide_False. Qed.

Lemma read_settings_ignores_MinMatchedPointFraction_witness :
  ReadFloat withFraction "MinMatchedPointFraction" Float32.f_0_8
  = (STATUS_CODE_SUCCESS, Float32.half) ∧
  ReadSettingsFrom namesOnly unset = ReadSettingsFrom withFraction unset.
Proof.
  split; [reflexivity|].
  apply (proj1 (read_settings_ignores_MinMatchedPointFraction namesOnly withFraction unset
                  (λ _ _, eq_refl) (λ _ _, eq_refl) withFraction_agrees)).
Defined.

Lemma recorded_candidates_have_min_hits_witness :
  300%positive ∈
    mm_get (@SelectMatchedTracks helpers cfg {[ 1%positive := fitU; 2%positive := fitV ]}
                                 [fitU] [fitV] availableW (∅, ∅)).2 1%N ∧
  (m_minMatchedHits cfg
   ≤ N.of_nat (size (mm_get (@SelectMatchedTracks helpers cfg
                               {[ 1%positive := fitU; 2%positive := fitV ]}
                               [fitU] [fitV] availableW (∅, ∅)).2 1%N)))%N.
Proof.
  assert (300%positive ∈
            mm_get (@SelectMatchedTracks helpers cfg
                      {[ 1%positive := fitU; 2%positive := fitV ]}
                      [fitU] [fitV] availableW (∅, ∅)).2 1%N) as Hin
    by (apply (bool_decide_unpack _); vm_compute; exact I).
  split; [exact Hin|].
  exact (@recorded_candidates_have_min_hits helpers cfg
           {[ 1%positive := fitU; 2%positive := fitV ]} [fitU] [fitV] availableW
           1%N 300%positive Hin).
Defined.

Lemma recorded_hits_are_third_view_hits_witness :
  309%positive ∈
    mm_get (@SelectMatchedTracks helpers cfg {[ 1%positive := fitU; 2%positive := fitV ]}
                                 [fitU] [fitV] availableW (∅, ∅)).2 1%N ∧
  ∃ p c, (p, c) ∈ availableW ∧ 309%positive ∈ GetCaloHitList c.
Proof.
  assert (309%positive ∈
            mm_get (@SelectMatchedTracks helpers cfg
                      {[ 1%positive := fitU; 2%positive := fitV ]}
                      [fitU] [fitV] availableW (∅, ∅)).2 1%N) as Hin
    by (apply (bool_decide_unpack _); vm_compute; exact I).
  split; [exact Hin|].
  exact (@recorded_hits_are_third_view_hits helpers cfg
           {[ 1%positive := fitU; 2%positive := fitV ]} [fitU] [fitV] availableW
           1%N 309%positive Hin).
Defined.

Import ScenarioFilters.

Lemma span_filter_rejects_witness :
  (@findAssociated helpers cfg (@sampleProjections helpers fitU fitV x0 x10 x0 x10)
                   wideW).2 !! 3%positive
  = Some (mkCluster true (hitsFrom 300 16)) ∧
  @GetClusterSpanX helpers (mkCluster true (hitsFrom 300 16)) = (x0, Float32.of_N 15) ∧
  @SelectMatchedTracks_pair helpers cfg 1 fitU fitV wideW (∅, ∅) = (∅, ∅).
Proof.
  assert ((@findAssociated helpers cfg (@sampleProjections helpers fitU fitV x0 x10 x0 x10)
                           wideW).2 !! 3%positive
          = Some (mkCluster true (hitsFrom 300 16))) as Hpc by (vm_compute; reflexivity).
  assert (@GetClusterSpanX helpers (mkCluster true (hitsFrom 300 16))
          = (x0, Float32.of_N 15)) as Hc by (vm_compute; reflexivity).
  split; [exact Hpc|]. split; [exact Hc|].
  apply (@span_filter_rejects helpers cfg 1 fitU fitV wideW (∅, ∅)
           x0 x10 x0 x10 x0 (Float32.of_N 15) 3%positive
           (mkCluster true (hitsFrom 300 16))).
  - vm_compute. reflexivity.
  - vm_compute. reflexivity.
  - exact Hpc.
  - exact Hc.
  - vm_compute. reflexivity.
Defined.

Lemma coverage_filter_rejects_witness :
  (N.of_nat (size (@findMatchedHits helpers cfgFew
                     (@findAssociated helpers cfgFew
                        (@sampleProjections helpers fitU fitV x0 x10 x0 x10) sparseW).1))
   <? m_minMatchedHits cfgFew)%N = false ∧
  @SelectMatchedTracks_pair helpers cfgFew 1 fitU fitV sparseW (∅, ∅) = (∅, ∅).
Proof.
  split; [vm_compute; reflexivity|].
  apply (@coverage_filter_rejects helpers cfgFew 1 fitU fitV sparseW (∅, ∅)
           x0 x10 x0 x10).
  - vm_compute. reflexivity.
  - vm_compute. reflexivity.
  - vm_compute. reflexivity.
Defined.

Lemma commit_frames_other_lists_witness :
  lists storeFour !! "T" = Some bystander ∧
  (ModifyClusters "W" claimedByW claimsW storeFour).1 = STATUS_CODE_SUCCESS ∧
  lists (ModifyClusters "W" claimedByW claimsW storeFour).2 !! "T" = Some bystander.
Proof.
  assert (lists storeFour !! "T" = Some bystander) as Hl by (vm_compute; reflexivity).
  split; [exact Hl|]. split; [vm_compute; reflexivity|].
  apply (proj1 (commit_frames_other_lists "W" claimedByW claimsW storeFour)
               "T"%string bystander); [discriminate | exact Hl].
Defined.

Lemma run_frames_other_lists_witness :
  lists storeFour !! "T" = Some bystander ∧
  (@Run helpers cfg storeFour).1 = STATUS_CODE_SUCCESS ∧
  lists (@Run helpers cfg storeFour).2 !! "T" = Some bystander.
Proof.
  assert (lists storeFour !! "T" = Some bystander) as Hl by (vm_compute; reflexivity).
  split; [exact Hl|]. split; [vm_compute; reflexivity|].
  apply (proj1 (@run_frames_other_lists helpers cfg storeFour) "T"%string bystander);
    [discriminate | discriminate | discriminate | exact Hl].
Defined.
